(** * OkColor: Oklab / OkLCH conversions and colour utilities

    A shallow embedding of [src/OkColor.js] and the proofs of the properties
    its specification states.

    ** The number model

    The program computes on JavaScript numbers.  They are modelled by [num]:
    a real number, or one of the three special values [NaN], [PInf], [NInf].
    Arithmetic on finite values is exact (no rounding, no overflow, and a
    single zero); the special values follow the tables of ECMA-262 for [+],
    [*], [/], [%], [<] and for the [Math] functions the program calls.  A
    decimal literal of the source denotes the rational it spells.

    The statements about [OkColor] are therefore made on bounded arguments,
    where the program differs from the model by rounding only.  Where the
    specification speaks of every finite argument, the module [OkColor64]
    has the methods concerned with the overflow of binary64 written out. *)

From Stdlib Require Import Reals Machin Lra Lia ZArith List Bool Psatz.
Import ListNotations.
Local Open Scope R_scope.

(** ** Real-valued helpers used by the [Math] tables *)

(** Rounding towards zero, as in the definition of the [%] operator. *)
Definition Rtrunc (r : R) : R :=
  if Rle_dec 0 r then IZR (Int_part r) else - IZR (Int_part (- r)).

Definition is_int (r : R) : bool :=
  if Req_dec_T (IZR (Int_part r)) r then true else false.

Definition is_odd_int (r : R) : bool := is_int r && Z.odd (Int_part r).

(** The angle of the point [(a, b)], in (-PI, PI]. *)
Definition Ratan2 (b a : R) : R :=
  if Rlt_dec 0 a then atan (b / a)
  else if Rlt_dec a 0 then
    (if Rle_dec 0 b then atan (b / a) + PI else atan (b / a) - PI)
  else if Rlt_dec 0 b then PI / 2
  else if Rlt_dec b 0 then - (PI / 2)
  else 0.

(** ** JavaScript numbers *)

Inductive num : Type :=
| NaN
| PInf
| NInf
| Fin (r : R).

Declare Scope js_scope.
Delimit Scope js_scope with js.
Bind Scope js_scope with num.

Module Number.

Definition neg (a : num) : num :=
  match a with
  | NaN => NaN
  | PInf => NInf
  | NInf => PInf
  | Fin r => Fin (- r)
  end.

Definition add (a b : num) : num :=
  match a, b with
  | NaN, _ | _, NaN => NaN
  | PInf, NInf | NInf, PInf => NaN
  | PInf, _ | _, PInf => PInf
  | NInf, _ | _, NInf => NInf
  | Fin r, Fin s => Fin (r + s)
  end.

Definition sub (a b : num) : num := add a (neg b).

(** The product of an infinity and a finite value: the sign of the result,
    or [NaN] at zero. *)
Definition inf_times (positive : bool) (s : R) : num :=
  if Rlt_dec 0 s then (if positive then PInf else NInf)
  else if Rlt_dec s 0 then (if positive then NInf else PInf)
  else NaN.

Definition mul (a b : num) : num :=
  match a, b with
  | NaN, _ | _, NaN => NaN
  | PInf, PInf | NInf, NInf => PInf
  | PInf, NInf | NInf, PInf => NInf
  | PInf, Fin s | Fin s, PInf => inf_times true s
  | NInf, Fin s | Fin s, NInf => inf_times false s
  | Fin r, Fin s => Fin (r * s)
  end.

Definition div (a b : num) : num :=
  match a, b with
  | NaN, _ | _, NaN => NaN
  | (PInf | NInf), (PInf | NInf) => NaN
  | PInf, Fin s => if Rlt_dec s 0 then NInf else PInf
  | NInf, Fin s => if Rlt_dec s 0 then PInf else NInf
  | Fin _, (PInf | NInf) => Fin 0
  | Fin r, Fin s =>
      if Req_dec_T s 0 then
        (if Rlt_dec 0 r then PInf else if Rlt_dec r 0 then NInf else NaN)
      else Fin (r / s)
  end.

(** [n % d]: the remainder has the sign of the dividend. *)
Definition rem (n d : num) : num :=
  match n, d with
  | NaN, _ | _, NaN => NaN
  | (PInf | NInf), _ => NaN
  | Fin r, (PInf | NInf) => Fin r
  | Fin r, Fin s =>
      if Req_dec_T s 0 then NaN else Fin (r - s * Rtrunc (r / s))
  end.

(** [a < b]: false as soon as an operand is [NaN]. *)
Definition ltb (a b : num) : bool :=
  match a, b with
  | NaN, _ | _, NaN => false
  | PInf, _ => false
  | _, PInf => true
  | _, NInf => false
  | NInf, _ => true
  | Fin r, Fin s => if Rlt_dec r s then true else false
  end.

End Number.

Infix "+" := Number.add : js_scope.
Infix "-" := Number.sub : js_scope.
Infix "*" := Number.mul : js_scope.
Infix "/" := Number.div : js_scope.
Infix "mod" := Number.rem (at level 40, no associativity) : js_scope.
Infix "<?" := Number.ltb (at level 70, no associativity) : js_scope.

(** ** The [Math] object *)

Module Math.

Definition PI : num := Fin Rtrigo1.PI.

Definition max (a b : num) : num :=
  match a, b with
  | NaN, _ | _, NaN => NaN
  | PInf, _ | _, PInf => PInf
  | NInf, c | c, NInf => c
  | Fin r, Fin s => Fin (Rmax r s)
  end.

Definition min (a b : num) : num :=
  match a, b with
  | NaN, _ | _, NaN => NaN
  | NInf, _ | _, NInf => NInf
  | PInf, c | c, PInf => c
  | Fin r, Fin s => Fin (Rmin r s)
  end.

(** [Math.pow], after Number::exponentiate of ECMA-262. *)
Definition pow (base exponent : num) : num :=
  match exponent with
  | NaN => NaN
  | PInf =>
      match base with
      | NaN => NaN
      | PInf | NInf => PInf
      | Fin b =>
          if Rlt_dec 1 (Rabs b) then PInf
          else if Req_dec_T (Rabs b) 1 then NaN
          else Fin 0
      end
  | NInf =>
      match base with
      | NaN => NaN
      | PInf | NInf => Fin 0
      | Fin b =>
          if Rlt_dec 1 (Rabs b) then Fin 0
          else if Req_dec_T (Rabs b) 1 then NaN
          else PInf
      end
  | Fin e =>
      if Req_dec_T e 0 then Fin 1
      else
        match base with
        | NaN => NaN
        | PInf => if Rlt_dec 0 e then PInf else Fin 0
        | NInf =>
            if Rlt_dec 0 e then (if is_odd_int e then NInf else PInf)
            else Fin 0
        | Fin b =>
            if Req_dec_T b 0 then (if Rlt_dec 0 e then Fin 0 else PInf)
            else if Rlt_dec 0 b then Fin (Rpower b e)
            else if is_int e then Fin (powerRZ b (Int_part e))
            else NaN
        end
  end.

Definition sqrt (a : num) : num :=
  match a with
  | NaN | NInf => NaN
  | PInf => PInf
  | Fin r => if Rlt_dec r 0 then NaN else Fin (R_sqrt.sqrt r)
  end.

Definition atan2 (b a : num) : num :=
  match b, a with
  | NaN, _ | _, NaN => NaN
  | Fin s, Fin r => Fin (Ratan2 s r)
  | Fin _, PInf => Fin 0
  | Fin s, NInf => if Rlt_dec s 0 then Fin (- Rtrigo1.PI) else Fin Rtrigo1.PI
  | PInf, Fin _ => Fin (Rtrigo1.PI / 2)
  | PInf, PInf => Fin (Rtrigo1.PI / 4)
  | PInf, NInf => Fin (3 * Rtrigo1.PI / 4)
  | NInf, Fin _ => Fin (- (Rtrigo1.PI / 2))
  | NInf, PInf => Fin (- (Rtrigo1.PI / 4))
  | NInf, NInf => Fin (- (3 * Rtrigo1.PI / 4))
  end.

Definition cos (a : num) : num :=
  match a with
  | Fin r => Fin (Rtrigo_def.cos r)
  | _ => NaN
  end.

Definition sin (a : num) : num :=
  match a with
  | Fin r => Fin (Rtrigo_def.sin r)
  | _ => NaN
  end.

End Math.

(** [Float64Array.of(...)] and indexing: reading past the end gives
    [undefined], which arithmetic turns into [NaN]. *)
Definition Float64Array_of (l : list R) : list num := map Fin l.

Definition get (m : list num) (i : nat) : num := nth i m NaN.

Notation "m .[ i ]" := (get m i) (at level 1, format "m .[ i ]").

(** ** The vector primitive

    [Vec3] is the host application's vector class; the repository only calls
    it. *)

Module Vec3.

Record t : Type := new { x : num; y : num; z : num }.

(** Modelled from the spec: [Vec3.multiply], class [Vec3] is not part of the
    repository; the specification describes it as the component-wise
    multiply of two vectors. *)
Definition multiply (a b : t) : t :=
  new (x a * x b)%js (y a * y b)%js (z a * z b)%js.

(** Modelled from the spec: [Vec3.mix], class [Vec3] is not part of the
    repository; the specification describes it as the linear interpolation
    [result = a + (b - a) * t]. *)
Definition mix (a b : t) (f : num) : t :=
  new (x a + (x b - x a) * f)%js
      (y a + (y b - y a) * f)%js
      (z a + (z b - z a) * f)%js.

End Vec3.

(** ** The program *)

Module OkColor.

Local Open Scope js_scope.

(** The source declares the matrices and the two helper functions inside
    each method that uses them, with the same text every time; they are
    stated once here. *)

(** Local to [rgb2oklab] and to [mix]. *)
Definition kCONEtoLMS : list num := Float64Array_of [
  0.4122214708; 0.5363325363; 0.0514459929;
  0.2119034982; 0.6806995451; 0.1073969566;
  0.0883024619; 0.2817188376; 0.6299787005 ]%R.

(** Local to [rgb2oklab]. *)
Definition kLMStoOKLAB : list num := Float64Array_of [
  0.2104542553; 0.7936177850; -0.0040720468;
  1.9779984951; -2.4285922050; 0.4505937099;
  0.0259040371; 0.7827717662; -0.8086757660 ]%R.

(** Local to [oklab2rgb]. *)
Definition kOKLABtoLMS : list num := Float64Array_of [
  1.0; 0.3963377774; 0.2158037573;
  1.0; -0.1055613458; -0.0638541728;
  1.0; -0.0894841775; -1.2914855480 ]%R.

(** Local to [oklab2rgb] and to [mix]. *)
Definition kLMStoCONE : list num := Float64Array_of [
  4.0767416621; -3.3077115913; 0.2309699292;
  -1.2684380046; 2.6097574011; -0.3413193965;
  -0.0041960863; -0.7034186147; 1.7076147010 ]%R.

(** Local to [rgb2oklab], [oklab2rgb] and [mix]. *)
Definition mat3MulVec3 (m : list num) (v : Vec3.t) : Vec3.t :=
  Vec3.new
    (m.[0] * Vec3.x v + m.[1] * Vec3.y v + m.[2] * Vec3.z v)
    (m.[3] * Vec3.x v + m.[4] * Vec3.y v + m.[5] * Vec3.z v)
    (m.[6] * Vec3.x v + m.[7] * Vec3.y v + m.[8] * Vec3.z v).

(** Local to [rgb2oklab] and to [mix]. *)
Definition coneResponse (v : Vec3.t) : Vec3.t :=
  Vec3.new
    (Math.pow (Math.max (Vec3.x v) (Fin 0)) (Fin 0.3333333))
    (Math.pow (Math.max (Vec3.y v) (Fin 0)) (Fin 0.3333333))
    (Math.pow (Math.max (Vec3.z v) (Fin 0)) (Fin 0.3333333)).

(** The default value of the [gamma] parameter of [rgb2oklab] and
    [oklab2rgb]. *)
Definition default_gamma : num := Fin 2.2.

Definition rgb2oklab (rgb : Vec3.t) (gamma : num) : Vec3.t :=
  let lin := Vec3.new
    (Math.pow (Vec3.x rgb) gamma)
    (Math.pow (Vec3.y rgb) gamma)
    (Math.pow (Vec3.z rgb) gamma) in
  let lms := mat3MulVec3 kCONEtoLMS lin in
  let lms_ := coneResponse lms in
  mat3MulVec3 kLMStoOKLAB lms_.

Definition oklab2rgb (lab : Vec3.t) (gamma : num) : Vec3.t :=
  let INV_GAMMA := Fin 1 / gamma in
  let lms_ := mat3MulVec3 kOKLABtoLMS lab in
  let lms := Vec3.multiply (Vec3.multiply lms_ lms_) lms_ in
  let lin := mat3MulVec3 kLMStoCONE lms in
  Vec3.new
    (Math.pow (Math.max (Fin 0) (Math.min (Fin 1) (Vec3.x lin))) INV_GAMMA)
    (Math.pow (Math.max (Fin 0) (Math.min (Fin 1) (Vec3.y lin))) INV_GAMMA)
    (Math.pow (Math.max (Fin 0) (Math.min (Fin 1) (Vec3.z lin))) INV_GAMMA).

Definition oklab2oklch (lab : Vec3.t) : Vec3.t :=
  let L := Vec3.x lab in
  let a := Vec3.y lab in
  let b := Vec3.z lab in
  let C := Math.sqrt (a * a + b * b) in
  let H := Math.atan2 b a in
  Vec3.new L C H.

Definition oklch2oklab (lch : Vec3.t) : Vec3.t :=
  let L := Vec3.x lch in
  let C := Vec3.y lch in
  let H := Vec3.z lch in
  let a := C * Math.cos H in
  let b := C * Math.sin H in
  Vec3.new L a b.

Definition rgb2oklch (rgb : Vec3.t) : Vec3.t :=
  let lab := rgb2oklab rgb default_gamma in
  oklab2oklch lab.

Definition oklch2rgb (lch : Vec3.t) : Vec3.t :=
  let lab := oklch2oklab lch in
  oklab2rgb lab default_gamma.

Definition mix (rgb1 rgb2 : Vec3.t) (t : num) : Vec3.t :=
  let lin1 := Vec3.new
    (Math.pow (Vec3.x rgb1) (Fin 2.2))
    (Math.pow (Vec3.y rgb1) (Fin 2.2))
    (Math.pow (Vec3.z rgb1) (Fin 2.2)) in
  let lin2 := Vec3.new
    (Math.pow (Vec3.x rgb2) (Fin 2.2))
    (Math.pow (Vec3.y rgb2) (Fin 2.2))
    (Math.pow (Vec3.z rgb2) (Fin 2.2)) in
  let lms1 := coneResponse (mat3MulVec3 kCONEtoLMS lin1) in
  let lms2 := coneResponse (mat3MulVec3 kCONEtoLMS lin2) in
  let lms := Vec3.mix lms1 lms2 t in
  let lin :=
    mat3MulVec3 kLMStoCONE (Vec3.multiply (Vec3.multiply lms lms) lms) in
  Vec3.new
    (Math.pow (Vec3.x lin) (Fin 0.4545454))
    (Math.pow (Vec3.y lin) (Fin 0.4545454))
    (Math.pow (Vec3.z lin) (Fin 0.4545454)).

Definition setHue (rgb : Vec3.t) (hue : num) : Vec3.t :=
  let lch := rgb2oklch rgb in
  let newHue := hue mod (Math.PI * Fin 2) in
  let newHue :=
    if newHue <? Fin 0 then newHue + Math.PI * Fin 2 else newHue in
  oklch2rgb (Vec3.new (Vec3.x lch) (Vec3.y lch) newHue).

Definition shiftHue (rgb : Vec3.t) (factor : num) : Vec3.t :=
  let lch := rgb2oklch rgb in
  let newHue := (Vec3.z lch + factor) mod (Math.PI * Fin 2) in
  let newHue :=
    if newHue <? Fin 0 then newHue + Math.PI * Fin 2 else newHue in
  oklch2rgb (Vec3.new (Vec3.x lch) (Vec3.y lch) newHue).

Definition setChroma (rgb : Vec3.t) (chroma : num) : Vec3.t :=
  let lch := rgb2oklch rgb in
  let newLch := Vec3.new (Vec3.x lch) chroma (Vec3.z lch) in
  oklch2rgb newLch.

Definition scaleChroma (rgb : Vec3.t) (factor : num) : Vec3.t :=
  let lch := rgb2oklch rgb in
  let newLch := Vec3.new (Vec3.x lch) (Vec3.y lch * factor) (Vec3.z lch) in
  oklch2rgb newLch.

Definition setLightness (rgb : Vec3.t) (lightness : num) : Vec3.t :=
  let lch := rgb2oklch rgb in
  let newLch :=
    Vec3.new (Math.max (Fin 0) (Math.min (Fin 1) lightness))
             (Vec3.y lch) (Vec3.z lch) in
  oklch2rgb newLch.

Definition shiftLightness (rgb : Vec3.t) (factor : num) : Vec3.t :=
  let lch := rgb2oklch rgb in
  let newLightness :=
    Math.max (Fin 0) (Math.min (Fin 1) (Vec3.x lch + factor)) in
  oklch2rgb (Vec3.new newLightness (Vec3.y lch) (Vec3.z lch)).

End OkColor.

Import OkColor.

(** ** The binary64 range

    [num] has no largest number.  A binary64 operation whose exact result has
    the magnitude [2^1024 - 2^970] or more returns an infinity instead:
    [overflow] is that step, the operations of [Binary64] apply it to the
    exact result, and [OkColor64] has the text of [oklab2rgb], [oklab2oklch]
    and [oklch2oklab], and of the helpers they call, on these operations.
    Rounding and underflow remain unmodelled: the statements keep the
    arguments away from the underflow range as well. *)

Definition overflow_threshold : R := 2 ^ 1024 - 2 ^ 970.

Definition overflow (n : num) : num :=
  match n with
  | Fin r =>
      if Rle_dec overflow_threshold r then PInf
      else if Rle_dec r (- overflow_threshold) then NInf
      else Fin r
  | _ => n
  end.

Declare Scope b64_scope.
Delimit Scope b64_scope with b64.

Module Binary64.

Definition add (a b : num) : num := overflow (Number.add a b).

Definition mul (a b : num) : num := overflow (Number.mul a b).

Definition div (a b : num) : num := overflow (Number.div a b).

Definition pow (base exponent : num) : num := overflow (Math.pow base exponent).

End Binary64.

Arguments Binary64.add (a b)%_b64_scope.
Arguments Binary64.mul (a b)%_b64_scope.
Arguments Binary64.div (a b)%_b64_scope.

Infix "+" := Binary64.add : b64_scope.
Infix "*" := Binary64.mul : b64_scope.
Infix "/" := Binary64.div : b64_scope.

Module OkColor64.

(** [Vec3.multiply], modelled from the spec as in [Vec3]. *)
Definition multiply (a b : Vec3.t) : Vec3.t :=
  Vec3.new (Vec3.x a * Vec3.x b)%b64 (Vec3.y a * Vec3.y b)%b64
           (Vec3.z a * Vec3.z b)%b64.

Definition mat3MulVec3 (m : list num) (v : Vec3.t) : Vec3.t :=
  Vec3.new
    (m.[0] * Vec3.x v + m.[1] * Vec3.y v + m.[2] * Vec3.z v)%b64
    (m.[3] * Vec3.x v + m.[4] * Vec3.y v + m.[5] * Vec3.z v)%b64
    (m.[6] * Vec3.x v + m.[7] * Vec3.y v + m.[8] * Vec3.z v)%b64.

Definition oklab2rgb (lab : Vec3.t) (gamma : num) : Vec3.t :=
  let INV_GAMMA := (Fin 1 / gamma)%b64 in
  let lms_ := mat3MulVec3 kOKLABtoLMS lab in
  let lms := multiply (multiply lms_ lms_) lms_ in
  let lin := mat3MulVec3 kLMStoCONE lms in
  Vec3.new
    (Binary64.pow (Math.max (Fin 0) (Math.min (Fin 1) (Vec3.x lin))) INV_GAMMA)
    (Binary64.pow (Math.max (Fin 0) (Math.min (Fin 1) (Vec3.y lin))) INV_GAMMA)
    (Binary64.pow (Math.max (Fin 0) (Math.min (Fin 1) (Vec3.z lin))) INV_GAMMA).

Definition oklab2oklch (lab : Vec3.t) : Vec3.t :=
  let L := Vec3.x lab in
  let a := Vec3.y lab in
  let b := Vec3.z lab in
  let C := Math.sqrt (a * a + b * b)%b64 in
  let H := Math.atan2 b a in
  Vec3.new L C H.

Definition oklch2oklab (lch : Vec3.t) : Vec3.t :=
  let L := Vec3.x lch in
  let C := Vec3.y lch in
  let H := Vec3.z lch in
  let a := (C * Math.cos H)%b64 in
  let b := (C * Math.sin H)%b64 in
  Vec3.new L a b.

End OkColor64.

(** * Definitions used by the statements and the proofs *)

(** ** Finite vectors *)

Definition vfin (a b c : R) : Vec3.t := Vec3.new (Fin a) (Fin b) (Fin c).

Definition R3 : Type := (R * R * R)%type.

Definition fin3 (v : R3) : Vec3.t := let '(a, b, c) := v in vfin a b c.

Definition map3 (f : R -> R) (v : R3) : R3 :=
  let '(a, b, c) := v in (f a, f b, f c).

Definition zip3 (f : R -> R -> R) (v w : R3) : R3 :=
  let '(a, b, c) := v in let '(a', b', c') := w in (f a a', f b b', f c c').

(** Normalized RGB: every component in [0,1]. *)
Definition in01 (v : R3) : Prop :=
  let '(a, b, c) := v in 0 <= a <= 1 /\ 0 <= b <= 1 /\ 0 <= c <= 1.

Definition nonneg3 (v : R3) : Prop :=
  let '(a, b, c) := v in 0 <= a /\ 0 <= b /\ 0 <= c.

(** Every component of [v] is within [tol] of the same component of [w]. *)
Definition close3 (tol : R) (v w : R3) : Prop :=
  let '(a, b, c) := v in let '(a', b', c') := w in
  Rabs (a - a') <= tol /\ Rabs (b - b') <= tol /\ Rabs (c - c') <= tol.

(** A number that is not infinite. *)
Definition not_inf (n : num) : Prop :=
  match n with PInf | NInf => False | _ => True end.

(** ** The program's expressions on finite values *)

(** [Math.pow] on a base that is not negative and an exponent above zero. *)
Definition rpow (b e : R) : R := if Req_dec_T b 0 then 0 else Rpower b e.

(** [Math.max(0, Math.min(1, n))], the clamp that [oklab2rgb],
    [setLightness] and [shiftLightness] write. *)
Definition clamp01 (n : num) : num := Math.max (Fin 0) (Math.min (Fin 1) n).

Definition Rclamp01 (r : R) : R := Rmax 0 (Rmin 1 r).

(** The hue that [setHue] and [shiftHue] hand to [oklch2rgb]. *)
Definition wrapHue (value : num) : num :=
  let newHue := (value mod (Math.PI * Fin 2))%js in
  if (newHue <? Fin 0)%js then (newHue + Math.PI * Fin 2)%js else newHue.

(** The entries of a matrix and its rows applied to a finite vector. *)
Definition coef (m : list num) (i : nat) : R :=
  match m.[i] with Fin r => r | _ => 0 end.

Definition row (m : list num) (i : nat) (v : R3) : R :=
  let '(a, b, c) := v in
  coef m i * a + coef m (i + 1) * b + coef m (i + 2) * c.

Definition Rmat (m : list num) (v : R3) : R3 := (row m 0 v, row m 3 v, row m 6 v).

(** One component of [coneResponse]. *)
Definition Rcone (r : R) : R := rpow (Rmax r 0) 0.3333333.

Definition Rcube (r : R) : R := r * r * r.

(** The LMS vector of [rgb2oklab] and [mix], before the cone response. *)
Definition Rlms (gamma : R) (rgb : R3) : R3 :=
  Rmat kCONEtoLMS (map3 (fun c => rpow c gamma) rgb).

Definition Rrgb2oklab (gamma : R) (rgb : R3) : R3 :=
  Rmat kLMStoOKLAB (map3 Rcone (Rlms gamma rgb)).

(** The linear RGB vector of [oklab2rgb], before the clamp. *)
Definition Rlinear (lab : R3) : R3 :=
  Rmat kLMStoCONE (map3 Rcube (Rmat kOKLABtoLMS lab)).

Definition Roklab2rgb (gamma : R) (lab : R3) : R3 :=
  map3 (fun c => rpow (Rclamp01 c) (1 / gamma)) (Rlinear lab).

Definition Roklab2oklch (lab : R3) : R3 :=
  let '(L, a, b) := lab in (L, sqrt (a * a + b * b), Ratan2 b a).

Definition Roklch2oklab (lch : R3) : R3 :=
  let '(L, C, H) := lch in (L, C * cos H, C * sin H).

Definition Rrgb2oklch (rgb : R3) : R3 := Roklab2oklch (Rrgb2oklab 2.2 rgb).

Definition Roklch2rgb (lch : R3) : R3 := Roklab2rgb 2.2 (Roklch2oklab lch).

(** The gray that [oklch2rgb] gives for the lightness [L] and no chroma. *)
Definition Rgray (L : R) : R := rpow (Rclamp01 (Rcube L)) (1 / 2.2).

(** [Vec3.mix] on one component. *)
Definition Rlerp (t a b : R) : R := a + (b + - a) * t.

(** The linear RGB vector that [mix] computes before its last line. *)
Definition mix_linear (rgb1 rgb2 : Vec3.t) (t : num) : Vec3.t :=
  let decode c := Math.pow c (Fin 2.2) in
  let lms1 := coneResponse (mat3MulVec3 kCONEtoLMS
    (Vec3.new (decode (Vec3.x rgb1)) (decode (Vec3.y rgb1)) (decode (Vec3.z rgb1)))) in
  let lms2 := coneResponse (mat3MulVec3 kCONEtoLMS
    (Vec3.new (decode (Vec3.x rgb2)) (decode (Vec3.y rgb2)) (decode (Vec3.z rgb2)))) in
  let lms := Vec3.mix lms1 lms2 t in
  mat3MulVec3 kLMStoCONE (Vec3.multiply (Vec3.multiply lms lms) lms).

Definition Rmix_linear (rgb1 rgb2 : R3) (t : R) : R3 :=
  Rmat kLMStoCONE (map3 Rcube
    (zip3 (Rlerp t) (map3 Rcone (Rlms 2.2 rgb1)) (map3 Rcone (Rlms 2.2 rgb2)))).

(** ** The procedure the specification gives for [mix]

    Gamma-decode both inputs with the exponent 2.2, apply the cone matrix and
    the nonlinearity, interpolate as [lms1 * (1 - t) + lms2 * t], cube, apply
    the LMS-to-linear matrix and the inverse-gamma curve, without a clamp.
    The exponent of the nonlinearity and the exponent of the inverse-gamma
    curve are parameters. *)
Definition mix_pipeline (root inv_gamma : num) (rgb1 rgb2 : Vec3.t) (t : num)
  : Vec3.t :=
  let decode v := Vec3.new (Math.pow (Vec3.x v) (Fin 2.2))
                           (Math.pow (Vec3.y v) (Fin 2.2))
                           (Math.pow (Vec3.z v) (Fin 2.2)) in
  let nonlinearity v :=
    Vec3.new (Math.pow (Math.max (Vec3.x v) (Fin 0)) root)
             (Math.pow (Math.max (Vec3.y v) (Fin 0)) root)
             (Math.pow (Math.max (Vec3.z v) (Fin 0)) root) in
  let lms1 := nonlinearity (mat3MulVec3 kCONEtoLMS (decode rgb1)) in
  let lms2 := nonlinearity (mat3MulVec3 kCONEtoLMS (decode rgb2)) in
  let lerp a b := (a * (Fin 1 - t) + b * t)%js in
  let lms := Vec3.new (lerp (Vec3.x lms1) (Vec3.x lms2))
                      (lerp (Vec3.y lms1) (Vec3.y lms2))
                      (lerp (Vec3.z lms1) (Vec3.z lms2)) in
  let cubed := Vec3.multiply (Vec3.multiply lms lms) lms in
  let lin := mat3MulVec3 kLMStoCONE cubed in
  Vec3.new (Math.pow (Vec3.x lin) inv_gamma)
           (Math.pow (Vec3.y lin) inv_gamma)
           (Math.pow (Vec3.z lin) inv_gamma).

Definition Rpipeline_linear (root : R) (rgb1 rgb2 : R3) (t : R) : R3 :=
  Rmat kLMStoCONE (map3 Rcube
    (zip3 (fun a b => a * (1 + - t) + b * t)
          (map3 (fun r => rpow (Rmax r 0) root) (Rlms 2.2 rgb1))
          (map3 (fun r => rpow (Rmax r 0) root) (Rlms 2.2 rgb2)))).

(** Case analysis on the two comparisons of [Rclamp01]. *)
Ltac clamp_cases :=
  unfold Rclamp01, Rmax, Rmin; repeat destruct (Rle_dec _ _); lra.

(** Exposes the literals of the four matrices. *)
Ltac matrix_constants :=
  cbv [Rmat row coef get nth kCONEtoLMS kLMStoOKLAB kOKLABtoLMS kLMStoCONE
       Float64Array_of map Nat.add] in *.

(** Exposes the entries of a matrix in a product with overflow. *)
Ltac matrix_entries :=
  cbn [get nth kCONEtoLMS kLMStoOKLAB kOKLABtoLMS kLMStoCONE Float64Array_of map].

(** ** Values outside the normalized range *)

(** The vector whose three components are [NaN]. *)
Definition vnan : Vec3.t := Vec3.new NaN NaN NaN.

(** A colour component that the gamma decoding [Math.pow(c, 2.2)] turns into
    [NaN]: [NaN] itself or a negative number. *)
Definition invalid (n : num) : Prop := n = NaN \/ exists r : R, n = Fin r /\ r < 0.

(** A number that is [NaN] or within [tol] of [c]. *)
Definition near_or_nan (tol : R) (n : num) (c : R) : Prop :=
  n = NaN \/ exists r : R, n = Fin r /\ Rabs (r - c) <= tol.

(** The same for the three components of a vector. *)
Definition near_or_nan3 (tol : R) (v : Vec3.t) (w : R3) : Prop :=
  let '(a, b, c) := w in
  near_or_nan tol (Vec3.x v) a /\ near_or_nan tol (Vec3.y v) b /\
  near_or_nan tol (Vec3.z v) c.

(** ** Bounded arguments *)

(** Every component of [v] has a magnitude of at most [m]. *)
Definition bounded3 (m : R) (v : R3) : Prop :=
  let '(a, b, c) := v in Rabs a <= m /\ Rabs b <= m /\ Rabs c <= m.

(** A number that is zero or of a magnitude between 1e-100 and 1000: its
    square and its ratio to another such number neither overflow nor
    underflow. *)
Definition in_range (x : R) : Prop := x = 0 \/ 1e-100 <= Rabs x <= 1000.

(** A colour component that is zero or of a moderate size. *)
Definition moderate (x : R) : Prop := x = 0 \/ 1e-6 <= x <= 1e6.

Definition moderate3 (v : R3) : Prop :=
  let '(a, b, c) := v in moderate a /\ moderate b /\ moderate c.

(** * Real analysis *)

Section RealPowers.

Lemma exp_le_mono : forall x y, x <= y -> exp x <= exp y.
Proof.
  intros x y [H| ->]; [left; now apply exp_increasing | right; reflexivity].
Qed.

Lemma Rpower_pos : forall b e, 0 < Rpower b e.
Proof. intros; apply exp_pos. Qed.

Lemma Rpower_one_l : forall e, Rpower 1 e = 1.
Proof. intros; unfold Rpower; rewrite ln_1, Rmult_0_r; apply exp_0. Qed.

Lemma ln_le_sub1 : forall y, 0 < y -> ln y <= y - 1.
Proof.
  intros y Hy. pose proof (exp_ineq1_le (ln y)) as H.
  rewrite exp_ln in H by assumption. lra.
Qed.

Lemma ln_nonpos : forall b, 0 < b <= 1 -> ln b <= 0.
Proof. intros b Hb. pose proof (ln_le_sub1 b). lra. Qed.

Lemma ln_nonneg : forall b, 1 <= b -> 0 <= ln b.
Proof.
  intros b Hb. destruct Hb as [Hb| <-]; [|rewrite ln_1; lra].
  rewrite <- ln_1. left. apply ln_increasing; lra.
Qed.

(** A base below one: a larger exponent gives a smaller power. *)
Lemma Rpower_anti_exp : forall b e f, 0 < b <= 1 -> e <= f -> Rpower b f <= Rpower b e.
Proof.
  intros b e f Hb Hef. unfold Rpower. apply exp_le_mono.
  pose proof (ln_nonpos b Hb). nra.
Qed.

Lemma Rpower_mono_exp : forall b e f, 1 <= b -> e <= f -> Rpower b e <= Rpower b f.
Proof.
  intros b e f Hb Hef. unfold Rpower. apply exp_le_mono.
  pose proof (ln_nonneg b Hb). nra.
Qed.

Lemma Rpower_mono_base : forall a b e, 0 <= e -> 0 < a <= b -> Rpower a e <= Rpower b e.
Proof. intros; now apply Rle_Rpower_l. Qed.

(** Bernoulli: a power with exponent in [0,1] lies below its tangent at 1. *)
Lemma Rpower_bernoulli : forall y t, 0 < y -> 0 <= t <= 1 -> Rpower y t <= 1 + t * (y - 1).
Proof.
  intros y t Hy Ht. unfold Rpower. set (s := ln y).
  assert (Hys : y = exp s) by (unfold s; now rewrite exp_ln).
  rewrite Hys.
  pose proof (exp_ineq1_le (- (t * s))) as H1.
  pose proof (exp_ineq1_le ((1 - t) * s)) as H2.
  assert (E1 : exp (- (t * s)) * exp (t * s) = 1)
    by (rewrite <- exp_plus; replace (- (t * s) + t * s) with 0 by ring; apply exp_0).
  assert (E2 : exp ((1 - t) * s) * exp (t * s) = exp s)
    by (rewrite <- exp_plus; f_equal; ring).
  pose proof (exp_pos (t * s)) as P.
  assert (K : 1 <= (1 - t) * exp (- (t * s)) + t * exp ((1 - t) * s)) by nra.
  assert (K2 : 1 * exp (t * s) <= ((1 - t) * exp (- (t * s)) + t * exp ((1 - t) * s)) * exp (t * s))
    by (apply Rmult_le_compat_r; lra).
  replace (((1 - t) * exp (- (t * s)) + t * exp ((1 - t) * s)) * exp (t * s))
    with ((1 - t) * (exp (- (t * s)) * exp (t * s)) + t * (exp ((1 - t) * s) * exp (t * s))) in K2 by ring.
  rewrite E1, E2 in K2. lra.
Qed.

Lemma Rpower_nat3 : forall b, 0 < b -> Rpower b 3 = b * b * b.
Proof.
  intros b Hb. replace 3 with (INR 3) by (simpl; lra).
  rewrite Rpower_pow by assumption. ring.
Qed.

Lemma Rpower_8_third : Rpower 8 (1 / 3) = 2.
Proof.
  replace 8 with (Rpower 2 3) by (rewrite Rpower_nat3 by lra; lra).
  rewrite Rpower_mult. replace (3 * (1 / 3)) with 1 by field. apply Rpower_1; lra.
Qed.

Lemma Rpower_almost_one : forall x, 0 < x ->
  Rpower x 0.9999999 = x * exp (1 / 10000000 * - ln x).
Proof.
  intros x Hx. replace 0.9999999 with (1 + - (1 / 10000000)) by lra.
  rewrite Rpower_plus, Rpower_1 by assumption. unfold Rpower. do 2 f_equal. ring.
Qed.

(** A fifth root by its fifth power. *)
Lemma fifth_root_lo : forall c x, 0 < c -> c * c * c * c * c <= x -> c <= Rpower x 0.2.
Proof.
  intros c x Hc Hx.
  assert (P : 0 < c * c * c * c * c) by (repeat apply Rmult_lt_0_compat; assumption).
  apply Rle_trans with (Rpower (c * c * c * c * c) 0.2).
  - replace (c * c * c * c * c) with (c ^ 5) by ring.
    rewrite <- Rpower_pow, Rpower_mult by assumption.
    replace (INR 5 * 0.2) with 1 by (simpl; lra). rewrite Rpower_1; lra.
  - apply Rpower_mono_base; lra.
Qed.

Lemma fifth_root_hi : forall c x, 0 < x -> 0 < c -> x <= c * c * c * c * c -> Rpower x 0.2 <= c.
Proof.
  intros c x Hx Hc Hxc.
  apply Rle_trans with (Rpower (c * c * c * c * c) 0.2).
  - apply Rpower_mono_base; lra.
  - replace (c * c * c * c * c) with (c ^ 5) by ring.
    rewrite <- Rpower_pow, Rpower_mult by assumption.
    replace (INR 5 * 0.2) with 1 by (simpl; lra). rewrite Rpower_1; lra.
Qed.

End RealPowers.

Section ExpBounds.

Lemma exp_nat_mult : forall (n : nat) z, exp (INR n * z) = exp z ^ n.
Proof.
  intros n z. rewrite <- Rpower_pow by apply exp_pos.
  unfold Rpower. now rewrite ln_exp.
Qed.

(** [(1 + y/n)^n] lies below [exp y]. *)
Lemma exp_lower : forall (n : nat) y, (0 < n)%nat -> 0 <= 1 + y / INR n ->
  (1 + y / INR n) ^ n <= exp y.
Proof.
  intros n y Hn H. assert (0 < INR n) by (apply lt_0_INR; assumption).
  replace y with (INR n * (y / INR n)) at 2 by (field; lra).
  rewrite exp_nat_mult. apply pow_incr. split; [assumption | apply exp_ineq1_le].
Qed.

(** [exp y] lies below [1 / (1 - y/n)^n]. *)
Lemma exp_upper : forall (n : nat) y, (0 < n)%nat -> 0 < 1 - y / INR n ->
  exp y <= / (1 - y / INR n) ^ n.
Proof.
  intros n y Hn H.
  assert (L : (1 + (- y) / INR n) ^ n <= exp (- y)).
  { apply exp_lower; [assumption|]. unfold Rdiv in *. lra. }
  replace (1 + - y / INR n) with (1 - y / INR n) in L by (unfold Rdiv; ring).
  assert (P : 0 < (1 - y / INR n) ^ n) by now apply pow_lt.
  rewrite exp_Ropp in L. pose proof (exp_pos y) as E.
  rewrite <- (Rinv_inv (exp y)).
  apply Rinv_le_contravar; assumption.
Qed.

End ExpBounds.

Lemma exp_3_1 : 19.44 <= exp 3.1.
Proof.
  apply Rle_trans with ((1 + 3.1 / INR 64) ^ 64).
  - replace (INR 64) with 64 by (simpl; lra). lra.
  - apply exp_lower; [lia|]. replace (INR 64) with 64 by (simpl; lra). lra.
Qed.

Lemma exp_2_15 : exp 2.15 <= 9.31.
Proof.
  apply Rle_trans with (/ (1 - 2.15 / INR 64) ^ 64).
  - apply exp_upper; [lia|]. replace (INR 64) with 64 by (simpl; lra). lra.
  - replace (INR 64) with 64 by (simpl; lra).
    apply Rmult_le_reg_l with ((1 - 2.15 / 64) ^ 64).
    + apply pow_lt. lra.
    + rewrite Rinv_r by (apply Rgt_not_eq, pow_lt; lra). lra.
Qed.

Lemma exp_0_5 : 1.59 <= exp 0.5.
Proof.
  apply Rle_trans with ((1 + 0.5 / INR 8) ^ 8).
  - replace (INR 8) with 8 by (simpl; lra). lra.
  - apply exp_lower; [lia|]. replace (INR 8) with 8 by (simpl; lra). lra.
Qed.

Lemma exp_0_6 : exp 0.6 <= 1.85.
Proof.
  apply Rle_trans with (/ (1 - 0.6 / INR 16) ^ 16).
  - apply exp_upper; [lia|]. replace (INR 16) with 16 by (simpl; lra). lra.
  - replace (INR 16) with 16 by (simpl; lra).
    apply Rmult_le_reg_l with ((1 - 0.6 / 16) ^ 16).
    + apply pow_lt. lra.
    + rewrite Rinv_r by (apply Rgt_not_eq, pow_lt; lra). lra.
Qed.

Lemma exp_0_4 : 1.47 <= exp 0.4.
Proof.
  apply Rle_trans with ((1 + 0.4 / INR 8) ^ 8).
  - replace (INR 8) with 8 by (simpl; lra). lra.
  - apply exp_lower; [lia|]. replace (INR 8) with 8 by (simpl; lra). lra.
Qed.

Lemma Rabs_le_bounds : forall a b, Rabs a <= b -> - b <= a <= b.
Proof. intros a b. unfold Rabs. destruct (Rcase_abs a); lra. Qed.

Lemma sqrt_bounds : forall s lo hi, 0 <= lo -> 0 <= hi -> lo * lo <= s <= hi * hi ->
  lo <= sqrt s <= hi.
Proof.
  intros s lo hi Hlo Hhi [H1 H2]. split.
  - rewrite <- (sqrt_square lo) by assumption. apply sqrt_le_1_alt; assumption.
  - rewrite <- (sqrt_square hi) by assumption. apply sqrt_le_1_alt; assumption.
Qed.

(** * [Math.pow] on a base that is not negative *)

Section JsPow.

Lemma rpow_0 : forall e, rpow 0 e = 0.
Proof. intros; unfold rpow; destruct (Req_dec_T 0 0); [reflexivity|lra]. Qed.

Lemma rpow_pos : forall b e, 0 < b -> rpow b e = Rpower b e.
Proof. intros; unfold rpow; destruct (Req_dec_T b 0); [lra|reflexivity]. Qed.

Lemma rpow_1_l : forall e, rpow 1 e = 1.
Proof. intros; rewrite rpow_pos by lra; apply Rpower_one_l. Qed.

Lemma rpow_nonneg : forall b e, 0 <= rpow b e.
Proof.
  intros; unfold rpow; destruct (Req_dec_T b 0); [lra|left; apply Rpower_pos].
Qed.

Lemma rpow_gt0 : forall b e, 0 < b -> 0 < rpow b e.
Proof. intros; rewrite rpow_pos by assumption; apply Rpower_pos. Qed.

Lemma rpow_mono : forall a b e, 0 <= e -> 0 <= a <= b -> rpow a e <= rpow b e.
Proof.
  intros a b e He [Ha Hab]. destruct Ha as [Ha| <-].
  - rewrite !rpow_pos by lra. apply Rpower_mono_base; lra.
  - rewrite rpow_0. apply rpow_nonneg.
Qed.

Lemma rpow_le_1 : forall b e, 0 <= e -> 0 <= b <= 1 -> rpow b e <= 1.
Proof.
  intros b e He Hb. rewrite <- (rpow_1_l e). apply rpow_mono; lra.
Qed.

Lemma rpow_rpow : forall b e f, 0 <= b -> rpow (rpow b e) f = rpow b (e * f).
Proof.
  intros b e f [Hb| <-].
  - rewrite (rpow_pos b e), (rpow_pos b (e * f)) by assumption.
    rewrite rpow_pos by apply Rpower_pos. apply Rpower_mult.
  - now rewrite !rpow_0.
Qed.

Lemma rpow_one : forall b, 0 <= b -> rpow b 1 = b.
Proof.
  intros b [Hb| <-]; [rewrite rpow_pos by assumption; now apply Rpower_1 | apply rpow_0].
Qed.

Lemma rpow_cube : forall b e, 0 <= b -> rpow b e * rpow b e * rpow b e = rpow b (e * 3).
Proof.
  intros b e [Hb| <-].
  - rewrite !rpow_pos by assumption. rewrite <- Rpower_mult.
    rewrite Rpower_nat3 by apply Rpower_pos. reflexivity.
  - rewrite !rpow_0. ring.
Qed.

Lemma rpow_mult_distr : forall a b e, 0 <= a -> 0 <= b -> rpow (a * b) e = rpow a e * rpow b e.
Proof.
  intros a b e [Ha| <-] [Hb| <-]; rewrite ?Rmult_0_l, ?Rmult_0_r, ?rpow_0; try ring.
  rewrite !rpow_pos by nra. symmetry. now apply Rpower_mult_distr.
Qed.

(** Inverse exponents undo each other. *)
Lemma rpow_inv : forall b e, 0 <= b -> e <> 0 -> rpow (rpow b e) (1 / e) = b.
Proof.
  intros b e Hb He. rewrite rpow_rpow by assumption.
  replace (e * (1 / e)) with 1 by (field; assumption). now apply rpow_one.
Qed.

Lemma rpow_gt_1 : forall b e, 1 < b -> 0 < e -> 1 < rpow b e.
Proof.
  intros b e Hb He. rewrite rpow_pos by lra.
  rewrite <- (Rpower_O b) by lra. apply Rpower_lt; lra.
Qed.

Lemma rpow_in01 : forall x e, 0 <= e -> 0 <= x <= 1 -> 0 <= rpow x e <= 1.
Proof. intros x e He Hx. split; [apply rpow_nonneg | now apply rpow_le_1]. Qed.

(** On [0,1] the power 0.9999999 exceeds the identity by at most a ten-millionth. *)
Lemma rpow_almost_one : forall x, 0 <= x <= 1 ->
  x <= rpow x 0.9999999 <= x + (1 - x) / 10000000.
Proof.
  intros x [[Hx| <-] Hx1]; [|rewrite rpow_0; lra].
  rewrite rpow_pos by assumption. split.
  - rewrite <- (Rpower_1 x) at 1 by assumption. apply Rpower_anti_exp; lra.
  - rewrite Rpower_almost_one by assumption.
    assert (0 < / x) by now apply Rinv_0_lt_compat.
    pose proof (Rpower_bernoulli (/ x) (1 / 10000000) H ltac:(lra)) as B.
    unfold Rpower in B. rewrite ln_Rinv in B by assumption.
    assert (x * / x = 1) by (apply Rinv_r; lra).
    nra.
Qed.

End JsPow.

Section Holder.

Variable alpha : R.
Hypothesis alpha_range : 0 < alpha <= 1.

Lemma rpow_above_id : forall x, 0 <= x <= 1 -> x <= rpow x alpha.
Proof.
  intros x [[Hx| <-] Hx1]; [|rewrite rpow_0; lra].
  rewrite rpow_pos by assumption.
  rewrite <- (Rpower_1 x) at 1 by assumption. apply Rpower_anti_exp; lra.
Qed.

(** Powers with an exponent in (0,1] are subadditive. *)
Lemma rpow_subadditive : forall x y, 0 <= x -> 0 <= y ->
  rpow (x + y) alpha <= rpow x alpha + rpow y alpha.
Proof.
  intros x y Hx Hy. destruct (Req_dec_T (x + y) 0) as [Z|Z].
  - assert (x = 0) by lra. assert (y = 0) by lra. subst. rewrite Rplus_0_r, rpow_0. lra.
  - set (s := x + y). assert (Hs : 0 < s) by (unfold s; lra).
    assert (Is : 0 < / s) by now apply Rinv_0_lt_compat.
    assert (Ex : rpow x alpha = rpow s alpha * rpow (x / s) alpha).
    { rewrite <- rpow_mult_distr by (try lra; unfold Rdiv; nra). f_equal. field; lra. }
    assert (Ey : rpow y alpha = rpow s alpha * rpow (y / s) alpha).
    { rewrite <- rpow_mult_distr by (try lra; unfold Rdiv; nra). f_equal. field; lra. }
    assert (Rx : 0 <= x / s <= 1).
    { split; [unfold Rdiv; nra|]. apply Rmult_le_reg_r with s; [lra|].
      unfold Rdiv. rewrite Rmult_assoc, Rinv_l by lra. unfold s. lra. }
    assert (Ry : 0 <= y / s <= 1).
    { split; [unfold Rdiv; nra|]. apply Rmult_le_reg_r with s; [lra|].
      unfold Rdiv. rewrite Rmult_assoc, Rinv_l by lra. unfold s. lra. }
    pose proof (rpow_above_id _ Rx) as Ax. pose proof (rpow_above_id _ Ry) as Ay.
    assert (One : x / s + y / s = 1) by (unfold s; field; lra).
    rewrite Ex, Ey. pose proof (rpow_gt0 s alpha Hs). nra.
Qed.

(** Hoelder continuity of the power function. *)
Lemma rpow_holder : forall a b d, 0 <= a -> 0 <= b -> Rabs (a - b) <= d ->
  Rabs (rpow a alpha - rpow b alpha) <= rpow d alpha.
Proof.
  assert (K : forall a b d, 0 <= b <= a -> a - b <= d ->
              0 <= rpow a alpha - rpow b alpha <= rpow d alpha).
  { intros a b d Hab Hd.
    pose proof (rpow_subadditive b (a - b) ltac:(lra) ltac:(lra)) as S.
    replace (b + (a - b)) with a in S by ring.
    pose proof (rpow_mono (a - b) d alpha ltac:(lra) ltac:(lra)).
    pose proof (rpow_mono b a alpha ltac:(lra) ltac:(lra)). lra. }
  intros a b d Ha Hb Hd. apply Rabs_le_bounds in Hd.
  destruct (Rle_dec b a) as [L|L].
  - destruct (K a b d ltac:(lra) ltac:(lra)). apply Rabs_le. lra.
  - destruct (K b a d ltac:(lra) ltac:(lra)). apply Rabs_le. lra.
Qed.

End Holder.

(** * The clamp and the cube *)

Lemma Rclamp01_range : forall r, 0 <= Rclamp01 r <= 1.
Proof.
  intros r. clamp_cases.
Qed.

Lemma Rclamp01_id : forall r, 0 <= r <= 1 -> Rclamp01 r = r.
Proof.
  intros r H. clamp_cases.
Qed.

Lemma Rclamp01_le : forall r h, r <= h -> 0 <= h -> Rclamp01 r <= h.
Proof.
  intros r h Hr Hh. clamp_cases.
Qed.

Lemma Rclamp01_ge : forall r l, l <= r -> l <= 1 -> l <= Rclamp01 r.
Proof.
  intros r l Hr Hl. clamp_cases.
Qed.

Lemma Rclamp01_close : forall x y d, 0 <= y <= 1 -> Rabs (x - y) <= d ->
  Rabs (Rclamp01 x - y) <= d.
Proof.
  intros x y d Hy Hd. apply Rabs_le_bounds in Hd. apply Rabs_le. clamp_cases.
Qed.

Lemma clamp01_fin : forall r, clamp01 (Fin r) = Fin (Rclamp01 r).
Proof. reflexivity. Qed.

Lemma clamp01_cases : forall n, clamp01 n = NaN \/ exists r, clamp01 n = Fin r /\ 0 <= r <= 1.
Proof.
  intros [| | |r].
  - now left.
  - right. exists 1. split; [|lra]. unfold clamp01; cbn. f_equal.
    unfold Rmax; destruct (Rle_dec 0 1); lra.
  - right. exists 0. split; [|lra]. reflexivity.
  - right. exists (Rclamp01 r). split; [reflexivity | apply Rclamp01_range].
Qed.

Lemma Rcube_mono : forall a b, 0 <= a <= b -> Rcube a <= Rcube b.
Proof. intros a b H. unfold Rcube. assert (a * a <= b * b) by nra. nra. Qed.

Lemma Rcube_bounds : forall lo x hi, 0 <= lo -> lo <= x <= hi ->
  lo * lo * lo <= Rcube x <= hi * hi * hi.
Proof.
  intros lo x hi Hlo Hx. split.
  - change (Rcube lo <= Rcube x). apply Rcube_mono; lra.
  - change (Rcube x <= Rcube hi). apply Rcube_mono; lra.
Qed.

(** The cube of a slightly perturbed value in [0,1]. *)
Lemma cube_perturb : forall u e lo hi, 0 <= u <= 1 -> lo <= e <= hi ->
  -1 / 10000000 <= lo <= 0 -> 0 <= hi <= 1 / 10000000 ->
  3.0000004 * lo <= Rcube (u + e) - Rcube u <= 3.0000004 * hi.
Proof.
  intros u e lo hi Hu He Hlo Hhi. unfold Rcube.
  replace ((u + e) * (u + e) * (u + e) - u * u * u)
    with (e * (3 * u * u + 3 * u * e + e * e)) by ring.
  set (f := 3 * u * u + 3 * u * e + e * e).
  assert (E : -1 / 10000000 <= e <= 1 / 10000000) by lra.
  assert (F : 0 <= f <= 3.0000004).
  { unfold f. split.
    - replace (3 * u * u + 3 * u * e + e * e)
        with (3 * ((u + e / 2) * (u + e / 2)) + e * e / 4) by field.
      pose proof (Rle_0_sqr (u + e / 2)) as S1. pose proof (Rle_0_sqr e) as S2.
      unfold Rsqr in S1, S2. lra.
    - assert (u * u <= 1) by nra.
      assert (u * e <= 1 / 10000000) by nra.
      assert (e * e <= 1 / 10000000) by nra.
      lra. }
  destruct (Rle_dec 0 e).
  - split.
    + apply Rle_trans with 0; [lra | apply Rmult_le_pos; lra].
    + apply Rle_trans with (e * 3.0000004); [apply Rmult_le_compat_l; lra | lra].
  - split.
    + apply Rle_trans with (e * 3.0000004); [lra|].
      apply Ropp_le_cancel. rewrite !Ropp_mult_distr_l.
      apply Rmult_le_compat_l; lra.
    + apply Rle_trans with 0; [|lra].
      apply Ropp_le_cancel. rewrite Ropp_0, Ropp_mult_distr_l.
      apply Rmult_le_pos; lra.
Qed.

(** The cube of a value lowered by a small amount. *)
Lemma cube_lowered : forall u e h, 0 <= e <= u -> u <= h ->
  Rcube u - 3 * h * h * e <= Rcube (u - e).
Proof.
  intros u e h He Hu. unfold Rcube.
  replace ((u - e) * (u - e) * (u - e))
    with (u * u * u - 3 * u * u * e + e * e * (3 * u - e)) by ring.
  assert (0 <= e * e * (3 * u - e)) by (apply Rmult_le_pos; nra).
  assert (u * u <= h * h) by nra.
  assert (u * u * e <= h * h * e) by (apply Rmult_le_compat_r; lra).
  lra.
Qed.

(** The exact cube root undoes the cube. *)
Lemma cube_of_third : forall x, 0 <= x -> Rcube (rpow (Rmax x 0) (1 / 3)) = x.
Proof.
  intros x Hx. rewrite Rmax_left by assumption. unfold Rcube.
  rewrite rpow_cube by assumption.
  replace (1 / 3 * 3) with 1 by field. now apply rpow_one.
Qed.

(** * The cone response *)

Section ConeBounds.

Lemma Rcone_nonpos : forall x, x <= 0 -> Rcone x = 0.
Proof.
  intros x Hx. unfold Rcone. rewrite Rmax_right by assumption. apply rpow_0.
Qed.

Lemma Rcone_pos : forall x, 0 < x -> Rcone x = Rpower x 0.3333333.
Proof.
  intros x Hx. unfold Rcone. rewrite Rmax_left by lra. now apply rpow_pos.
Qed.

Lemma Rcone_nonneg : forall x, 0 <= Rcone x.
Proof. intros; apply rpow_nonneg. Qed.

Lemma Rcone_mono : forall x y, x <= y -> Rcone x <= Rcone y.
Proof.
  intros x y Hxy. unfold Rcone. apply rpow_mono; [lra|].
  split; [apply Rmax_r | apply Rle_max_compat_r; assumption].
Qed.

Lemma Rcone_le_1 : forall x, x <= 1 -> Rcone x <= 1.
Proof.
  intros x Hx. unfold Rcone. apply rpow_le_1; [lra|].
  split; [apply Rmax_r | apply Rmax_lub; lra].
Qed.

(** A lower bound for the cone response from a cube. *)
Lemma Rcone_lo : forall lo x, 0 < lo <= 1 -> lo * lo * lo <= x -> lo <= Rcone x.
Proof.
  intros lo x Hlo Hx.
  assert (0 < lo * lo * lo) by (assert (0 < lo * lo) by nra; nra).
  rewrite Rcone_pos by lra.
  apply Rle_trans with (Rpower (lo * lo * lo) 0.3333333).
  - rewrite <- Rpower_nat3, Rpower_mult by lra.
    rewrite <- (Rpower_1 lo) at 1 by lra.
    apply Rpower_anti_exp; lra.
  - apply Rpower_mono_base; lra.
Qed.

(** An upper bound: the exponent is just below a third, which costs the
    factor on the right. *)
Lemma Rcone_hi : forall hi x, 0 < hi <= 1 ->
  x <= hi * hi * hi * (1 - (1 / hi - 1) / 3333333) -> Rcone x <= hi.
Proof.
  intros hi x Hhi Hx.
  destruct (Rle_dec x 0) as [H0|H0]; [rewrite Rcone_nonpos by assumption; lra|].
  rewrite Rcone_pos by lra.
  assert (Hpw : hi * hi * hi * (1 - (1 / hi - 1) / 3333333) <= Rpower hi (3 + 1 / 3333333)).
  { rewrite Rpower_plus, Rpower_nat3 by lra.
    assert (0 < hi * hi * hi) by (assert (0 < hi * hi) by nra; nra).
    apply Rmult_le_compat_l; [lra|].
    unfold Rpower.
    pose proof (exp_ineq1_le (1 / 3333333 * ln hi)) as E.
    assert (L : - ln hi <= 1 / hi - 1).
    { rewrite <- ln_Rinv by lra. replace (1 / hi) with (/ hi) by (field; lra).
      apply ln_le_sub1. apply Rinv_0_lt_compat; lra. }
    lra. }
  apply Rle_trans with (Rpower (Rpower hi (3 + 1 / 3333333)) 0.3333333).
  - apply Rpower_mono_base; lra.
  - rewrite Rpower_mult. replace ((3 + 1 / 3333333) * 0.3333333) with 1 by lra.
    rewrite Rpower_1 by lra. lra.
Qed.

Lemma Rcone_8 : Rcone 8 <= 2.
Proof.
  rewrite Rcone_pos by lra. rewrite <- Rpower_8_third. apply Rpower_mono_exp; lra.
Qed.

Lemma Rcone_cube : forall x, 0 <= x -> Rcone (Rcube x) = rpow x 0.9999999.
Proof.
  intros x Hx. unfold Rcone, Rcube.
  rewrite Rmax_left by (assert (0 <= x * x) by nra; nra).
  rewrite !rpow_mult_distr by nra. rewrite rpow_cube by assumption. f_equal. lra.
Qed.

Lemma Rcone_scale : forall k x, 0 <= k -> 0 <= x -> Rcone (k * x) = Rcone k * Rcone x.
Proof.
  intros k x Hk Hx. unfold Rcone.
  rewrite !Rmax_left by nra. now apply rpow_mult_distr.
Qed.

(** The cone response lies below its tangent at 1. *)
Lemma Rcone_tangent : forall x, 0 <= x -> Rcone x <= 1 + 0.3333333 * (x - 1).
Proof.
  intros x [Hx| <-].
  - rewrite Rcone_pos by assumption. apply Rpower_bernoulli; lra.
  - rewrite Rcone_nonpos by lra. lra.
Qed.

Lemma Rcone_above_id : forall x, 0 <= x <= 1 -> x <= Rcone x.
Proof.
  intros x [[Hx| <-] Hx1].
  - rewrite Rcone_pos by assumption.
    rewrite <- (Rpower_1 x) at 1 by assumption. apply Rpower_anti_exp; lra.
  - rewrite Rcone_nonpos by lra. lra.
Qed.

End ConeBounds.

Section CubeOfCone.

(** The cube of the cone response of [x] is [x] to the power 0.9999999. *)
Lemma cube_cone : forall x, 0 <= x -> Rcube (Rcone x) = rpow x 0.9999999.
Proof.
  intros x Hx. unfold Rcube, Rcone. rewrite Rmax_left by assumption.
  rewrite rpow_cube by assumption. f_equal. lra.
Qed.

Lemma cube_cone_lo : forall x l, 0 < x -> x * exp l <= 1 ->
  x * (1 + l / 10000000) <= Rcube (Rcone x).
Proof.
  intros x l Hx Hl. rewrite cube_cone, rpow_pos, Rpower_almost_one by lra.
  apply Rmult_le_compat_l; [lra|].
  assert (l <= - ln x).
  { rewrite <- (ln_exp l), <- ln_Rinv by assumption.
    pose proof (exp_pos l) as E.
    assert (exp l <= / x).
    { apply Rmult_le_reg_l with x; [assumption|]. rewrite Rinv_r by lra. lra. }
    destruct H as [H| ->]; [left; apply ln_increasing; assumption | right; reflexivity]. }
  pose proof (exp_ineq1_le (1 / 10000000 * - ln x)). lra.
Qed.

Lemma cube_cone_hi : forall x u, 0 < x -> 1 <= x * exp u -> u < 10000000 ->
  Rcube (Rcone x) <= x / (1 - u / 10000000).
Proof.
  intros x u Hx Hu Hu'. rewrite cube_cone, rpow_pos, Rpower_almost_one by lra.
  unfold Rdiv at 2. apply Rmult_le_compat_l; [lra|].
  assert (- ln x <= u).
  { rewrite <- (ln_exp u), <- ln_Rinv by assumption.
    pose proof (exp_pos u) as E.
    assert (/ x <= exp u).
    { apply Rmult_le_reg_l with x; [assumption|]. rewrite Rinv_r by lra. lra. }
    assert (0 < / x) by now apply Rinv_0_lt_compat.
    destruct H as [H| ->]; [left; apply ln_increasing; assumption | right; reflexivity]. }
  apply Rle_trans with (exp (u / 10000000)).
  - apply exp_le_mono. lra.
  - pose proof (exp_upper 1 (u / 10000000)) as K. simpl in K.
    replace (/ (1 - u / 10000000)) with (/ ((1 - u / 10000000 / 1) * 1)) by (f_equal; field).
    apply K; [lia | lra].
Qed.

Lemma cone_cube_bounds : forall l, 0 <= l <= 1 ->
  0 <= Rcone l <= 1 /\ l <= Rcube (Rcone l) <= l + (1 - l) / 10000000.
Proof.
  intros l Hl. split.
  - split; [apply Rcone_nonneg | apply Rcone_le_1; lra].
  - rewrite cube_cone by lra. now apply rpow_almost_one.
Qed.

End CubeOfCone.

(** * Polar coordinates *)

Section Polar.

Lemma hyp_scale : forall a b, a <> 0 ->
  sqrt (a * a + b * b) = Rabs a * sqrt (1 + Rsqr (b / a)).
Proof.
  intros a b Ha.
  replace (a * a + b * b) with (Rsqr a * (1 + Rsqr (b / a))) by (unfold Rsqr; field; assumption).
  rewrite sqrt_mult_alt by apply Rle_0_sqr.
  now rewrite sqrt_Rsqr_abs.
Qed.

Lemma hyp_pos : forall x, 0 < sqrt (1 + Rsqr x).
Proof. intros x. apply sqrt_lt_R0. pose proof (Rle_0_sqr x). lra. Qed.

Lemma polar_atan : forall a b, a <> 0 ->
  sqrt (a * a + b * b) * cos (atan (b / a)) = Rabs a /\
  sqrt (a * a + b * b) * sin (atan (b / a)) = Rabs a * (b / a).
Proof.
  intros a b Ha. rewrite hyp_scale by assumption.
  rewrite cos_atan, sin_atan. pose proof (hyp_pos (b / a)).
  split; field; lra.
Qed.

Lemma polar_inverse : forall a b,
  sqrt (a * a + b * b) * cos (Ratan2 b a) = a /\
  sqrt (a * a + b * b) * sin (Ratan2 b a) = b.
Proof.
  intros a b. unfold Ratan2.
  destruct (Rlt_dec 0 a) as [Hp|Hp].
  - destruct (polar_atan a b) as [Hc Hs]; [lra|].
    rewrite Hc, Hs, Rabs_pos_eq by lra. split; [reflexivity | field; lra].
  - destruct (Rlt_dec a 0) as [Hn|Hn].
    + destruct (polar_atan a b) as [Hc Hs]; [lra|].
      rewrite Rabs_left in Hc, Hs by assumption.
      destruct (Rle_dec 0 b).
      * rewrite neg_cos, neg_sin. split.
        -- rewrite <- Ropp_mult_distr_r, Hc. ring.
        -- rewrite <- Ropp_mult_distr_r, Hs. field; lra.
      * rewrite cos_minus, sin_minus, cos_PI, sin_PI. split.
        -- replace (sqrt (a * a + b * b) * (cos (atan (b / a)) * -1 + sin (atan (b / a)) * 0))
             with (- (sqrt (a * a + b * b) * cos (atan (b / a)))) by ring.
           rewrite Hc. ring.
        -- replace (sqrt (a * a + b * b) * (sin (atan (b / a)) * -1 - cos (atan (b / a)) * 0))
             with (- (sqrt (a * a + b * b) * sin (atan (b / a)))) by ring.
           rewrite Hs. field; lra.
    + assert (a = 0) by lra. subst a.
      replace (0 * 0 + b * b) with (Rsqr b) by (unfold Rsqr; ring).
      rewrite sqrt_Rsqr_abs.
      destruct (Rlt_dec 0 b).
      * rewrite cos_PI2, sin_PI2, Rabs_pos_eq by lra. lra.
      * destruct (Rlt_dec b 0).
        -- rewrite cos_neg, sin_neg, cos_PI2, sin_PI2, Rabs_left by lra. lra.
        -- assert (b = 0) by lra. subst b. rewrite Rabs_R0. lra.
Qed.

Lemma atan_neg_arg : forall x, x <= 0 -> atan x <= 0.
Proof.
  intros x [Hx| ->]; [|rewrite atan_0; lra].
  left. rewrite <- atan_0. now apply atan_increasing.
Qed.

Lemma atan_pos_arg : forall x, 0 < x -> 0 < atan x.
Proof. intros x Hx. rewrite <- atan_0. now apply atan_increasing. Qed.

Lemma Ratan2_range : forall b a, - PI < Ratan2 b a <= PI.
Proof.
  intros b a. unfold Ratan2. pose proof PI_RGT_0 as HPI.
  destruct (Rlt_dec 0 a) as [Hp|Hp].
  - pose proof (atan_bound (b / a)). lra.
  - destruct (Rlt_dec a 0) as [Hn|Hn].
    + pose proof (atan_bound (b / a)) as Hb.
      destruct (Rle_dec 0 b) as [Hb0|Hb0].
      * assert (b / a <= 0).
        { unfold Rdiv. assert (/ a < 0) by now apply Rinv_lt_0_compat. nra. }
        pose proof (atan_neg_arg _ H). lra.
      * assert (0 < b / a).
        { unfold Rdiv. assert (/ a < 0) by now apply Rinv_lt_0_compat. nra. }
        pose proof (atan_pos_arg _ H). lra.
    + destruct (Rlt_dec 0 b); [lra|]. destruct (Rlt_dec b 0); lra.
Qed.

Lemma Ratan2_neg : forall b a, b < 0 -> Ratan2 b a < 0.
Proof.
  intros b a Hb. unfold Ratan2. pose proof PI_RGT_0 as HPI.
  destruct (Rlt_dec 0 a) as [Hp|Hp].
  - assert (b / a < 0).
    { unfold Rdiv. assert (0 < / a) by now apply Rinv_0_lt_compat. nra. }
    rewrite <- atan_0. now apply atan_increasing.
  - destruct (Rlt_dec a 0) as [Hn|Hn].
    + destruct (Rle_dec 0 b); [lra|]. pose proof (atan_bound (b / a)). lra.
    + destruct (Rlt_dec 0 b); [lra|]. destruct (Rlt_dec b 0); lra.
Qed.

Lemma Ratan2_origin : Ratan2 0 0 = 0.
Proof.
  unfold Ratan2. destruct (Rlt_dec 0 0); [lra|]. reflexivity.
Qed.

End Polar.

(** * The remainder and the hue wrap *)

Section Remainder.

Lemma Int_part_floor : forall r (k : Z), IZR k <= r < IZR k + 1 -> Int_part r = k.
Proof. intros r k H. symmetry. apply Int_part_spec. lra. Qed.

Lemma Int_part_small : forall r, 0 <= r < 1 -> Int_part r = 0%Z.
Proof. intros r Hr. symmetry. apply Int_part_spec. lra. Qed.

Lemma is_int_small : forall r, 0 < r < 1 -> is_int r = false.
Proof.
  intros r Hr. unfold is_int. rewrite Int_part_small by lra.
  destruct (Req_dec_T 0 r); [lra | reflexivity].
Qed.

(** The remainder of a division by a positive number, as [%] computes it. *)
Lemma rem_range : forall r s, 0 < s ->
  let n := r - s * Rtrunc (r / s) in
  (0 <= r -> 0 <= n < s) /\ (r < 0 -> - s < n <= 0).
Proof.
  intros r s Hs n. unfold n, Rtrunc.
  assert (Q : r = s * (r / s)) by (field; lra).
  destruct (Rle_dec 0 (r / s)) as [H|H].
  - destruct (base_Int_part (r / s)) as [F1 F2]. split; intros Hr.
    + split; nra.
    + assert (r / s < 0).
      { unfold Rdiv. assert (0 < / s) by now apply Rinv_0_lt_compat. nra. }
      lra.
  - destruct (base_Int_part (- (r / s))) as [F1 F2]. split; intros Hr.
    + assert (0 <= r / s).
      { unfold Rdiv. assert (0 < / s) by now apply Rinv_0_lt_compat. nra. }
      lra.
    + split; nra.
Qed.

Lemma two_pi_fin : (Math.PI * Fin 2)%js = Fin (PI * 2).
Proof. reflexivity. Qed.

Lemma rem_two_pi_fin : forall v,
  (Fin v mod (Math.PI * Fin 2))%js = Fin (v - PI * 2 * Rtrunc (v / (PI * 2))).
Proof.
  intros v. rewrite two_pi_fin. unfold Number.rem.
  destruct (Req_dec_T (PI * 2) 0); [pose proof PI_RGT_0; lra | reflexivity].
Qed.

Lemma wrapHue_fin : forall v, exists h, wrapHue (Fin v) = Fin h /\ 0 <= h < 2 * PI.
Proof.
  intros v. pose proof PI_RGT_0 as HPI. unfold wrapHue.
  rewrite rem_two_pi_fin, two_pi_fin.
  destruct (rem_range v (PI * 2) ltac:(lra)) as [Hp Hn].
  set (n := v - PI * 2 * Rtrunc (v / (PI * 2))) in *.
  cbn [Number.ltb Number.add]. destruct (Rlt_dec n 0) as [H|H].
  - exists (n + PI * 2). split; [reflexivity|].
    destruct (Rle_dec 0 v); [specialize (Hp ltac:(lra)) | specialize (Hn ltac:(lra))]; lra.
  - exists n. split; [reflexivity|].
    destruct (Rle_dec 0 v); [specialize (Hp ltac:(lra)) | specialize (Hn ltac:(lra))]; lra.
Qed.

(** A hue already in [0, 2 PI) is left alone. *)
Lemma wrapHue_id : forall v, 0 <= v < 2 * PI -> wrapHue (Fin v) = Fin v.
Proof.
  intros v Hv. pose proof PI_RGT_0 as HPI. unfold wrapHue.
  rewrite rem_two_pi_fin.
  assert (T : Rtrunc (v / (PI * 2)) = 0).
  { unfold Rtrunc.
    assert (0 <= v / (PI * 2) < 1).
    { split.
      - apply Rmult_le_pos; [lra | left; apply Rinv_0_lt_compat; lra].
      - apply Rmult_lt_reg_r with (PI * 2); [lra|].
        unfold Rdiv. rewrite Rmult_assoc, Rinv_l by lra. lra. }
    destruct (Rle_dec 0 (v / (PI * 2))); [|lra].
    rewrite (Int_part_floor _ 0%Z) by lra. reflexivity. }
  rewrite T. replace (v - PI * 2 * 0) with v by ring.
  cbn [Number.ltb]. destruct (Rlt_dec v 0); [lra | reflexivity].
Qed.

Lemma rem_seven_pi : (Fin (7 * PI) mod (Math.PI * Fin 2))%js = Fin PI.
Proof.
  pose proof PI_RGT_0 as HPI. rewrite rem_two_pi_fin. f_equal.
  replace (7 * PI / (PI * 2)) with (7 / 2) by (field; lra).
  unfold Rtrunc. destruct (Rle_dec 0 (7 / 2)); [|lra].
  rewrite (Int_part_floor _ 3%Z) by lra. lra.
Qed.

Lemma wrapHue_seven_pi : wrapHue (Fin (7 * PI)) = Fin PI.
Proof.
  pose proof PI_RGT_0 as HPI.
  unfold wrapHue. rewrite rem_seven_pi. cbn [Number.ltb].
  destruct (Rlt_dec PI 0); [lra | reflexivity].
Qed.

End Remainder.

(** * The program on finite vectors *)

Lemma pow_fin : forall b e, 0 <= b -> 0 < e -> Math.pow (Fin b) (Fin e) = Fin (rpow b e).
Proof.
  intros b e Hb He. unfold Math.pow, rpow.
  destruct (Req_dec_T e 0) as [E|E]; [lra|].
  destruct (Req_dec_T b 0) as [B|B].
  - destruct (Rlt_dec 0 e); [reflexivity|lra].
  - destruct (Rlt_dec 0 b); [reflexivity|lra].
Qed.

Lemma pow_neg_frac : forall b e, b < 0 -> is_int e = false -> Math.pow (Fin b) (Fin e) = NaN.
Proof.
  intros b e Hb He. unfold Math.pow.
  destruct (Req_dec_T e 0) as [E|E].
  - subst e. unfold is_int in He.
    destruct (Req_dec_T (IZR (Int_part 0)) 0) as [|N]; [discriminate|].
    exfalso. apply N. rewrite <- (Int_part_spec 0 0%Z); lra.
  - destruct (Req_dec_T b 0); [lra|]. destruct (Rlt_dec 0 b); [lra|].
    now rewrite He.
Qed.

Lemma encode_negative : forall r, r < 0 -> Math.pow (Fin r) (Fin 0.4545454) = NaN.
Proof. intros r Hr. apply pow_neg_frac; [assumption | apply is_int_small; lra]. Qed.

Lemma inv_gamma_fin : forall gamma, 0 < gamma -> (Fin 1 / Fin gamma)%js = Fin (1 / gamma).
Proof.
  intros gamma Hg. unfold Number.div. destruct (Req_dec_T gamma 0); [lra | reflexivity].
Qed.

Lemma third_fin : (Fin 1 / Fin 3)%js = Fin (1 / 3).
Proof. apply inv_gamma_fin. lra. Qed.

Lemma mat_fin_CONEtoLMS : forall v, mat3MulVec3 kCONEtoLMS (fin3 v) = fin3 (Rmat kCONEtoLMS v).
Proof. intros [[a b] c]. reflexivity. Qed.

Lemma mat_fin_LMStoOKLAB : forall v, mat3MulVec3 kLMStoOKLAB (fin3 v) = fin3 (Rmat kLMStoOKLAB v).
Proof. intros [[a b] c]. reflexivity. Qed.

Lemma mat_fin_OKLABtoLMS : forall v, mat3MulVec3 kOKLABtoLMS (fin3 v) = fin3 (Rmat kOKLABtoLMS v).
Proof. intros [[a b] c]. reflexivity. Qed.

Lemma mat_fin_LMStoCONE : forall v, mat3MulVec3 kLMStoCONE (fin3 v) = fin3 (Rmat kLMStoCONE v).
Proof. intros [[a b] c]. reflexivity. Qed.

Lemma cone_fin : forall r, Math.pow (Math.max (Fin r) (Fin 0)) (Fin 0.3333333) = Fin (Rcone r).
Proof.
  intros r. unfold Rcone. change (Math.max (Fin r) (Fin 0)) with (Fin (Rmax r 0)).
  apply pow_fin; [apply Rmax_r | lra].
Qed.

Lemma coneResponse_fin : forall v, coneResponse (fin3 v) = fin3 (map3 Rcone v).
Proof.
  intros [[a b] c]. unfold coneResponse, fin3, vfin, map3. cbn [Vec3.x Vec3.y Vec3.z].
  now rewrite !cone_fin.
Qed.

Lemma cube_fin : forall v,
  Vec3.multiply (Vec3.multiply (fin3 v) (fin3 v)) (fin3 v) = fin3 (map3 Rcube v).
Proof. intros [[a b] c]. reflexivity. Qed.

Lemma in01_nonneg3 : forall v, in01 v -> nonneg3 v.
Proof. intros [[a b] c] H. cbn in *. lra. Qed.

Lemma rgb2oklab_fin : forall gamma v, 0 < gamma -> nonneg3 v ->
  rgb2oklab (fin3 v) (Fin gamma) = fin3 (Rrgb2oklab gamma v).
Proof.
  intros gamma [[a b] c] Hg (Ha & Hb & Hc).
  unfold rgb2oklab, Rrgb2oklab, Rlms. cbn [fin3 vfin Vec3.x Vec3.y Vec3.z].
  rewrite !pow_fin by assumption.
  change (Vec3.new (Fin (rpow a gamma)) (Fin (rpow b gamma)) (Fin (rpow c gamma)))
    with (fin3 (map3 (fun c => rpow c gamma) (a, b, c))).
  now rewrite mat_fin_CONEtoLMS, coneResponse_fin, mat_fin_LMStoOKLAB.
Qed.

Lemma oklab2rgb_fin : forall gamma v, 0 < gamma ->
  oklab2rgb (fin3 v) (Fin gamma) = fin3 (Roklab2rgb gamma v).
Proof.
  intros gamma v Hg. unfold oklab2rgb, Roklab2rgb, Rlinear.
  rewrite inv_gamma_fin, mat_fin_OKLABtoLMS, cube_fin, mat_fin_LMStoCONE by assumption.
  destruct (Rmat kLMStoCONE _) as [[a b] c].
  cbn [fin3 vfin map3 Vec3.x Vec3.y Vec3.z].
  fold (clamp01 (Fin a)). fold (clamp01 (Fin b)). fold (clamp01 (Fin c)).
  assert (0 < 1 / gamma) by (apply Rdiv_lt_0_compat; lra).
  rewrite !clamp01_fin, !pow_fin; try assumption; try apply Rclamp01_range.
  reflexivity.
Qed.

Lemma sum_sqr_nonneg : forall a b, ~ a * a + b * b < 0.
Proof. intros a b. nra. Qed.

Lemma oklab2oklch_fin : forall L a b,
  oklab2oklch (vfin L a b) = vfin L (sqrt (a * a + b * b)) (Ratan2 b a).
Proof.
  intros. unfold oklab2oklch, vfin, Math.sqrt; cbn.
  destruct (Rlt_dec (a * a + b * b) 0) as [H|H]; [now apply sum_sqr_nonneg in H | reflexivity].
Qed.

Lemma oklch2oklab_fin : forall L C H,
  oklch2oklab (vfin L C H) = vfin L (C * cos H) (C * sin H).
Proof. reflexivity. Qed.

Lemma oklab2oklch_fin3 : forall v, oklab2oklch (fin3 v) = fin3 (Roklab2oklch v).
Proof. intros [[L a] b]. apply oklab2oklch_fin. Qed.

Lemma oklch2oklab_fin3 : forall v, oklch2oklab (fin3 v) = fin3 (Roklch2oklab v).
Proof. intros [[L C] H]. reflexivity. Qed.

Lemma rgb2oklch_fin : forall v, nonneg3 v -> rgb2oklch (fin3 v) = fin3 (Rrgb2oklch v).
Proof.
  intros v Hv. unfold rgb2oklch, default_gamma, Rrgb2oklch.
  rewrite rgb2oklab_fin by (assumption || lra). apply oklab2oklch_fin3.
Qed.

Lemma oklch2rgb_fin : forall v, oklch2rgb (fin3 v) = fin3 (Roklch2rgb v).
Proof.
  intros v. unfold oklch2rgb, default_gamma, Roklch2rgb.
  rewrite oklch2oklab_fin3. apply oklab2rgb_fin. lra.
Qed.

Lemma Roklab2rgb_in01 : forall gamma lab, 0 < gamma -> in01 (Roklab2rgb gamma lab).
Proof.
  intros gamma lab Hg. unfold Roklab2rgb.
  destruct (Rlinear lab) as [[a b] c]. unfold map3, in01.
  assert (0 <= 1 / gamma) by (left; apply Rdiv_lt_0_compat; lra).
  repeat split; try apply rpow_nonneg; apply rpow_le_1; try assumption; apply Rclamp01_range.
Qed.

Lemma Roklch2rgb_in01 : forall v, in01 (Roklch2rgb v).
Proof. intros v. unfold Roklch2rgb. apply Roklab2rgb_in01. lra. Qed.

(** Decoding what [oklab2rgb] encoded gives back the clamped linear values. *)
Lemma decode_encode : forall c, rpow (rpow (Rclamp01 c) (1 / 2.2)) 2.2 = Rclamp01 c.
Proof.
  intros c. pose proof (Rclamp01_range c). rewrite rpow_rpow by lra.
  replace (1 / 2.2 * 2.2) with 1 by lra. apply rpow_one; lra.
Qed.

Lemma Rlms_of_oklab2rgb : forall lab,
  Rlms 2.2 (Roklab2rgb 2.2 lab) = Rmat kCONEtoLMS (map3 Rclamp01 (Rlinear lab)).
Proof.
  intros lab. unfold Rlms, Roklab2rgb. destruct (Rlinear lab) as [[a b] c].
  unfold map3. now rewrite !decode_encode.
Qed.

Lemma setHue_unfold : forall rgb hue,
  setHue rgb hue =
  oklch2rgb (Vec3.new (Vec3.x (rgb2oklch rgb)) (Vec3.y (rgb2oklch rgb)) (wrapHue hue)).
Proof. reflexivity. Qed.

Lemma shiftHue_unfold : forall rgb factor,
  shiftHue rgb factor =
  oklch2rgb (Vec3.new (Vec3.x (rgb2oklch rgb)) (Vec3.y (rgb2oklch rgb))
                      (wrapHue (Vec3.z (rgb2oklch rgb) + factor)%js)).
Proof. reflexivity. Qed.

Lemma setHue_fin : forall v H h, nonneg3 v -> wrapHue (Fin H) = Fin h ->
  setHue (fin3 v) (Fin H) =
  fin3 (Roklch2rgb (fst (fst (Rrgb2oklch v)), snd (fst (Rrgb2oklch v)), h)).
Proof.
  intros v H h Hv Hh. rewrite setHue_unfold, Hh, rgb2oklch_fin by assumption.
  destruct (Rrgb2oklch v) as [[L C] H0]. cbn [fin3 vfin Vec3.x Vec3.y fst snd].
  apply (oklch2rgb_fin (L, C, h)).
Qed.

Lemma scaleChroma_zero_fin : forall rgb, nonneg3 rgb ->
  scaleChroma (fin3 rgb) (Fin 0) =
  fin3 (Roklch2rgb (fst (fst (Rrgb2oklch rgb)), snd (fst (Rrgb2oklch rgb)) * 0,
                    snd (Rrgb2oklch rgb))).
Proof.
  intros rgb Hrgb. unfold scaleChroma. rewrite rgb2oklch_fin by assumption.
  destruct (Rrgb2oklch rgb) as [[L C] H]. cbn [fst snd].
  apply (oklch2rgb_fin (L, C * 0, H)).
Qed.

Lemma mix_unfold : forall rgb1 rgb2 t,
  mix rgb1 rgb2 t =
  Vec3.new (Math.pow (Vec3.x (mix_linear rgb1 rgb2 t)) (Fin 0.4545454))
           (Math.pow (Vec3.y (mix_linear rgb1 rgb2 t)) (Fin 0.4545454))
           (Math.pow (Vec3.z (mix_linear rgb1 rgb2 t)) (Fin 0.4545454)).
Proof. reflexivity. Qed.

Lemma Vec3_mix_fin : forall v w t,
  Vec3.mix (fin3 v) (fin3 w) (Fin t) = fin3 (zip3 (Rlerp t) v w).
Proof. intros [[a b] c] [[a' b'] c'] t. reflexivity. Qed.

Lemma lms_fin : forall v, nonneg3 v ->
  mat3MulVec3 kCONEtoLMS
    (Vec3.new (Math.pow (Vec3.x (fin3 v)) (Fin 2.2)) (Math.pow (Vec3.y (fin3 v)) (Fin 2.2))
              (Math.pow (Vec3.z (fin3 v)) (Fin 2.2))) = fin3 (Rlms 2.2 v).
Proof.
  intros [[a b] c] (Ha & Hb & Hc). cbn [fin3 vfin Vec3.x Vec3.y Vec3.z].
  rewrite !pow_fin by lra.
  change (Vec3.new (Fin (rpow a 2.2)) (Fin (rpow b 2.2)) (Fin (rpow c 2.2)))
    with (fin3 (map3 (fun c => rpow c 2.2) (a, b, c))).
  now rewrite mat_fin_CONEtoLMS.
Qed.

Lemma mix_linear_fin : forall v w t, nonneg3 v -> nonneg3 w ->
  mix_linear (fin3 v) (fin3 w) (Fin t) = fin3 (Rmix_linear v w t).
Proof.
  intros v w t Hv Hw. unfold mix_linear, Rmix_linear.
  rewrite !lms_fin, !coneResponse_fin, Vec3_mix_fin, cube_fin, mat_fin_LMStoCONE by assumption.
  reflexivity.
Qed.

Lemma mix_pipeline_fin : forall root ig v w t, 0 < root -> nonneg3 v -> nonneg3 w ->
  mix_pipeline (Fin root) ig (fin3 v) (fin3 w) (Fin t) =
  Vec3.new (Math.pow (Vec3.x (fin3 (Rpipeline_linear root v w t))) ig)
           (Math.pow (Vec3.y (fin3 (Rpipeline_linear root v w t))) ig)
           (Math.pow (Vec3.z (fin3 (Rpipeline_linear root v w t))) ig).
Proof.
  intros root ig v w t Hr Hv Hw. unfold mix_pipeline, Rpipeline_linear.
  rewrite !lms_fin by assumption.
  destruct (Rlms 2.2 v) as [[a b] c]. destruct (Rlms 2.2 w) as [[a' b'] c'].
  cbn [fin3 vfin Vec3.x Vec3.y Vec3.z Math.max].
  rewrite !pow_fin by (try apply Rmax_r; lra).
  reflexivity.
Qed.

(** * The LMS vectors of some colours *)

Lemma lms_blue : Rlms 2.2 (0, 0, 1) = (0.0514459929, 0.1073969566, 0.6299787005).
Proof.
  unfold Rlms, map3. rewrite rpow_0, rpow_1_l. matrix_constants.
  f_equal; [f_equal|]; lra.
Qed.

Lemma lms_green : Rlms 2.2 (0, 1, 0) = (0.5363325363, 0.6806995451, 0.2817188376).
Proof.
  unfold Rlms, map3. rewrite rpow_0, rpow_1_l. matrix_constants.
  f_equal; [f_equal|]; lra.
Qed.

Lemma lms_cyan : Rlms 2.2 (0, 1, 1) = (0.5877785292, 0.7880965017, 0.9116975381).
Proof.
  unfold Rlms, map3. rewrite rpow_0, rpow_1_l. matrix_constants.
  f_equal; [f_equal|]; lra.
Qed.

Lemma blue_b_negative : forall L a b, Rrgb2oklab 2.2 (0, 0, 1) = (L, a, b) -> b < 0.
Proof.
  intros L a b. unfold Rrgb2oklab. rewrite lms_blue. unfold map3.
  assert (U1 : Rcone 0.0514459929 <= 0.5) by (apply Rcone_hi; lra).
  assert (U2 : Rcone 0.1073969566 <= 0.5) by (apply Rcone_hi; lra).
  assert (U3 : 0.8 <= Rcone 0.6299787005) by (apply Rcone_lo; lra).
  pose proof (Rcone_nonneg 0.0514459929). pose proof (Rcone_nonneg 0.1073969566).
  matrix_constants. intros E. injection E as _ _ <-. lra.
Qed.

Lemma blue_oklab_bounds : forall L a b, Rrgb2oklab 2.2 (0, 0, 1) = (L, a, b) ->
  0.451 <= L <= 0.453 /\ -0.037 <= a <= -0.030 /\ -0.313 <= b <= -0.310.
Proof.
  intros L a b. unfold Rrgb2oklab. rewrite lms_blue. unfold map3.
  assert (U1 : 0.371 <= Rcone 0.0514459929 <= 0.372)
    by (split; [apply Rcone_lo | apply Rcone_hi]; lra).
  assert (U2 : 0.475 <= Rcone 0.1073969566 <= 0.476)
    by (split; [apply Rcone_lo | apply Rcone_hi]; lra).
  assert (U3 : 0.857 <= Rcone 0.6299787005 <= 0.858)
    by (split; [apply Rcone_lo | apply Rcone_hi]; lra).
  matrix_constants. intros E. injection E as <- <- <-. lra.
Qed.

(** The LMS vector of a normalized colour. *)
Lemma Rlms_in01 : forall rgb, in01 rgb ->
  exists r g b, map3 (fun c => rpow c 2.2) rgb = (r, g, b) /\ in01 (r, g, b) /\
    Rlms 2.2 rgb = Rmat kCONEtoLMS (r, g, b) /\ in01 (Rlms 2.2 rgb).
Proof.
  intros [[r g] b] (Hr & Hg & Hb). unfold Rlms, map3.
  pose proof (rpow_in01 r 2.2 ltac:(lra) Hr). pose proof (rpow_in01 g 2.2 ltac:(lra) Hg).
  pose proof (rpow_in01 b 2.2 ltac:(lra) Hb).
  exists (rpow r 2.2), (rpow g 2.2), (rpow b 2.2).
  split; [reflexivity|]. split; [cbn; tauto|]. split; [reflexivity|].
  matrix_constants. cbn. lra.
Qed.

(** The lightness of a normalized colour lies in [0,1]. *)
Lemma lightness_in01 : forall rgb L a b, in01 rgb ->
  Rrgb2oklab 2.2 rgb = (L, a, b) -> 0 <= L <= 1.
Proof.
  intros rgb L a b Hrgb. unfold Rrgb2oklab.
  destruct (Rlms_in01 rgb Hrgb) as (r & g & bl & _ & (Hr & Hg & Hb) & -> & Hin).
  revert Hin. matrix_constants.
  set (l1 := 0.4122214708 * r + 0.5363325363 * g + 0.0514459929 * bl).
  set (l2 := 0.2119034982 * r + 0.6806995451 * g + 0.1073969566 * bl).
  set (l3 := 0.0883024619 * r + 0.2817188376 * g + 0.6299787005 * bl).
  intros (H1 & H2 & H3). unfold map3.
  pose proof (Rcone_tangent l1 ltac:(lra)) as T1.
  pose proof (Rcone_tangent l2 ltac:(lra)) as T2.
  pose proof (Rcone_above_id l3 H3) as T3.
  pose proof (Rcone_nonneg l1) as N1. pose proof (Rcone_nonneg l2) as N2.
  assert (S3 : Rcone l3 <= 2 * Rcone l2).
  { apply Rle_trans with (Rcone (8 * l2)).
    - apply Rcone_mono. unfold l2, l3. lra.
    - rewrite Rcone_scale by lra. pose proof Rcone_8. nra. }
  intros E. injection E as <- _ _. unfold l1, l2, l3 in *. lra.
Qed.

(** * The round trip through Oklab *)

(** The two matrices between the cone response and the cube are inverse to
    each other up to a few hundred-millionths. *)
Lemma lab_and_back : forall u1 u2 u3 s1 s2 s3,
  0 <= u1 <= 1 -> 0 <= u2 <= 1 -> 0 <= u3 <= 1 ->
  Rmat kOKLABtoLMS (Rmat kLMStoOKLAB (u1, u2, u3)) = (s1, s2, s3) ->
  -0.000000035 <= s1 - u1 <= 0.0000000366 /\
  -0.0000000119 <= s2 - u2 <= 0.00000000294 /\
  -0.0000000652 <= s3 - u3 <= 0.0000000105.
Proof.
  intros u1 u2 u3 s1 s2 s3 H1 H2 H3. matrix_constants.
  intros E. injection E as <- <- <-. lra.
Qed.

Lemma roundtrip_linear : forall r g b l1 l2 l3 u1 u2 u3 x y z,
  in01 (r, g, b) ->
  Rmat kCONEtoLMS (r, g, b) = (l1, l2, l3) ->
  0 <= u1 <= 1 -> 0 <= u2 <= 1 -> 0 <= u3 <= 1 ->
  l1 <= Rcube u1 <= l1 + (1 - l1) / 10000000 ->
  l2 <= Rcube u2 <= l2 + (1 - l2) / 10000000 ->
  l3 <= Rcube u3 <= l3 + (1 - l3) / 10000000 ->
  Rlinear (Rmat kLMStoOKLAB (u1, u2, u3)) = (x, y, z) ->
  close3 0.00000101 (x, y, z) (r, g, b).
Proof.
  intros r g b l1 l2 l3 u1 u2 u3 x y z (Hr & Hg & Hb) El U1 U2 U3 Q1 Q2 Q3.
  unfold Rlinear.
  destruct (Rmat kOKLABtoLMS (Rmat kLMStoOKLAB (u1, u2, u3))) as [[s1 s2] s3] eqn:Es.
  destruct (lab_and_back _ _ _ _ _ _ U1 U2 U3 Es) as (S1 & S2 & S3).
  pose proof (cube_perturb u1 (s1 - u1) _ _ U1 S1 ltac:(lra) ltac:(lra)) as C1.
  pose proof (cube_perturb u2 (s2 - u2) _ _ U2 S2 ltac:(lra) ltac:(lra)) as C2.
  pose proof (cube_perturb u3 (s3 - u3) _ _ U3 S3 ltac:(lra) ltac:(lra)) as C3.
  replace (u1 + (s1 - u1)) with s1 in C1 by ring.
  replace (u2 + (s2 - u2)) with s2 in C2 by ring.
  replace (u3 + (s3 - u3)) with s3 in C3 by ring.
  unfold map3. clear Es S1 S2 S3.
  revert El. matrix_constants. intros El. injection El as <- <- <-.
  intros E. injection E as <- <- <-.
  set (c1 := Rcube s1) in *. set (c2 := Rcube s2) in *. set (c3 := Rcube s3) in *.
  set (q1 := Rcube u1) in *. set (q2 := Rcube u2) in *. set (q3 := Rcube u3) in *.
  unfold close3. repeat split; apply Rabs_le; lra.
Qed.

Lemma encode_small : forall d, 0 <= d <= 0.00000115 -> rpow d (1 / 2.2) <= 0.002.
Proof.
  intros d Hd.
  assert (E : rpow (rpow 0.002 2.2) (1 / 2.2) = 0.002) by (apply rpow_inv; lra).
  apply Rle_trans with (rpow (rpow 0.002 2.2) (1 / 2.2)); [|rewrite E; lra].
  apply rpow_mono; [lra|]. split; [lra|].
  rewrite rpow_pos by lra. replace 2.2 with (2 + 0.2) by lra.
  rewrite Rpower_plus. replace 2 with (INR 2) at 1 by (simpl; lra).
  rewrite Rpower_pow by lra.
  pose proof (fifth_root_lo 0.288 0.002 ltac:(lra) ltac:(lra)). lra.
Qed.

(** Encoding a clamped value close to [c] gives a value close to the
    encoding of [c]. *)
Lemma encode_close : forall x c, 0 <= c <= 1 -> Rabs (x - c) <= 0.00000101 ->
  Rabs (rpow (Rclamp01 x) (1 / 2.2) - rpow c (1 / 2.2)) <= 0.002.
Proof.
  intros x c Hc Hx.
  apply Rle_trans with (rpow 0.00000101 (1 / 2.2)).
  - apply rpow_holder; try lra.
    + apply Rclamp01_range.
    + now apply Rclamp01_close.
  - apply encode_small. lra.
Qed.

Lemma Rround_trip : forall rgb, in01 rgb ->
  close3 0.002 (Roklab2rgb 2.2 (Rrgb2oklab 2.2 rgb)) rgb.
Proof.
  intros rgb Hrgb.
  destruct (Rlms_in01 rgb Hrgb) as (r & g & b & Elin & Hlin & El & Hl).
  unfold Roklab2rgb, Rrgb2oklab. rewrite El in Hl |- *.
  destruct (Rmat kCONEtoLMS (r, g, b)) as [[l1 l2] l3] eqn:E.
  destruct Hl as (L1 & L2 & L3). unfold map3 at 2.
  destruct (cone_cube_bounds l1 L1) as (U1 & Q1).
  destruct (cone_cube_bounds l2 L2) as (U2 & Q2).
  destruct (cone_cube_bounds l3 L3) as (U3 & Q3).
  destruct (Rlinear (Rmat kLMStoOKLAB (Rcone l1, Rcone l2, Rcone l3)))
    as [[x y] z] eqn:Ex.
  pose proof (roundtrip_linear _ _ _ _ _ _ _ _ _ _ _ _ Hlin E U1 U2 U3 Q1 Q2 Q3 Ex)
    as (Cx & Cy & Cz).
  destruct rgb as [[r0 g0] b0]. destruct Hrgb as (R0 & G0 & B0).
  unfold map3 in Elin |- *. injection Elin as Er Eg Eb.
  destruct Hlin as (Hr & Hg & Hb).
  assert (Ir : r0 = rpow r (1 / 2.2)) by (rewrite <- Er; symmetry; apply rpow_inv; lra).
  assert (Ig : g0 = rpow g (1 / 2.2)) by (rewrite <- Eg; symmetry; apply rpow_inv; lra).
  assert (Ib : b0 = rpow b (1 / 2.2)) by (rewrite <- Eb; symmetry; apply rpow_inv; lra).
  unfold close3. rewrite Ir, Ig, Ib.
  repeat split; apply encode_close; assumption.
Qed.

(** The red channel of the linear RGB vector that the round trip of pure
    green reaches. *)
Lemma green_round_trip_red : forall x y z,
  Rlinear (Rrgb2oklab 2.2 (0, 1, 0)) = (x, y, z) -> 0.00000002 <= x.
Proof.
  intros x y z. unfold Rrgb2oklab. rewrite lms_green. unfold map3, Rlinear.
  set (l1 := 0.5363325363). set (l2 := 0.6806995451). set (l3 := 0.2817188376).
  assert (U1 : 0.81 <= Rcone l1 <= 0.82)
    by (unfold l1; split; [apply Rcone_lo | apply Rcone_hi]; lra).
  assert (U2 : 0.87 <= Rcone l2 <= 0.88)
    by (unfold l2; split; [apply Rcone_lo | apply Rcone_hi]; lra).
  assert (U3 : 0.65 <= Rcone l3 <= 0.66)
    by (unfold l3; split; [apply Rcone_lo | apply Rcone_hi]; lra).
  assert (Q1 : l1 * (1 + 0.6 / 10000000) <= Rcube (Rcone l1)).
  { apply cube_cone_lo; unfold l1; try lra. pose proof exp_0_6. lra. }
  assert (Q2 : Rcube (Rcone l2) <= l2 / (1 - 0.4 / 10000000)).
  { apply cube_cone_hi; unfold l2; try lra. pose proof exp_0_4. lra. }
  assert (Q3 : l3 <= Rcube (Rcone l3)).
  { destruct (cone_cube_bounds l3) as (_ & H & _); [unfold l3; lra | exact H]. }
  set (u1 := Rcone l1) in *. set (u2 := Rcone l2) in *. set (u3 := Rcone l3) in *.
  destruct (Rmat kOKLABtoLMS (Rmat kLMStoOKLAB (u1, u2, u3))) as [[s1 s2] s3] eqn:Es.
  assert (S : u1 <= s1 /\ 0 <= s2 <= u2 /\ u3 - 0.000000051 <= s3).
  { revert Es. matrix_constants. intros E. injection E as <- <- <-. lra. }
  destruct S as (S1 & S2 & S3). unfold map3.
  assert (C1 : Rcube u1 <= Rcube s1) by (apply Rcube_mono; lra).
  assert (C2 : Rcube s2 <= Rcube u2) by (apply Rcube_mono; lra).
  assert (C3 : Rcube u3 - 3 * 0.66 * 0.66 * 0.000000051 <= Rcube s3).
  { apply Rle_trans with (Rcube (u3 - 0.000000051)).
    - apply cube_lowered; lra.
    - apply Rcube_mono; lra. }
  matrix_constants. intros E. injection E as <- _ _.
  unfold l1, l2, l3 in *. lra.
Qed.

Lemma encode_above : forall c, 0.00000002 <= c <= 1 -> 0.0001 < rpow c (1 / 2.2).
Proof.
  intros c Hc.
  assert (E : rpow (rpow 0.0001 2.2) (1 / 2.2) = 0.0001) by (apply rpow_inv; lra).
  rewrite <- E at 1.
  assert (B : rpow 0.0001 2.2 <= 0.0000000016).
  { rewrite rpow_pos by lra. replace 2.2 with (2 + 0.2) by lra.
    rewrite Rpower_plus. replace 2 with (INR 2) at 1 by (simpl; lra).
    rewrite Rpower_pow by lra.
    pose proof (fifth_root_hi 0.16 0.0001 ltac:(lra) ltac:(lra) ltac:(lra)).
    pose proof (Rpower_pos 0.0001 0.2). nra. }
  pose proof (rpow_gt0 0.0001 2.2 ltac:(lra)) as P.
  rewrite (rpow_pos (rpow 0.0001 2.2)), (rpow_pos c) by lra.
  apply Rlt_Rpower_l; lra.
Qed.

(** * Mixing *)

Lemma Rlerp_same : forall t a, Rlerp t a a = a.
Proof. intros; unfold Rlerp; ring. Qed.

Lemma mix_blue_green_red_negative :
  fst (fst (Rmix_linear (0, 0, 1) (0, 1, 0) 0.5)) < 0.
Proof.
  unfold Rmix_linear. rewrite lms_blue, lms_green. unfold map3, zip3.
  assert (B1 : Rcone 0.0514459929 <= 0.372) by (apply Rcone_hi; lra).
  assert (G1 : Rcone 0.5363325363 <= 0.813) by (apply Rcone_hi; lra).
  assert (B2 : 0.475 <= Rcone 0.1073969566) by (apply Rcone_lo; lra).
  assert (G2 : 0.879 <= Rcone 0.6806995451) by (apply Rcone_lo; lra).
  assert (B3 : Rcone 0.6299787005 <= 0.858) by (apply Rcone_hi; lra).
  assert (G3 : Rcone 0.2817188376 <= 0.656) by (apply Rcone_hi; lra).
  pose proof (Rcone_nonneg 0.0514459929). pose proof (Rcone_nonneg 0.5363325363).
  pose proof (Rcone_nonneg 0.6299787005). pose proof (Rcone_nonneg 0.2817188376).
  set (m1 := Rlerp 0.5 (Rcone 0.0514459929) (Rcone 0.5363325363)).
  set (m2 := Rlerp 0.5 (Rcone 0.1073969566) (Rcone 0.6806995451)).
  set (m3 := Rlerp 0.5 (Rcone 0.6299787005) (Rcone 0.2817188376)).
  assert (M1 : 0 <= m1 <= 0.5925) by (unfold m1, Rlerp; lra).
  assert (M2 : 0.677 <= m2) by (unfold m2, Rlerp; lra).
  assert (M3 : 0 <= m3 <= 0.757) by (unfold m3, Rlerp; lra).
  pose proof (Rcube_mono m1 0.5925 M1) as C1.
  assert (C2 : Rcube 0.677 <= Rcube m2) by (apply Rcube_mono; lra).
  pose proof (Rcube_mono m3 0.757 M3) as C3.
  unfold Rcube in C1 at 2. unfold Rcube in C2 at 1. unfold Rcube in C3 at 2.
  matrix_constants. cbn [fst]. lra.
Qed.

Lemma mix_blue_blue_red_negative : forall t,
  fst (fst (Rmix_linear (0, 0, 1) (0, 0, 1) t)) < 0.
Proof.
  intros t. unfold Rmix_linear. rewrite lms_blue. unfold map3, zip3.
  rewrite !Rlerp_same.
  assert (H1 : Rcube (Rcone 0.0514459929) <= 0.0514459929 / (1 - 3.1 / 10000000)).
  { apply cube_cone_hi; try lra. pose proof exp_3_1. lra. }
  assert (H2 : 0.1073969566 * (1 + 2.15 / 10000000) <= Rcube (Rcone 0.1073969566)).
  { apply cube_cone_lo; try lra. pose proof exp_2_15. lra. }
  assert (H3 : Rcube (Rcone 0.6299787005) <= 0.6299787005 / (1 - 0.5 / 10000000)).
  { apply cube_cone_hi; try lra. pose proof exp_0_5. lra. }
  matrix_constants. cbn [fst]. lra.
Qed.

Lemma mix_blue_cyan_blue_above_one :
  exists c : R,
    Vec3.z (mix (fin3 (0, 0, 1)) (fin3 (0, 1, 1)) (Fin 0.5)) = Fin c /\ 1 < c.
Proof.
  rewrite mix_unfold, mix_linear_fin by (cbn; lra). unfold Rmix_linear.
  rewrite lms_blue, lms_cyan. unfold map3, zip3.
  assert (B3 : 0.857 <= Rcone 0.6299787005) by (apply Rcone_lo; lra).
  assert (C3 : 0.969 <= Rcone 0.9116975381) by (apply Rcone_lo; lra).
  assert (B2 : Rcone 0.1073969566 <= 0.476) by (apply Rcone_hi; lra).
  assert (C2 : Rcone 0.7880965017 <= 0.924) by (apply Rcone_hi; lra).
  assert (B1 : Rcone 0.0514459929 <= 1) by (apply Rcone_le_1; lra).
  assert (C1 : Rcone 0.5877785292 <= 1) by (apply Rcone_le_1; lra).
  pose proof (Rcone_nonneg 0.0514459929). pose proof (Rcone_nonneg 0.5877785292).
  pose proof (Rcone_nonneg 0.1073969566). pose proof (Rcone_nonneg 0.7880965017).
  set (m1 := Rlerp 0.5 (Rcone 0.0514459929) (Rcone 0.5877785292)).
  set (m2 := Rlerp 0.5 (Rcone 0.1073969566) (Rcone 0.7880965017)).
  set (m3 := Rlerp 0.5 (Rcone 0.6299787005) (Rcone 0.9116975381)).
  assert (M1 : 0 <= m1 <= 1) by (unfold m1, Rlerp; lra).
  assert (M2 : 0 <= m2 <= 0.7) by (unfold m2, Rlerp; lra).
  assert (M3 : 0.913 <= m3) by (unfold m3, Rlerp; lra).
  pose proof (Rcube_mono m1 1 M1) as K1.
  pose proof (Rcube_mono m2 0.7 M2) as K2.
  assert (K3 : Rcube 0.913 <= Rcube m3) by (apply Rcube_mono; lra).
  unfold Rcube in K1 at 2. unfold Rcube in K2 at 2. unfold Rcube in K3 at 1.
  matrix_constants. cbn [fin3 vfin Vec3.z].
  eexists. split.
  - apply pow_fin; lra.
  - apply rpow_gt_1; lra.
Qed.

Lemma lerp_forms_agree : forall a b t, not_inf a -> not_inf b ->
  (a + (b - a) * Fin t = a * (Fin 1 - Fin t) + b * Fin t)%js.
Proof.
  intros [| | |a] [| | |b] t Ha Hb; try contradiction; try reflexivity.
  cbn. f_equal. ring.
Qed.

Lemma decode_shape : forall r,
  Math.pow (Fin r) (Fin 2.2) = NaN \/ exists s, Math.pow (Fin r) (Fin 2.2) = Fin s.
Proof.
  intros r. destruct (Rle_dec 0 r) as [H|H].
  - right. eexists. apply pow_fin; lra.
  - left. apply pow_neg_frac; [lra|].
    unfold is_int. assert (Int_part 2.2 = 2%Z) by (symmetry; apply Int_part_spec; lra).
    rewrite H0. destruct (Req_dec_T 2 2.2); [lra | reflexivity].
Qed.

Lemma cone_not_inf : forall n, not_inf n ->
  not_inf (Math.pow (Math.max n (Fin 0)) (Fin 0.3333333)).
Proof.
  intros [| | |r] H; try contradiction.
  - cbn [Math.max]. unfold Math.pow. destruct (Req_dec_T 0.3333333 0); [lra | exact I].
  - rewrite cone_fin. exact I.
Qed.

Lemma cone_lms_not_inf : forall a b c,
  let v := coneResponse (mat3MulVec3 kCONEtoLMS
             (Vec3.new (Math.pow (Fin a) (Fin 2.2)) (Math.pow (Fin b) (Fin 2.2))
                       (Math.pow (Fin c) (Fin 2.2)))) in
  not_inf (Vec3.x v) /\ not_inf (Vec3.y v) /\ not_inf (Vec3.z v).
Proof.
  intros a b c.
  destruct (decode_shape a) as [-> | [a' ->]]; destruct (decode_shape b) as [-> | [b' ->]];
    destruct (decode_shape c) as [-> | [c' ->]];
    cbv zeta; unfold coneResponse; cbn [Vec3.x Vec3.y Vec3.z];
    repeat split; apply cone_not_inf; exact I.
Qed.

(** * Hue and chroma *)

(** The colour [setHue] gives for blue and the hue 3 PI / 2, read back in
    Oklab: its [b] is negative. *)
Lemma sethue_blue_reads_back_negative : forall L C H lab,
  Rrgb2oklch (0, 0, 1) = (L, C, H) ->
  Rrgb2oklab 2.2 (Roklch2rgb (L, C, 3 * (PI / 2))) = lab ->
  snd lab < 0.
Proof.
  intros L C H lab. unfold Rrgb2oklch.
  destruct (Rrgb2oklab 2.2 (0, 0, 1)) as [[L0 a] b] eqn:E.
  destruct (blue_oklab_bounds _ _ _ E) as (HL & Ha & Hb).
  unfold Roklab2oklch. intros Q. injection Q as <- <- _.
  assert (HC : 0.31 <= sqrt (a * a + b * b) <= 0.316) by (apply sqrt_bounds; nra).
  set (C := sqrt (a * a + b * b)) in *.
  unfold Rrgb2oklab, Roklch2rgb. rewrite Rlms_of_oklab2rgb.
  unfold Roklch2oklab. rewrite cos_3PI2, sin_3PI2. unfold Rlinear.
  intros <-.
  set (l := Rmat kOKLABtoLMS (L0, C * 0, C * -1)).
  assert (Hl : exists l1 l2 l3, l = (l1, l2, l3) /\ 0.38 <= l1 <= 0.39 /\
                 0.47 <= l2 <= 0.474 /\ 0.85 <= l3 <= 0.862).
  { unfold l. matrix_constants. do 3 eexists. split; [reflexivity|]. lra. }
  destruct Hl as (l1 & l2 & l3 & -> & H1 & H2 & H3). unfold map3 at 3.
  pose proof (Rcube_bounds 0.38 l1 0.39 ltac:(lra) H1) as K1.
  pose proof (Rcube_bounds 0.47 l2 0.474 ltac:(lra) H2) as K2.
  pose proof (Rcube_bounds 0.85 l3 0.862 ltac:(lra) H3) as K3.
  set (lin := Rmat kLMStoCONE (Rcube l1, Rcube l2, Rcube l3)).
  assert (Hlin : exists x y z, lin = (x, y, z) /\ x <= 0.05 /\ y <= 0 /\ 0.95 <= z).
  { unfold lin. matrix_constants. do 3 eexists. split; [reflexivity|]. lra. }
  destruct Hlin as (x & y & z & -> & Hx & Hy & Hz). unfold map3 at 2.
  pose proof (Rclamp01_range x). pose proof (Rclamp01_range y). pose proof (Rclamp01_range z).
  pose proof (Rclamp01_le x 0.05 Hx ltac:(lra)).
  pose proof (Rclamp01_le y 0 Hy ltac:(lra)).
  pose proof (Rclamp01_ge z 0.95 Hz ltac:(lra)).
  set (m := Rmat kCONEtoLMS (Rclamp01 x, Rclamp01 y, Rclamp01 z)).
  assert (Hm : exists m1 m2 m3, m = (m1, m2, m3) /\ m1 <= 0.1 /\ m2 <= 0.12 /\ 0.59 <= m3).
  { unfold m. matrix_constants. do 3 eexists. split; [reflexivity|]. lra. }
  destruct Hm as (m1 & m2 & m3 & -> & M1 & M2 & M3). unfold map3.
  assert (U1 : Rcone m1 <= 0.5) by (apply Rcone_hi; lra).
  assert (U2 : Rcone m2 <= 0.5) by (apply Rcone_hi; lra).
  assert (U3 : 0.8 <= Rcone m3) by (apply Rcone_lo; lra).
  pose proof (Rcone_nonneg m1). pose proof (Rcone_nonneg m2).
  matrix_constants. cbn [snd]. lra.
Qed.

Lemma zero_chroma_is_gray : forall L C H,
  Roklch2rgb (L, C * 0, H) = (Rgray L, Rgray L, Rgray L).
Proof.
  intros L C H. unfold Roklch2rgb, Roklab2rgb, Rlinear, Roklch2oklab, Rgray.
  assert (E : Rmat kOKLABtoLMS (L, C * 0 * cos H, C * 0 * sin H) = (L, L, L)).
  { matrix_constants. f_equal; [f_equal|]; ring_simplify; lra. }
  rewrite E. unfold map3 at 2.
  assert (E' : Rmat kLMStoCONE (Rcube L, Rcube L, Rcube L) = (Rcube L, Rcube L, Rcube L)).
  { matrix_constants. f_equal; [f_equal|]; lra. }
  rewrite E'. reflexivity.
Qed.

(** The lightness of the gray made from a lightness in [0,1]. *)
Lemma gray_lightness : forall L L' a b, 0 <= L <= 1 ->
  Rrgb2oklab 2.2 (Rgray L, Rgray L, Rgray L) = (L', a, b) ->
  Rabs (L' - L) <= 1 / 10000000.
Proof.
  intros L L' a b HL. unfold Rrgb2oklab, Rlms, map3, Rgray.
  rewrite decode_encode.
  assert (HC : 0 <= Rcube L <= 1).
  { pose proof (Rcube_bounds 0 L 1 ltac:(lra) HL). lra. }
  rewrite Rclamp01_id by assumption.
  set (q := Rcube L) in *.
  assert (E : Rmat kCONEtoLMS (q, q, q) = (q, 0.9999999999 * q, q)).
  { matrix_constants. f_equal; [f_equal|]; lra. }
  rewrite E. rewrite (Rcone_scale 0.9999999999 q) by lra.
  unfold q. rewrite Rcone_cube by lra.
  pose proof (rpow_almost_one L HL) as W. set (w := rpow L 0.9999999) in *.
  assert (K : 0.9999999999 <= Rcone 0.9999999999 <= 1).
  { split; [apply Rcone_above_id | apply Rcone_le_1]; lra. }
  set (k := Rcone 0.9999999999) in *.
  matrix_constants. intros Q. injection Q as <- _ _.
  apply Rabs_le. nra.
Qed.

(** * Further lemmas *)

(** ** Propagation of [NaN] *)

Section NaNPropagation.

Lemma mul_nan_r : forall a, (a * NaN)%js = NaN.
Proof. destruct a; reflexivity. Qed.

Lemma mul_nan_l : forall a, (NaN * a)%js = NaN.
Proof. reflexivity. Qed.

Lemma add_nan_r : forall a, (a + NaN)%js = NaN.
Proof. destruct a; reflexivity. Qed.

Lemma add_nan_l : forall a, (NaN + a)%js = NaN.
Proof. reflexivity. Qed.

Lemma is_int_2_2 : is_int 2.2 = false.
Proof.
  unfold is_int. rewrite (Int_part_floor 2.2 2) by lra.
  destruct (Req_dec_T (IZR 2) 2.2); [lra | reflexivity].
Qed.

Lemma decode_invalid : forall n, invalid n -> Math.pow n (Fin 2.2) = NaN.
Proof.
  intros n [-> | [r [-> Hr]]].
  - unfold Math.pow. destruct (Req_dec_T 2.2 0); [lra | reflexivity].
  - apply pow_neg_frac; [exact Hr | exact is_int_2_2].
Qed.

Lemma mat_nan : forall m a b c, a = NaN \/ b = NaN \/ c = NaN ->
  mat3MulVec3 m (Vec3.new a b c) = vnan.
Proof.
  intros m a b c H. unfold mat3MulVec3, vnan. cbn [Vec3.x Vec3.y Vec3.z].
  destruct H as [-> | [-> | ->]];
    rewrite ?mul_nan_r, ?add_nan_r, ?add_nan_l; reflexivity.
Qed.

Lemma mat_vnan : forall m, mat3MulVec3 m vnan = vnan.
Proof. intros m. apply mat_nan. auto. Qed.

Lemma cube_vnan : Vec3.multiply (Vec3.multiply vnan vnan) vnan = vnan.
Proof. reflexivity. Qed.

Lemma cone_nan : coneResponse vnan = vnan.
Proof.
  unfold coneResponse, vnan. cbn [Vec3.x Vec3.y Vec3.z Math.max].
  unfold Math.pow. destruct (Req_dec_T 0.3333333 0); [lra | reflexivity].
Qed.

Lemma decode_vec_invalid : forall rgb : Vec3.t,
  invalid (Vec3.x rgb) \/ invalid (Vec3.y rgb) \/ invalid (Vec3.z rgb) ->
  coneResponse (mat3MulVec3 kCONEtoLMS
    (Vec3.new (Math.pow (Vec3.x rgb) (Fin 2.2)) (Math.pow (Vec3.y rgb) (Fin 2.2))
              (Math.pow (Vec3.z rgb) (Fin 2.2)))) = vnan.
Proof.
  intros rgb H. rewrite mat_nan; [apply cone_nan |].
  destruct H as [H | [H | H]]; rewrite (decode_invalid _ H); auto.
Qed.

Lemma rgb2oklab_invalid : forall rgb : Vec3.t,
  invalid (Vec3.x rgb) \/ invalid (Vec3.y rgb) \/ invalid (Vec3.z rgb) ->
  rgb2oklab rgb default_gamma = vnan.
Proof.
  intros rgb H. unfold rgb2oklab, default_gamma. cbv zeta.
  rewrite (decode_vec_invalid rgb H). apply mat_nan. auto.
Qed.

Lemma oklab2oklch_nan : oklab2oklch vnan = vnan.
Proof. reflexivity. Qed.

Lemma rgb2oklch_invalid : forall rgb : Vec3.t,
  invalid (Vec3.x rgb) \/ invalid (Vec3.y rgb) \/ invalid (Vec3.z rgb) ->
  rgb2oklch rgb = vnan.
Proof.
  intros rgb H. unfold rgb2oklch. rewrite (rgb2oklab_invalid rgb H). reflexivity.
Qed.

Lemma encode_nan : forall g, g <> 0 -> Math.pow NaN (Fin 1 / Fin g)%js = NaN.
Proof.
  intros g Hg. unfold Number.div. destruct (Req_dec_T g 0); [contradiction |].
  unfold Math.pow. destruct (Req_dec_T (1 / g) 0) as [E | _]; [| reflexivity].
  exfalso. apply (Rmult_eq_compat_r g) in E. field_simplify in E; [lra | exact Hg].
Qed.

Lemma oklab2rgb_nan : forall (lab : Vec3.t) (g : R), g <> 0 ->
  Vec3.x lab = NaN \/ Vec3.y lab = NaN \/ Vec3.z lab = NaN ->
  oklab2rgb lab (Fin g) = vnan.
Proof.
  intros [a b c] g Hg H. cbn [Vec3.x Vec3.y Vec3.z] in H.
  unfold oklab2rgb. cbv zeta. rewrite (mat_nan _ _ _ _ H).
  fold vnan. rewrite cube_vnan, mat_vnan.
  unfold vnan. cbn [Vec3.x Vec3.y Vec3.z Math.min Math.max].
  rewrite (encode_nan g Hg). reflexivity.
Qed.

Lemma oklch2rgb_nan : forall L C H : num,
  C = NaN \/ H = NaN -> oklch2rgb (Vec3.new L C H) = vnan.
Proof.
  intros L C H E. unfold oklch2rgb, oklch2oklab, default_gamma. cbv zeta.
  cbn [Vec3.x Vec3.y Vec3.z]. apply oklab2rgb_nan; [lra |].
  cbn [Vec3.x Vec3.y Vec3.z]. right; left.
  destruct E as [-> | ->]; [reflexivity | apply mul_nan_r].
Qed.

End NaNPropagation.

(** ** Whole turns of the hue *)

Section Turns.

Lemma Rtrunc_int : forall r, exists k : Z, Rtrunc r = IZR k.
Proof.
  intros r. unfold Rtrunc. destruct (Rle_dec 0 r).
  - now exists (Int_part r).
  - exists (- Int_part (- r))%Z. now rewrite opp_IZR.
Qed.

(** The wrapped hue differs from the value by a whole number of turns. *)
Lemma wrapHue_turns : forall v, exists k : Z,
  wrapHue (Fin v) = Fin (v + IZR k * (2 * PI)) /\ 0 <= v + IZR k * (2 * PI) < 2 * PI.
Proof.
  intros v. pose proof PI_RGT_0 as HPI. unfold wrapHue.
  rewrite rem_two_pi_fin, two_pi_fin.
  destruct (rem_range v (PI * 2) ltac:(lra)) as [Hp Hn].
  destruct (Rtrunc_int (v / (PI * 2))) as [k Hk]. rewrite Hk in *.
  cbn [Number.ltb Number.add]. destruct (Rlt_dec (v - PI * 2 * IZR k) 0) as [H|H].
  - exists (- k + 1)%Z. rewrite plus_IZR, opp_IZR. split; [f_equal; ring|].
    destruct (Rle_dec 0 v); [specialize (Hp ltac:(lra)) | specialize (Hn ltac:(lra))]; lra.
  - exists (- k)%Z. rewrite opp_IZR. split; [f_equal; ring|].
    destruct (Rle_dec 0 v); [specialize (Hp ltac:(lra)) | specialize (Hn ltac:(lra))]; lra.
Qed.

Lemma turns_unique : forall a b (k : Z),
  0 <= a < 2 * PI -> 0 <= b < 2 * PI -> b = a + IZR k * (2 * PI) -> b = a.
Proof.
  intros a b k Ha Hb E. pose proof PI_RGT_0 as HPI.
  assert (K : (-1 < k < 1)%Z).
  { split; apply lt_IZR; nra. }
  assert (k = 0%Z) by lia. subst k. lra.
Qed.

Lemma wrapHue_periodic : forall v (n : Z),
  wrapHue (Fin (v + IZR n * (2 * PI))) = wrapHue (Fin v).
Proof.
  intros v n.
  destruct (wrapHue_turns v) as [k [E R]].
  destruct (wrapHue_turns (v + IZR n * (2 * PI))) as [k' [E' R']].
  rewrite E, E'. f_equal.
  apply (turns_unique _ _ (n + k' - k)%Z); try assumption.
  rewrite minus_IZR, plus_IZR. ring.
Qed.

Lemma cos_sin_nat_turns : forall x (n : nat),
  cos (x + INR n * (2 * PI)) = cos x /\ sin (x + INR n * (2 * PI)) = sin x.
Proof.
  intros x n. split.
  - rewrite <- (cos_period x n). f_equal. ring.
  - rewrite <- (sin_period x n). f_equal. ring.
Qed.

Lemma cos_sin_turns : forall x (k : Z),
  cos (x + IZR k * (2 * PI)) = cos x /\ sin (x + IZR k * (2 * PI)) = sin x.
Proof.
  intros x k. destruct (Z_le_gt_dec 0 k) as [H|H].
  - rewrite <- (Z2Nat.id k H), <- INR_IZR_INZ. apply cos_sin_nat_turns.
  - destruct (cos_sin_nat_turns (x + IZR k * (2 * PI)) (Z.to_nat (- k))) as [C S].
    rewrite INR_IZR_INZ, Z2Nat.id, opp_IZR in C, S by lia.
    replace (x + IZR k * (2 * PI) + - IZR k * (2 * PI)) with x in C, S by ring.
    now split.
Qed.

(** In exact arithmetic the wrap does not change the colour. *)
Lemma Roklch2rgb_wrap : forall L C H h, wrapHue (Fin H) = Fin h ->
  Roklch2rgb (L, C, h) = Roklch2rgb (L, C, H).
Proof.
  intros L C H h E. destruct (wrapHue_turns H) as [k [E' _]].
  rewrite E in E'. injection E' as ->.
  unfold Roklch2rgb, Roklch2oklab.
  destruct (cos_sin_turns H k) as [-> ->]. reflexivity.
Qed.

End Turns.

Lemma wrapHue_Fin : forall v, exists h, wrapHue (Fin v) = Fin h.
Proof. intros v. destruct (wrapHue_fin v) as [h [E _]]. now exists h. Qed.

Lemma oklch2rgb_vfin : forall L C H, oklch2rgb (vfin L C H) = fin3 (Roklch2rgb (L, C, H)).
Proof. intros. apply (oklch2rgb_fin (L, C, H)). Qed.

Lemma rgb2oklch_vfin : forall v, nonneg3 v ->
  exists L C H, Rrgb2oklch v = (L, C, H) /\ rgb2oklch (fin3 v) = vfin L C H.
Proof.
  intros v Hv. destruct (Rrgb2oklch v) as [[L C] H] eqn:E.
  exists L, C, H. split; [reflexivity|]. rewrite rgb2oklch_fin, E by assumption. reflexivity.
Qed.

(** ** The polar form of a normalized colour *)

Lemma polar_and_back : forall lab, Roklch2oklab (Roklab2oklch lab) = lab.
Proof.
  intros [[L a] b]. unfold Roklch2oklab, Roklab2oklch.
  destruct (polar_inverse a b) as [-> ->]. reflexivity.
Qed.

Lemma Rrgb2oklch_lightness : forall rgb L C H, in01 rgb ->
  Rrgb2oklch rgb = (L, C, H) -> 0 <= L <= 1 /\ 0 <= C /\ - PI < H <= PI.
Proof.
  intros rgb L C H Hrgb E. unfold Rrgb2oklch in E.
  destruct (Rrgb2oklab 2.2 rgb) as [[L' a] b] eqn:El.
  unfold Roklab2oklch in E. injection E as <- <- <-.
  split; [apply (lightness_in01 rgb L' a b Hrgb El)|].
  split; [apply sqrt_pos | apply Ratan2_range].
Qed.

Lemma Roklch2rgb_of_Rrgb2oklch : forall rgb,
  Roklch2rgb (Rrgb2oklch rgb) = Roklab2rgb 2.2 (Rrgb2oklab 2.2 rgb).
Proof. intros rgb. unfold Roklch2rgb, Rrgb2oklch. now rewrite polar_and_back. Qed.

(** ** From polar coordinates back, and the gray axis *)

Section Angles.

Lemma sin_zero_small : forall x, - PI < x < PI -> sin x = 0 -> x = 0.
Proof.
  intros x Hx E. pose proof PI_RGT_0 as HPI.
  destruct (Rle_dec 0 x) as [H|H].
  - destruct (sin_eq_O_2PI_0 x H ltac:(lra) E) as [? | [? | ?]]; lra.
  - assert (E' : sin (- x) = 0) by (rewrite sin_neg; lra).
    destruct (sin_eq_O_2PI_0 (- x) ltac:(lra) ltac:(lra) E') as [? | [? | ?]]; lra.
Qed.

(** An angle of (-PI, PI] is determined by its cosine and sine. *)
Lemma angle_unique : forall x y, - PI < x <= PI -> - PI < y <= PI ->
  cos x = cos y -> sin x = sin y -> x = y.
Proof.
  intros x y Hx Hy Ec Es.
  assert (D : cos (x - y) = 1).
  { rewrite cos_minus, Ec, Es. pose proof (sin2_cos2 y) as Q. unfold Rsqr in Q. lra. }
  assert (S : sin ((x - y) / 2) = 0).
  { pose proof (cos_2a_sin ((x - y) / 2)) as Q.
    replace (2 * ((x - y) / 2)) with (x - y) in Q by field.
    assert (sin ((x - y) / 2) * sin ((x - y) / 2) = 0) by lra.
    apply Rmult_integral in H. tauto. }
  pose proof (sin_zero_small ((x - y) / 2) ltac:(lra) S). lra.
Qed.

Lemma chroma_of_polar : forall C H,
  sqrt (C * cos H * (C * cos H) + C * sin H * (C * sin H)) = Rabs C.
Proof.
  intros C H. rewrite <- sqrt_Rsqr_abs. f_equal.
  pose proof (sin2_cos2 H) as Q. unfold Rsqr in *. nra.
Qed.

Lemma hue_of_polar : forall C H, 0 < C -> - PI < H <= PI ->
  Ratan2 (C * sin H) (C * cos H) = H.
Proof.
  intros C H HC HH.
  destruct (polar_inverse (C * cos H) (C * sin H)) as [Pc Ps].
  rewrite chroma_of_polar, Rabs_pos_eq in Pc, Ps by lra.
  apply angle_unique; [apply Ratan2_range | exact HH | |].
  - apply Rmult_eq_reg_l with C; lra.
  - apply Rmult_eq_reg_l with C; lra.
Qed.

End Angles.

(** ** Grays *)

Lemma Rlms_gray : forall g, 0 <= g ->
  Rlms 2.2 (g, g, g) = (rpow g 2.2, 0.9999999999 * rpow g 2.2, rpow g 2.2).
Proof.
  intros g Hg. unfold Rlms, map3. set (s := rpow g 2.2).
  matrix_constants. f_equal; [f_equal|]; lra.
Qed.

Lemma cone_kappa : 0.9999999999 <= Rcone 0.9999999999 <= 1.
Proof. split; [apply Rcone_above_id | apply Rcone_le_1]; lra. Qed.

Lemma cone_gray : forall g, 0 <= g ->
  map3 Rcone (Rlms 2.2 (g, g, g)) =
  (Rcone (rpow g 2.2), Rcone 0.9999999999 * Rcone (rpow g 2.2), Rcone (rpow g 2.2)).
Proof.
  intros g Hg. rewrite Rlms_gray by assumption. unfold map3.
  rewrite (Rcone_scale 0.9999999999) by (try apply rpow_nonneg; lra). reflexivity.
Qed.

Lemma Rrgb2oklab_gray : forall g L a b, 0 <= g <= 1 ->
  Rrgb2oklab 2.2 (g, g, g) = (L, a, b) ->
  let c := Rcone (rpow g 2.2) in
  0 <= c <= 1 /\
  0.9999999934 * c <= L <= 0.9999999935 * c /\
  0 <= a <= 2.5 / 10000000000 * c /\
  3.72 / 100000000 * c <= b <= 3.73 / 100000000 * c.
Proof.
  intros g L a b Hg E c. unfold Rrgb2oklab in E. rewrite cone_gray in E by lra.
  fold c in E. pose proof cone_kappa as K. set (k := Rcone 0.9999999999) in *.
  assert (Hc : 0 <= c <= 1).
  { unfold c. split; [apply Rcone_nonneg | apply Rcone_le_1].
    apply rpow_le_1; lra. }
  revert E. matrix_constants. intros E. injection E as <- <- <-.
  split; [exact Hc|]. nra.
Qed.

(** The gray of a lightness. *)
Lemma Rlinear_gray : forall L, Rlinear (L, 0, 0) = (Rcube L, Rcube L, Rcube L).
Proof.
  intros L. unfold Rlinear.
  assert (E : Rmat kOKLABtoLMS (L, 0, 0) = (L, L, L)).
  { matrix_constants. f_equal; [f_equal|]; lra. }
  rewrite E. unfold map3. set (q := Rcube L).
  matrix_constants. f_equal; [f_equal|]; lra.
Qed.

Lemma Rgray_closed : forall L, 0 <= L <= 1 -> Rgray L = rpow L (3 / 2.2).
Proof.
  intros L HL. unfold Rgray.
  assert (HC : 0 <= Rcube L <= 1).
  { pose proof (Rcube_bounds 0 L 1 ltac:(lra) HL). lra. }
  rewrite Rclamp01_id by assumption.
  assert (E : Rcube L = rpow L 3).
  { unfold Rcube. rewrite <- (rpow_one L) at 1 2 3 by lra.
    rewrite rpow_cube by lra. f_equal. lra. }
  rewrite E, rpow_rpow by lra. f_equal. lra.
Qed.

(** ** Mixing grays *)

Section MixOfGrays.

(** A power with an exponent of (0,1] moves a number towards 1. *)
Lemma rpow_towards_one : forall u e d, 0 < e <= 1 -> 0 <= u -> Rabs (u - 1) <= d ->
  Rabs (rpow u e - 1) <= d.
Proof.
  intros u e d He Hu Hd. apply Rabs_le_bounds in Hd. apply Rabs_le.
  destruct (Rle_dec u 1) as [H|H].
  - pose proof (rpow_above_id e He u ltac:(lra)).
    pose proof (rpow_le_1 u e ltac:(lra) ltac:(lra)). lra.
  - assert (1 <= rpow u e).
    { rewrite <- (rpow_1_l e). apply rpow_mono; lra. }
    assert (rpow u e <= u).
    { rewrite rpow_pos by lra. pose proof (Rpower_bernoulli u e ltac:(lra) ltac:(lra)). nra. }
    lra.
Qed.

(** What [mix] returns for a gray mixed with itself, up to the matrices. *)
Lemma gray_level : forall g, 0 <= g <= 1 ->
  g <= rpow (Rcube (Rcone (rpow g 2.2))) 0.4545454 <= g + 2.3 / 10000000.
Proof.
  intros g Hg. rewrite cube_cone by apply rpow_nonneg.
  rewrite (rpow_rpow g) by lra.
  rewrite rpow_rpow by lra.
  set (e := 2.2 * 0.9999999 * 0.4545454).
  assert (He : 0.99999977 < e < 1) by (unfold e; lra).
  split; [apply rpow_above_id; lra|].
  destruct (Rle_lt_dec g 0) as [Hg0|Hg0].
  - replace g with 0 by lra. rewrite rpow_0. lra.
  - rewrite rpow_pos by lra.
    assert (He' : 0 <= e <= 1) by lra.
    pose proof (Rpower_bernoulli g e Hg0 He'). nra.
Qed.

Lemma Rmix_linear_gray : forall g1 g2 t, 0 <= g1 -> 0 <= g2 ->
  let m := Rlerp t (Rcone (rpow g1 2.2)) (Rcone (rpow g2 2.2)) in
  let q := Rcube (Rcone 0.9999999999) in
  Rmix_linear (g1, g1, g1) (g2, g2, g2) t =
  (Rcube m * (1 + 3.3077115913 * (1 - q)),
   Rcube m * (1 - 2.6097574011 * (1 - q)),
   Rcube m * (1 + 0.7034186147 * (1 - q))).
Proof.
  intros g1 g2 t H1 H2 m q. unfold Rmix_linear. rewrite !cone_gray by assumption.
  unfold zip3. fold m.
  replace (Rlerp t (Rcone 0.9999999999 * Rcone (rpow g1 2.2))
                   (Rcone 0.9999999999 * Rcone (rpow g2 2.2)))
    with (Rcone 0.9999999999 * m) by (unfold m, Rlerp; ring).
  unfold map3.
  replace (Rcube (Rcone 0.9999999999 * m)) with (q * Rcube m) by (unfold q, Rcube; ring).
  set (M := Rcube m). matrix_constants. f_equal; [f_equal|]; ring_simplify; lra.
Qed.

Lemma kappa_cube : 0.9999999997 <= Rcube (Rcone 0.9999999999) <= 1.
Proof.
  pose proof cone_kappa as K.
  pose proof (Rcube_bounds 0.9999999999 (Rcone 0.9999999999) 1 ltac:(lra) K). lra.
Qed.

Lemma encode_scaled : forall M u, 0 <= M <= 1 -> Rabs (u - 1) <= 1 / 1000000000 ->
  0 <= M * u /\ Rabs (rpow (M * u) 0.4545454 - rpow M 0.4545454) <= 1 / 1000000000.
Proof.
  intros M u HM Hu.
  pose proof (rpow_towards_one u 0.4545454 _ ltac:(lra)
                ltac:(apply Rabs_le_bounds in Hu; lra) Hu) as W.
  apply Rabs_le_bounds in Hu. apply Rabs_le_bounds in W.
  split; [nra|]. rewrite rpow_mult_distr by lra.
  pose proof (rpow_in01 M 0.4545454 ltac:(lra) HM) as G.
  apply Rabs_le. nra.
Qed.

Lemma lerp_between : forall t a b, 0 <= t <= 1 -> a <= b ->
  a <= Rlerp t a b <= b /\ a <= Rlerp t b a <= b.
Proof. intros t a b Ht Hab. unfold Rlerp. split; nra. Qed.

Lemma gray_cone_in01 : forall g, 0 <= g <= 1 -> 0 <= Rcone (rpow g 2.2) <= 1.
Proof.
  intros g Hg. split; [apply Rcone_nonneg | apply Rcone_le_1].
  apply rpow_le_1; lra.
Qed.

(** The gray between two grays that [mix] aims at. *)
Lemma mixed_gray_level : forall g1 g2 t, 0 <= g1 <= 1 -> 0 <= g2 <= 1 -> 0 <= t <= 1 ->
  let m := Rlerp t (Rcone (rpow g1 2.2)) (Rcone (rpow g2 2.2)) in
  let G := rpow (Rcube m) 0.4545454 in
  0 <= Rcube m <= 1 /\
  Rmin g1 g2 <= G <= Rmax g1 g2 + 2.3 / 10000000 /\
  (t = 0 -> g1 <= G <= g1 + 2.3 / 10000000) /\
  (t = 1 -> g2 <= G <= g2 + 2.3 / 10000000).
Proof.
  intros g1 g2 t H1 H2 Ht m G.
  pose proof (gray_cone_in01 g1 H1) as C1. pose proof (gray_cone_in01 g2 H2) as C2.
  pose proof (gray_level g1 H1) as L1. pose proof (gray_level g2 H2) as L2.
  pose proof (Rmin_l g1 g2). pose proof (Rmin_r g1 g2).
  pose proof (Rmax_l g1 g2). pose proof (Rmax_r g1 g2).
  set (c1 := Rcone (rpow g1 2.2)) in *. set (c2 := Rcone (rpow g2 2.2)) in *.
  assert (E0 : t = 0 -> m = c1) by (intros ->; unfold m, Rlerp; ring).
  assert (E1 : t = 1 -> m = c2) by (intros ->; unfold m, Rlerp; ring).
  assert (B : Rmin c1 c2 <= m <= Rmax c1 c2).
  { unfold Rmin, Rmax. destruct (Rle_dec c1 c2) as [D|D].
    - apply (lerp_between t c1 c2 Ht D).
    - apply (lerp_between t c2 c1 Ht). lra. }
  split.
  { pose proof (Rmin_glb c1 c2 0 ltac:(lra) ltac:(lra)).
    pose proof (Rmax_lub c1 c2 1 ltac:(lra) ltac:(lra)).
    pose proof (Rcube_bounds 0 m 1 ltac:(lra) ltac:(lra)). lra. }
  split.
  { unfold Rmin, Rmax in B. destruct (Rle_dec c1 c2) as [D|D].
    - pose proof (Rcube_mono c1 m ltac:(lra)). pose proof (Rcube_mono m c2 ltac:(lra)).
      assert (Rcube 0 <= Rcube c1) by (apply Rcube_mono; lra).
      assert (Rcube 0 = 0) by (unfold Rcube; ring).
      pose proof (rpow_mono (Rcube c1) (Rcube m) 0.4545454 ltac:(lra) ltac:(lra)).
      pose proof (rpow_mono (Rcube m) (Rcube c2) 0.4545454 ltac:(lra) ltac:(lra)).
      unfold G. lra.
    - pose proof (Rcube_mono c2 m ltac:(lra)). pose proof (Rcube_mono m c1 ltac:(lra)).
      assert (Rcube 0 <= Rcube c2) by (apply Rcube_mono; lra).
      assert (Rcube 0 = 0) by (unfold Rcube; ring).
      pose proof (rpow_mono (Rcube c2) (Rcube m) 0.4545454 ltac:(lra) ltac:(lra)).
      pose proof (rpow_mono (Rcube m) (Rcube c1) 0.4545454 ltac:(lra) ltac:(lra)).
      unfold G. lra. }
  split; intros Et; unfold G; [rewrite (E0 Et) | rewrite (E1 Et)]; assumption.
Qed.

End MixOfGrays.

(** ** The ends of a mix *)

Section MixEndpoints.

Lemma fourth_root_hi : forall c x, 0 < x -> 0 < c -> x <= c * c * c * c ->
  Rpower x 0.25 <= c.
Proof.
  intros c x Hx Hc Hxc.
  assert (P : 0 < c * c * c * c) by (repeat apply Rmult_lt_0_compat; assumption).
  apply Rle_trans with (Rpower (c * c * c * c) 0.25).
  - apply Rpower_mono_base; lra.
  - replace (c * c * c * c) with (c ^ 4) by ring.
    rewrite <- Rpower_pow, Rpower_mult by assumption.
    replace (INR 4 * 0.25) with 1 by (simpl; lra). rewrite Rpower_1; lra.
Qed.

(** The last line of [mix] on a small number. *)
Lemma mix_encode_small : rpow 0.00000077 0.4545454 <= 0.0018.
Proof.
  rewrite rpow_pos by lra.
  apply Rle_trans with (Rpower 0.00000077 0.45); [apply Rpower_anti_exp; lra|].
  replace 0.45 with (0.25 + 0.2) by lra. rewrite Rpower_plus.
  pose proof (fourth_root_hi 0.0297 0.00000077 ltac:(lra) ltac:(lra) ltac:(lra)) as A.
  pose proof (fifth_root_hi 0.06 0.00000077 ltac:(lra) ltac:(lra) ltac:(lra)) as B.
  pose proof (Rpower_pos 0.00000077 0.25). pose proof (Rpower_pos 0.00000077 0.2).
  nra.
Qed.

(** The exponent 0.4545454 in place of 1 / 2.2. *)
Lemma mix_exponent : forall c, 0 <= c <= 1 ->
  c <= rpow (rpow c 2.2) 0.4545454 <= c + 1.3 / 10000000.
Proof.
  intros c Hc. rewrite rpow_rpow by lra.
  set (e := 2.2 * 0.4545454).
  assert (He : 0.99999987 < e < 1) by (unfold e; lra).
  split; [apply rpow_above_id; lra|].
  destruct (Rle_lt_dec c 0) as [Hc0|Hc0].
  - replace c with 0 by lra. rewrite rpow_0. lra.
  - rewrite rpow_pos by lra.
    assert (He' : 0 <= e <= 1) by lra.
    pose proof (Rpower_bernoulli c e Hc0 He'). nra.
Qed.

Lemma mix_encode_close : forall x c, 0 <= x -> 0 <= c <= 1 ->
  Rabs (x - rpow c 2.2) <= 0.00000077 ->
  Rabs (rpow x 0.4545454 - c) <= 0.002.
Proof.
  intros x c Hx Hc Hd.
  pose proof (rpow_holder 0.4545454 ltac:(lra) x (rpow c 2.2) _ Hx
                (rpow_nonneg c 2.2) Hd) as Hh.
  pose proof mix_encode_small as Hs.
  pose proof (mix_exponent c Hc) as He.
  apply Rabs_le_bounds in Hh. apply Rabs_le. lra.
Qed.

(** The linear colour of [mix] when the interpolation returns the cone
    vector of one colour. *)
Lemma mix_linear_of_one : forall r g b x y z, in01 (r, g, b) ->
  Rmat kLMStoCONE (map3 Rcube (map3 Rcone (Rmat kCONEtoLMS (r, g, b)))) = (x, y, z) ->
  close3 0.00000077 (x, y, z) (r, g, b).
Proof.
  intros r g b x y z Hin.
  assert (Hl : in01 (Rmat kCONEtoLMS (r, g, b))).
  { destruct Hin as (Hr & Hg & Hb). matrix_constants. cbn. lra. }
  destruct (Rmat kCONEtoLMS (r, g, b)) as [[l1 l2] l3] eqn:El.
  destruct Hl as (L1 & L2 & L3). destruct Hin as (Hr & Hg & Hb).
  destruct (cone_cube_bounds l1 L1) as (_ & Q1).
  destruct (cone_cube_bounds l2 L2) as (_ & Q2).
  destruct (cone_cube_bounds l3 L3) as (_ & Q3).
  unfold map3. set (q1 := Rcube (Rcone l1)) in *. set (q2 := Rcube (Rcone l2)) in *.
  set (q3 := Rcube (Rcone l3)) in *.
  revert El. matrix_constants. intros El. injection El as <- <- <-.
  intros E. injection E as <- <- <-.
  unfold close3. repeat split; apply Rabs_le; lra.
Qed.

Lemma mix_encode_component : forall x c, 0 <= c <= 1 ->
  Rabs (x - rpow c 2.2) <= 0.00000077 ->
  near_or_nan 0.002 (Math.pow (Fin x) (Fin 0.4545454)) c.
Proof.
  intros x c Hc Hd. destruct (Rlt_le_dec x 0) as [Hx|Hx].
  - left. now apply encode_negative.
  - right. exists (rpow x 0.4545454). split; [apply pow_fin; lra|].
    now apply mix_encode_close.
Qed.

Lemma mix_of_one : forall rgb1 rgb2 rgb t, in01 rgb1 -> in01 rgb2 -> in01 rgb ->
  zip3 (Rlerp t) (map3 Rcone (Rlms 2.2 rgb1)) (map3 Rcone (Rlms 2.2 rgb2)) =
    map3 Rcone (Rlms 2.2 rgb) ->
  near_or_nan3 0.002 (mix (fin3 rgb1) (fin3 rgb2) (Fin t)) rgb.
Proof.
  intros rgb1 rgb2 rgb t H1 H2 H E.
  rewrite mix_unfold, mix_linear_fin by now apply in01_nonneg3.
  unfold Rmix_linear. rewrite E.
  destruct (Rlms_in01 rgb H) as (r & g & b & Elin & Hlin & El & _). rewrite El.
  destruct (Rmat kLMStoCONE (map3 Rcube (map3 Rcone (Rmat kCONEtoLMS (r, g, b)))))
    as [[x y] z] eqn:Ex.
  destruct (mix_linear_of_one r g b x y z Hlin Ex) as (Cx & Cy & Cz).
  destruct rgb as [[r0 g0] b0]. destruct H as (R0 & G0 & B0).
  unfold map3 in Elin. injection Elin as <- <- <-.
  cbn [fin3 vfin Vec3.x Vec3.y Vec3.z near_or_nan3].
  repeat split; now apply mix_encode_component.
Qed.

End MixEndpoints.

(** ** The lightness of blue *)

Section LightnessOfBlue.

Lemma cube_le : forall x y, x <= y -> Rcube x <= Rcube y.
Proof.
  intros x y H. unfold Rcube.
  assert (Q : y * y * y - x * x * x = (y - x) * ((x + y / 2) * (x + y / 2) + 3 / 4 * (y * y)))
    by field.
  pose proof (Rle_0_sqr (x + y / 2)) as S1. pose proof (Rle_0_sqr y) as S2.
  unfold Rsqr in *. nra.
Qed.

Lemma encode_above_03 : forall c, 0.09 <= c <= 1 -> 0.3 <= rpow c (1 / 2.2).
Proof.
  intros c Hc.
  assert (P : rpow 0.3 2.2 <= 0.09).
  { rewrite rpow_pos by lra.
    apply Rle_trans with (Rpower 0.3 2); [apply Rpower_anti_exp; lra|].
    assert (E : Rpower 0.3 2 = 0.3 * 0.3).
    { replace (Rpower 0.3 2) with (Rpower 0.3 (1 + 1)) by (f_equal; lra).
      rewrite Rpower_plus, Rpower_1 by lra. reflexivity. }
    rewrite E. lra. }
  rewrite <- (rpow_inv 0.3 2.2) at 1 by lra.
  apply rpow_mono; [lra|]. split; [apply rpow_nonneg | lra].
Qed.

(** The blue channel of the linear colour that [oklab2rgb] computes for the
    Oklab chroma of pure blue, at any lightness of [0,1]. *)
Lemma blue_linear_blue : forall l a b x y z, 0 <= l <= 1 ->
  -0.037 <= a <= -0.030 -> -0.313 <= b <= -0.310 ->
  Rlinear (l, a, b) = (x, y, z) -> 0.1 <= z.
Proof.
  intros l a b x y z Hl Ha Hb. unfold Rlinear.
  set (v := Rmat kOKLABtoLMS (l, a, b)).
  assert (Hv : exists l1 l2 l3, v = (l1, l2, l3) /\ l1 <= l /\
                 l2 <= l + 0.024 /\ l + 0.4029 <= l3).
  { unfold v. matrix_constants. do 3 eexists. split; [reflexivity|]. lra. }
  destruct Hv as (l1 & l2 & l3 & -> & H1 & H2 & H3). unfold map3.
  pose proof (cube_le _ _ H1) as K1. pose proof (cube_le _ _ H2) as K2.
  pose proof (cube_le _ _ H3) as K3.
  assert (P : 0.1 <= 1.7076147010 * Rcube (l + 0.4029) - 0.7034186147 * Rcube (l + 0.024)
                     - 0.0041960863 * Rcube l).
  { unfold Rcube. assert (0 <= l * l) by nra. assert (0 <= l * l * l) by nra. nra. }
  matrix_constants. intros E. injection E as _ _ <-. lra.
Qed.

End LightnessOfBlue.

(** ** The gamma parameter at zero *)

Lemma pow_zero_exponent : forall n, Math.pow n (Fin 0) = Fin 1.
Proof. intros n. unfold Math.pow. destruct (Req_dec_T 0 0); [reflexivity | lra]. Qed.

Lemma pow_infinite_exponent : forall c, 0 <= c <= 1 ->
  Math.pow (Fin c) PInf = if Req_dec_T c 1 then NaN else Fin 0.
Proof.
  intros c Hc. unfold Math.pow. rewrite Rabs_pos_eq by lra.
  destruct (Rlt_dec 1 c); [lra | reflexivity].
Qed.

(** ** Scaling a colour *)

Section Scaling.

Lemma Ratan2_scale : forall s a b, 0 < s -> Ratan2 (s * b) (s * a) = Ratan2 b a.
Proof.
  intros s a b Hs. unfold Ratan2.
  assert (Q : a <> 0 -> s * b / (s * a) = b / a) by (intros; field; lra).
  destruct (Rlt_dec 0 a), (Rlt_dec 0 (s * a)); try nra.
  - now rewrite Q by lra.
  - destruct (Rlt_dec a 0), (Rlt_dec (s * a) 0); try nra.
    + destruct (Rle_dec 0 b), (Rle_dec 0 (s * b)); try nra; now rewrite Q by lra.
    + destruct (Rlt_dec 0 b), (Rlt_dec 0 (s * b)); try nra; try reflexivity.
      destruct (Rlt_dec b 0), (Rlt_dec (s * b) 0); try nra; reflexivity.
Qed.

Lemma chroma_scale : forall s a b, 0 <= s ->
  sqrt (s * a * (s * a) + s * b * (s * b)) = s * sqrt (a * a + b * b).
Proof.
  intros s a b Hs.
  replace (s * a * (s * a) + s * b * (s * b)) with (s * s * (a * a + b * b)) by ring.
  rewrite sqrt_mult by nra. now rewrite sqrt_square.
Qed.

Lemma Rmat_scale : forall m k x y z,
  Rmat m (k * x, k * y, k * z) = map3 (Rmult k) (Rmat m (x, y, z)).
Proof. intros. unfold Rmat, row, map3. f_equal; [f_equal|]; ring. Qed.

Lemma Rrgb2oklab_scale : forall k r g b, 0 <= k -> nonneg3 (r, g, b) ->
  Rrgb2oklab 2.2 (k * r, k * g, k * b) =
  map3 (Rmult (Rcone (rpow k 2.2))) (Rrgb2oklab 2.2 (r, g, b)).
Proof.
  intros k r g b Hk (Hr & Hg & Hb). unfold Rrgb2oklab, Rlms. unfold map3 at 2 4.
  rewrite !rpow_mult_distr by lra.
  pose proof (rpow_nonneg k 2.2) as Kk. pose proof (rpow_nonneg r 2.2) as Kr.
  pose proof (rpow_nonneg g 2.2) as Kg. pose proof (rpow_nonneg b 2.2) as Kb.
  set (kk := rpow k 2.2) in *. set (x := rpow r 2.2) in *.
  set (y := rpow g 2.2) in *. set (z := rpow b 2.2) in *.
  rewrite Rmat_scale. unfold Rmat at 2. unfold map3 at 3.
  assert (P : 0 <= row kCONEtoLMS 0 (x, y, z) /\ 0 <= row kCONEtoLMS 3 (x, y, z) /\
              0 <= row kCONEtoLMS 6 (x, y, z)).
  { matrix_constants. lra. }
  destruct P as (P1 & P2 & P3). unfold map3 at 1 2.
  rewrite !Rcone_scale by assumption.
  rewrite Rmat_scale. reflexivity.
Qed.

End Scaling.

(** ** Parameters that are not finite *)

Lemma wrapHue_not_finite : forall n, n = NaN \/ n = PInf \/ n = NInf -> wrapHue n = NaN.
Proof. intros n [-> | [-> | ->]]; reflexivity. Qed.

Lemma oklch2rgb_nan_lightness : forall C H : num, oklch2rgb (Vec3.new NaN C H) = vnan.
Proof.
  intros C H. unfold oklch2rgb, oklch2oklab, default_gamma. cbv zeta.
  apply oklab2rgb_nan; [lra | left; reflexivity].
Qed.

(** ** The binary64 range *)

Section Overflow.

Lemma threshold_lo : 1e308 < overflow_threshold.
Proof. unfold overflow_threshold. lra. Qed.

Lemma threshold_hi : overflow_threshold < 1e309.
Proof. unfold overflow_threshold. lra. Qed.

Lemma overflow_fin : forall r, Rabs r <= 1e308 -> overflow (Fin r) = Fin r.
Proof.
  intros r H. apply Rabs_le_bounds in H. pose proof threshold_lo. unfold overflow.
  destruct (Rle_dec overflow_threshold r); [lra|].
  destruct (Rle_dec r (- overflow_threshold)); [lra | reflexivity].
Qed.

Lemma overflow_pos : forall r, 1e309 <= r -> overflow (Fin r) = PInf.
Proof.
  intros r H. pose proof threshold_hi. unfold overflow.
  destruct (Rle_dec overflow_threshold r); [reflexivity | lra].
Qed.

Lemma add64_fin : forall r s, Rabs (r + s) <= 1e308 -> (Fin r + Fin s)%b64 = Fin (r + s).
Proof. intros r s H. unfold Binary64.add. cbn [Number.add]. now apply overflow_fin. Qed.

Lemma mul64_fin : forall r s, Rabs (r * s) <= 1e308 -> (Fin r * Fin s)%b64 = Fin (r * s).
Proof. intros r s H. unfold Binary64.mul. cbn [Number.mul]. now apply overflow_fin. Qed.

Lemma Rabs_mult_le : forall x y k m, Rabs x <= k -> Rabs y <= m -> Rabs (x * y) <= k * m.
Proof.
  intros x y k m Hx Hy. rewrite Rabs_mult.
  apply Rmult_le_compat; try apply Rabs_pos; assumption.
Qed.

Lemma in_range_le : forall x, in_range x -> Rabs x <= 1e100.
Proof. intros x [-> | H]; [rewrite Rabs_R0; lra | lra]. Qed.

End Overflow.

(** ** The polar conversions with overflow *)

Section Polar64.

Lemma oklab2oklch64_fin : forall L a b, Rabs a <= 1e100 -> Rabs b <= 1e100 ->
  OkColor64.oklab2oklch (vfin L a b) = vfin L (sqrt (a * a + b * b)) (Ratan2 b a).
Proof.
  intros L a b Ha Hb. unfold OkColor64.oklab2oklch, vfin. cbv zeta.
  cbn [Vec3.x Vec3.y Vec3.z].
  pose proof (Rabs_mult_le a a _ _ Ha Ha) as Pa.
  pose proof (Rabs_mult_le b b _ _ Hb Hb) as Pb.
  rewrite !mul64_fin by lra.
  rewrite add64_fin.
  - cbn [Math.sqrt Math.atan2].
    destruct (Rlt_dec (a * a + b * b) 0) as [N|N]; [nra | reflexivity].
  - apply Rabs_le_bounds in Pa, Pb. apply Rabs_le. lra.
Qed.

Lemma oklch2oklab64_fin : forall L C H, Rabs C <= 1e100 ->
  OkColor64.oklch2oklab (vfin L C H) = vfin L (C * cos H) (C * sin H).
Proof.
  intros L C H HC. unfold OkColor64.oklch2oklab, vfin. cbv zeta.
  cbn [Vec3.x Vec3.y Vec3.z Math.cos Math.sin].
  assert (Kc : Rabs (cos H) <= 1) by (apply Rabs_le; pose proof (COS_bound H); lra).
  assert (Ks : Rabs (sin H) <= 1) by (apply Rabs_le; pose proof (SIN_bound H); lra).
  pose proof (Rabs_mult_le C (cos H) _ _ HC Kc).
  pose proof (Rabs_mult_le C (sin H) _ _ HC Ks).
  rewrite !mul64_fin by lra. reflexivity.
Qed.

Lemma chroma_le : forall a b, Rabs a <= 1e100 -> Rabs b <= 1e100 ->
  Rabs (sqrt (a * a + b * b)) <= 1e101.
Proof.
  intros a b Ha Hb. rewrite Rabs_pos_eq by apply sqrt_pos.
  apply Rabs_le_bounds in Ha, Hb.
  apply (sqrt_bounds (a * a + b * b) 0 1e101); [lra | lra |]. nra.
Qed.

Lemma oklch2oklab64_wide : forall L C H, Rabs C <= 1e101 ->
  OkColor64.oklch2oklab (vfin L C H) = vfin L (C * cos H) (C * sin H).
Proof.
  intros L C H HC. unfold OkColor64.oklch2oklab, vfin. cbv zeta.
  cbn [Vec3.x Vec3.y Vec3.z Math.cos Math.sin].
  assert (Kc : Rabs (cos H) <= 1) by (apply Rabs_le; pose proof (COS_bound H); lra).
  assert (Ks : Rabs (sin H) <= 1) by (apply Rabs_le; pose proof (SIN_bound H); lra).
  pose proof (Rabs_mult_le C (cos H) _ _ HC Kc).
  pose proof (Rabs_mult_le C (sin H) _ _ HC Ks).
  rewrite !mul64_fin by lra. reflexivity.
Qed.

Lemma polar_component_le : forall C H, Rabs C <= 1e100 ->
  Rabs (C * cos H) <= 1e100 /\ Rabs (C * sin H) <= 1e100.
Proof.
  intros C H HC.
  assert (Kc : Rabs (cos H) <= 1) by (apply Rabs_le; pose proof (COS_bound H); lra).
  assert (Ks : Rabs (sin H) <= 1) by (apply Rabs_le; pose proof (SIN_bound H); lra).
  pose proof (Rabs_mult_le C (cos H) _ _ HC Kc).
  pose proof (Rabs_mult_le C (sin H) _ _ HC Ks). lra.
Qed.

End Polar64.

(** ** [oklab2rgb] with overflow *)

Section Range64.

(** The bound [B] on the components and the bound [T] on the results. *)
Variables B T : R.
Hypothesis B_pos : 0 <= B.
Hypothesis T_fits : T <= 1e308.

Lemma mul64_within : forall r s, Rabs (r * s) <= T -> (Fin r * Fin s)%b64 = Fin (r * s).
Proof. intros r s H. apply mul64_fin. lra. Qed.

Lemma add64_within : forall r s, Rabs (r + s) <= T -> (Fin r + Fin s)%b64 = Fin (r + s).
Proof. intros r s H. apply add64_fin. lra. Qed.

Lemma mat64_OKLABtoLMS : forall v, 3 * B <= T -> bounded3 B v ->
  OkColor64.mat3MulVec3 kOKLABtoLMS (fin3 v) = fin3 (Rmat kOKLABtoLMS v) /\
  bounded3 (3 * B) (Rmat kOKLABtoLMS v).
Proof.
  intros [[a b] c] HT (Ha & Hb & Hc).
  apply Rabs_le_bounds in Ha, Hb, Hc. split.
  - unfold OkColor64.mat3MulVec3, fin3, vfin. cbn [Vec3.x Vec3.y Vec3.z].
    matrix_entries.
    rewrite !mul64_within by (apply Rabs_le; lra).
    rewrite !add64_within by (apply Rabs_le; lra).
    matrix_constants. reflexivity.
  - matrix_constants. unfold bounded3. repeat split; apply Rabs_le; lra.
Qed.

Lemma cube64_fin : forall v, B * B <= T -> B * B * B <= T -> bounded3 B v ->
  OkColor64.multiply (OkColor64.multiply (fin3 v) (fin3 v)) (fin3 v) =
    fin3 (map3 Rcube v) /\
  bounded3 (B * B * B) (map3 Rcube v).
Proof.
  intros v H2 H3.
  assert (K : forall x, Rabs x <= B ->
    Rabs (x * x) <= T /\ Rabs (x * x * x) <= B * B * B).
  { intros x Hx. pose proof (Rabs_mult_le x x _ _ Hx Hx) as P2.
    pose proof (Rabs_mult_le (x * x) x _ _ P2 Hx) as P3. lra. }
  destruct v as [[a b] c]. intros (Ha & Hb & Hc).
  destruct (K a Ha) as [A2 A3]. destruct (K b Hb) as [B2 B3].
  destruct (K c Hc) as [C2 C3]. split.
  - unfold OkColor64.multiply, fin3, vfin, map3, Rcube. cbn [Vec3.x Vec3.y Vec3.z].
    rewrite !(mul64_within a a), !(mul64_within b b), !(mul64_within c c) by assumption.
    rewrite !mul64_within by lra. reflexivity.
  - unfold bounded3, map3, Rcube. auto.
Qed.

Lemma mat64_LMStoCONE : forall v, 8 * B <= T -> bounded3 B v ->
  OkColor64.mat3MulVec3 kLMStoCONE (fin3 v) = fin3 (Rmat kLMStoCONE v).
Proof.
  intros [[a b] c] HT (Ha & Hb & Hc).
  apply Rabs_le_bounds in Ha, Hb, Hc.
  unfold OkColor64.mat3MulVec3, fin3, vfin. cbn [Vec3.x Vec3.y Vec3.z].
  matrix_entries.
  rewrite !mul64_within by (apply Rabs_le; lra).
  rewrite !add64_within by (apply Rabs_le; lra).
  matrix_constants. reflexivity.
Qed.

End Range64.

Section Encode64.

Lemma linear64_fin : forall lab, bounded3 1e100 lab ->
  OkColor64.mat3MulVec3 kLMStoCONE
    (OkColor64.multiply
       (OkColor64.multiply (OkColor64.mat3MulVec3 kOKLABtoLMS (fin3 lab))
                           (OkColor64.mat3MulVec3 kOKLABtoLMS (fin3 lab)))
       (OkColor64.mat3MulVec3 kOKLABtoLMS (fin3 lab))) = fin3 (Rlinear lab).
Proof.
  intros lab Hl.
  assert (P1 : 0 <= 1e100) by lra. assert (P3 : 0 <= 3 * 1e100) by lra.
  assert (T1 : 1e308 <= 1e308) by lra.
  assert (Q1 : 3 * 1e100 <= 1e308) by lra.
  assert (Q2 : 3 * 1e100 * (3 * 1e100) <= 1e308) by lra.
  assert (Q3 : 3 * 1e100 * (3 * 1e100) * (3 * 1e100) <= 1e308) by lra.
  assert (Q4 : 0 <= 3 * 1e100 * (3 * 1e100) * (3 * 1e100)) by lra.
  assert (Q5 : 8 * (3 * 1e100 * (3 * 1e100) * (3 * 1e100)) <= 1e308) by lra.
  destruct (mat64_OKLABtoLMS _ _ P1 T1 lab Q1 Hl) as [-> B1].
  destruct (cube64_fin _ _ T1 _ Q2 Q3 B1) as [-> B2].
  rewrite (mat64_LMStoCONE _ _ Q4 T1 _ Q5 B2). reflexivity.
Qed.

Lemma inv_gamma64_fin : forall gamma, 1e-300 <= gamma ->
  (Fin 1 / Fin gamma)%b64 = Fin (1 / gamma).
Proof.
  intros gamma Hg. unfold Binary64.div. rewrite inv_gamma_fin by lra.
  apply overflow_fin.
  assert (P : 0 < 1 / gamma <= 1e300).
  { split; [apply Rdiv_lt_0_compat; lra|].
    apply Rmult_le_reg_r with gamma; [lra|].
    unfold Rdiv. rewrite Rmult_1_l, Rinv_l by lra. nra. }
  apply Rabs_le. lra.
Qed.

Lemma encode64_fin : forall x e, 0 < e ->
  Binary64.pow (Math.max (Fin 0) (Math.min (Fin 1) (Fin x))) (Fin e) =
  Fin (rpow (Rclamp01 x) e).
Proof.
  intros x e He. fold (clamp01 (Fin x)). rewrite clamp01_fin.
  pose proof (Rclamp01_range x) as Hc.
  unfold Binary64.pow. rewrite pow_fin by lra. apply overflow_fin.
  pose proof (rpow_in01 (Rclamp01 x) e ltac:(lra) Hc). apply Rabs_le. lra.
Qed.

Lemma oklab2rgb64_fin : forall lab gamma, bounded3 1e100 lab -> 1e-300 <= gamma ->
  OkColor64.oklab2rgb (fin3 lab) (Fin gamma) = fin3 (Roklab2rgb gamma lab).
Proof.
  intros lab gamma Hl Hg. unfold OkColor64.oklab2rgb. cbv zeta.
  rewrite (linear64_fin lab Hl), inv_gamma64_fin by assumption.
  unfold Roklab2rgb.
  destruct (Rlinear lab) as [[x y] z]. cbn [fin3 vfin map3 Vec3.x Vec3.y Vec3.z].
  assert (He : 0 < 1 / gamma) by (apply Rdiv_lt_0_compat; lra).
  now rewrite !encode64_fin.
Qed.

End Encode64.

(** ** The wrap and the clamp at some values *)

Lemma wrapHue_minus_quarter : wrapHue (Fin (- (PI / 2))) = Fin (3 * (PI / 2)).
Proof.
  pose proof PI_RGT_0 as HPI.
  destruct (wrapHue_turns (- (PI / 2))) as [k [E R]]. rewrite E. f_equal.
  apply (turns_unique (3 * (PI / 2)) _ (k - 1)%Z); [lra | exact R |].
  rewrite minus_IZR. lra.
Qed.

Lemma PI_above : 3.14 < PI.
Proof.
  pose proof (PI_2_3_7_ineq 1) as [H _].
  unfold sum_f_R0, tg_alt, PI_2_3_7_tg, Ratan_seq in H. simpl in H. lra.
Qed.

Lemma wrapHue_small : forall v, 0 <= v <= 6.28 -> wrapHue (Fin v) = Fin v.
Proof. intros v Hv. pose proof PI_above. apply wrapHue_id. lra. Qed.

Lemma wrapHue_angle : forall v, exists w,
  wrapHue (Fin v) = Fin w /\ 0 <= w < 2 * PI /\ cos w = cos v /\ sin w = sin v.
Proof.
  intros v. destruct (wrapHue_turns v) as [k [E R]].
  exists (v + IZR k * (2 * PI)). split; [exact E|]. split; [exact R|].
  apply cos_sin_turns.
Qed.

Lemma wrapHue_of_turns : forall v (k : Z), 0 <= v + IZR k * (2 * PI) < 2 * PI ->
  wrapHue (Fin v) = Fin (v + IZR k * (2 * PI)).
Proof.
  intros v k R. destruct (wrapHue_turns v) as [k' [E R']]. rewrite E. f_equal.
  symmetry. apply (turns_unique _ _ (k - k')%Z); try assumption.
  rewrite minus_IZR. ring.
Qed.

Lemma clamp01_inside : forall x, 0 <= x <= 1 -> clamp01 (Fin x) = Fin x.
Proof. intros x Hx. rewrite clamp01_fin. f_equal. now apply Rclamp01_id. Qed.

Lemma clamp01_above : forall x, 1 <= x -> clamp01 (Fin x) = Fin 1.
Proof. intros x Hx. rewrite clamp01_fin. f_equal. clamp_cases. Qed.

Lemma clamp01_below : forall x, x <= 0 -> clamp01 (Fin x) = Fin 0.
Proof. intros x Hx. rewrite clamp01_fin. f_equal. clamp_cases. Qed.

Lemma clamp01_infinite : clamp01 PInf = Fin 1 /\ clamp01 NInf = Fin 0 /\ clamp01 NaN = NaN.
Proof.
  unfold clamp01. cbn [Math.min Math.max].
  split; [| split; reflexivity]. f_equal. unfold Rmax.
  destruct (Rle_dec 0 1); lra.
Qed.

Lemma moderate3_nonneg3 : forall v, moderate3 v -> nonneg3 v.
Proof.
  intros [[a b] c] (Ha & Hb & Hc). unfold moderate in *. cbn.
  repeat split; lra.
Qed.

(** * The properties of the specification *)

(** C1, counterexample.  The round trip of pure green, (0, 1, 0), at the
    default gamma comes back with a red component more than 1e-4 away from
    the 0 it started from. *)
Lemma round_trip_of_green_exceeds_tolerance :
  exists r : R,
    Vec3.x (oklab2rgb (rgb2oklab (vfin 0 1 0) default_gamma) default_gamma) = Fin r /\
    0.0001 < Rabs (r - 0).
Proof.
  unfold default_gamma. change (vfin 0 1 0) with (fin3 (0, 1, 0)).
  rewrite rgb2oklab_fin by (cbn; lra). rewrite oklab2rgb_fin by lra.
  unfold Roklab2rgb.
  destruct (Rlinear (Rrgb2oklab 2.2 (0, 1, 0))) as [[x y] z] eqn:E.
  pose proof (green_round_trip_red _ _ _ E) as Hx.
  unfold map3. cbn [fin3 vfin Vec3.x]. eexists. split; [reflexivity|].
  pose proof (Rclamp01_range x) as [_ H1].
  pose proof (Rclamp01_ge x 0.00000002 Hx ltac:(lra)) as H2.
  pose proof (encode_above (Rclamp01 x) (conj H2 H1)) as H.
  rewrite Rminus_0_r, Rabs_pos_eq; lra.
Qed.

(** C1, as amended.  For every rgb vector whose three components lie in
    [0,1], [oklab2rgb (rgb2oklab rgb)], both at the default gamma 2.2, is a
    finite vector that differs from rgb by at most 2e-3 in each component. *)
Theorem round_trip_within_tolerance : forall rgb : R3, in01 rgb ->
  exists out : R3,
    oklab2rgb (rgb2oklab (fin3 rgb) default_gamma) default_gamma = fin3 out /\
    close3 0.002 out rgb.
Proof.
  intros rgb Hrgb. exists (Roklab2rgb 2.2 (Rrgb2oklab 2.2 rgb)). split.
  - unfold default_gamma.
    rewrite rgb2oklab_fin by (try lra; now apply in01_nonneg3).
    apply oklab2rgb_fin. lra.
  - now apply Rround_trip.
Qed.

(** C1: the amended bound at white. *)
Lemma round_trip_within_tolerance_witness :
  in01 (1, 1, 1) /\
  exists out : R3,
    oklab2rgb (rgb2oklab (fin3 (1, 1, 1)) default_gamma) default_gamma = fin3 out /\
    close3 0.002 out (1, 1, 1).
Proof.
  assert (H : in01 (1, 1, 1)) by (cbn; lra).
  split; [exact H | exact (round_trip_within_tolerance (1, 1, 1) H)].
Defined.

(** C2, the program at the failing inputs.  Mixing pure blue, (0, 0, 1),
    with itself gives NaN in the red component for every factor t, and so do
    the two end points: blue mixed with green at t = 0, and green mixed with
    blue at t = 1. *)
Theorem mix_of_blue_is_nan :
  (forall t : R, Vec3.x (mix (fin3 (0, 0, 1)) (fin3 (0, 0, 1)) (Fin t)) = NaN) /\
  Vec3.x (mix (fin3 (0, 0, 1)) (fin3 (0, 1, 0)) (Fin 0)) = NaN /\
  Vec3.x (mix (fin3 (0, 1, 0)) (fin3 (0, 0, 1)) (Fin 1)) = NaN.
Proof.
  assert (B : nonneg3 (0, 0, 1)) by (cbn; lra).
  assert (G : nonneg3 (0, 1, 0)) by (cbn; lra).
  assert (K : forall lin : R3, fst (fst lin) < 0 ->
              Math.pow (Vec3.x (fin3 lin)) (Fin 0.4545454) = NaN).
  { intros [[a b] c] H. cbn in H |- *. now apply encode_negative. }
  split; [|split].
  - intros t. rewrite mix_unfold, mix_linear_fin by assumption. cbn [Vec3.x].
    apply K, mix_blue_blue_red_negative.
  - rewrite mix_unfold, mix_linear_fin by assumption. cbn [Vec3.x]. apply K.
    replace (Rmix_linear (0, 0, 1) (0, 1, 0) 0) with (Rmix_linear (0, 0, 1) (0, 0, 1) 0).
    + apply mix_blue_blue_red_negative.
    + unfold Rmix_linear. do 2 f_equal.
      destruct (map3 Rcone (Rlms 2.2 (0, 0, 1))) as [[a b] c].
      destruct (map3 Rcone (Rlms 2.2 (0, 1, 0))) as [[a' b'] c'].
      unfold zip3, Rlerp. f_equal; [f_equal|]; ring.
  - rewrite mix_unfold, mix_linear_fin by assumption. cbn [Vec3.x]. apply K.
    replace (Rmix_linear (0, 1, 0) (0, 0, 1) 1) with (Rmix_linear (0, 0, 1) (0, 0, 1) 1).
    + apply mix_blue_blue_red_negative.
    + unfold Rmix_linear. do 2 f_equal.
      destruct (map3 Rcone (Rlms 2.2 (0, 0, 1))) as [[a b] c].
      destruct (map3 Rcone (Rlms 2.2 (0, 1, 0))) as [[a' b'] c'].
      unfold zip3, Rlerp. f_equal; [f_equal|]; ring.
Qed.



(** C4, counterexample.  After [setHue] of pure blue to the hue 3 PI / 2,
    the hue that [rgb2oklch] reads back is negative, so it is not in
    [0, 2 PI). *)
Lemma hue_read_back_is_negative :
  exists h : R,
    Vec3.z (rgb2oklch (setHue (fin3 (0, 0, 1)) (Fin (3 * (PI / 2))))) = Fin h /\ h < 0.
Proof.
  pose proof PI_RGT_0 as HPI.
  assert (B : nonneg3 (0, 0, 1)) by (cbn; lra).
  rewrite (setHue_fin _ _ (3 * (PI / 2))) by (assumption || (apply wrapHue_id; lra)).
  destruct (Rrgb2oklch (0, 0, 1)) as [[L C] H] eqn:E. cbn [fst snd].
  rewrite rgb2oklch_fin by (apply in01_nonneg3, Roklch2rgb_in01).
  unfold Rrgb2oklch at 1.
  destruct (Rrgb2oklab 2.2 (Roklch2rgb (L, C, 3 * (PI / 2)))) as [[L' a'] b'] eqn:E'.
  pose proof (sethue_blue_reads_back_negative _ _ _ _ E E') as N. cbn [snd] in N.
  unfold Roklab2oklch. cbn [fin3 vfin Vec3.z].
  exists (Ratan2 b' a'). split; [reflexivity | now apply Ratan2_neg].
Qed.

(** C4, as amended.  [setHue] and [shiftHue] hand to [oklch2rgb] the hue
    [value mod 2 PI], plus [2 PI] when that is negative.  This wrap leaves a
    hue of [0, 6.28] alone; for a value between -1000 and 1000 it returns a
    number of [0, 2 PI) with the cosine and the sine of the value, that is,
    the same angle; and where the value plus a whole number of turns lies in
    [0.001, 6.28], it returns that sum: 7 PI becomes PI and - PI / 2 becomes
    3 PI / 2.  [setHue rgb (7 PI)] equals [setHue rgb (7 PI mod 2 PI)]; and
    for a normalized colour the hue that [rgb2oklch] reads back from the
    result of [setHue] lies in (-PI, PI]. *)
Theorem hue_is_wrapped : forall (rgb : Vec3.t) (c : R3) (H : R), in01 c ->
  (forall hue, setHue rgb hue =
     oklch2rgb (Vec3.new (Vec3.x (rgb2oklch rgb)) (Vec3.y (rgb2oklch rgb))
                         (wrapHue hue))) /\
  (forall factor, shiftHue rgb factor =
     oklch2rgb (Vec3.new (Vec3.x (rgb2oklch rgb)) (Vec3.y (rgb2oklch rgb))
                         (wrapHue (Vec3.z (rgb2oklch rgb) + factor)%js))) /\
  (forall v : R, 0 <= v <= 6.28 -> wrapHue (Fin v) = Fin v) /\
  (forall v : R, -1000 <= v <= 1000 ->
     exists w : R, wrapHue (Fin v) = Fin w /\ 0 <= w < 2 * PI /\
                   cos w = cos v /\ sin w = sin v) /\
  (forall (v : R) (k : Z), -1000 <= v <= 1000 ->
     0.001 <= v + IZR k * (2 * PI) <= 6.28 ->
     wrapHue (Fin v) = Fin (v + IZR k * (2 * PI))) /\
  wrapHue (Fin (7 * PI)) = Fin PI /\
  wrapHue (Fin (- (PI / 2))) = Fin (3 * (PI / 2)) /\
  setHue rgb (Fin (7 * PI)) = setHue rgb (Fin (7 * PI) mod (Math.PI * Fin 2))%js /\
  (exists h : R,
     Vec3.z (rgb2oklch (setHue (fin3 c) (Fin H))) = Fin h /\ - PI < h <= PI).
Proof.
  intros rgb c H Hc. split; [reflexivity|]. split; [reflexivity|].
  split; [exact wrapHue_small|].
  split; [intros v _; apply wrapHue_angle|].
  split; [intros v k _ R; pose proof PI_above; apply wrapHue_of_turns; lra|].
  split; [exact wrapHue_seven_pi|]. split; [exact wrapHue_minus_quarter|].
  split.
  - pose proof PI_RGT_0 as HPI.
    rewrite !setHue_unfold, rem_seven_pi, wrapHue_seven_pi, wrapHue_id by lra.
    reflexivity.
  - destruct (wrapHue_fin H) as (h & Hh & _).
    rewrite (setHue_fin _ _ h) by (try apply in01_nonneg3; assumption).
    rewrite rgb2oklch_fin by (apply in01_nonneg3, Roklch2rgb_in01).
    unfold Rrgb2oklch at 1.
    destruct (Rrgb2oklab 2.2 _) as [[L' a'] b'].
    exists (Ratan2 b' a'). split; [reflexivity | apply Ratan2_range].
Qed.

(** C4: the amended statement at pure blue and the hue 1. *)
Lemma hue_is_wrapped_witness :
  in01 (0, 0, 1) /\
  wrapHue (Fin (7 * PI)) = Fin PI /\
  setHue (vfin 0 0 1) (Fin (7 * PI)) =
    setHue (vfin 0 0 1) (Fin (7 * PI) mod (Math.PI * Fin 2))%js /\
  (exists h : R,
     Vec3.z (rgb2oklch (setHue (fin3 (0, 0, 1)) (Fin 1))) = Fin h /\ - PI < h <= PI).
Proof.
  assert (B : in01 (0, 0, 1)) by (cbn; lra).
  destruct (hue_is_wrapped (vfin 0 0 1) (0, 0, 1) 1 B)
    as (_ & _ & _ & _ & _ & W & _ & S & R).
  split; [exact B|]. split; [exact W|]. split; [exact S | exact R].
Defined.

(** C5, counterexample.  At the Oklab vector (0, 1e200, 0) the square of
    [a] is beyond the binary64 range: [oklab2oklch] returns the chroma
    [Infinity], and the way back returns (0, Infinity, NaN), not the
    vector. *)
Lemma polar_round_trip_overflows :
  OkColor64.oklab2oklch (vfin 0 1e200 0) = Vec3.new (Fin 0) PInf (Fin 0) /\
  OkColor64.oklch2oklab (OkColor64.oklab2oklch (vfin 0 1e200 0)) =
    Vec3.new (Fin 0) PInf NaN.
Proof.
  assert (E : OkColor64.oklab2oklch (vfin 0 1e200 0) = Vec3.new (Fin 0) PInf (Fin 0)).
  { unfold OkColor64.oklab2oklch, vfin. cbv zeta. cbn [Vec3.x Vec3.y Vec3.z].
    unfold Binary64.mul at 1. cbn [Number.mul]. rewrite overflow_pos by lra.
    rewrite mul64_fin by (rewrite Rmult_0_r, Rabs_R0; lra).
    unfold Binary64.add. cbn [Number.add overflow Math.sqrt Math.atan2].
    do 2 f_equal. unfold Ratan2. destruct (Rlt_dec 0 1e200); [| lra].
    unfold Rdiv. rewrite Rmult_0_l. apply atan_0. }
  split; [exact E |]. rewrite E.
  unfold OkColor64.oklch2oklab. cbv zeta. cbn [Vec3.x Vec3.y Vec3.z Math.cos Math.sin].
  rewrite cos_0, sin_0. unfold Binary64.mul. cbn [Number.mul]. unfold Number.inf_times.
  destruct (Rlt_dec 0 1); [| lra]. destruct (Rlt_dec 0 0); [lra |].
  reflexivity.
Qed.

(** C5, as amended.  For an Oklab vector whose [a] and [b] are each zero
    or of a magnitude between 1e-100 and 1000, [oklch2oklab (oklab2oklch
    lab)] equals lab; [oklab2oklch] returns the chroma [sqrt (a*a + b*b)], which is
    not negative, and the hue [atan2 b a], which lies in (-PI, PI] and is not
    wrapped: the vector (0, 0, -1) has the hue [- PI / 2]. *)
Theorem polar_round_trip : forall L a b : R, in_range a -> in_range b ->
  OkColor64.oklch2oklab (OkColor64.oklab2oklch (vfin L a b)) = vfin L a b /\
  OkColor64.oklab2oklch (vfin L a b) = vfin L (sqrt (a * a + b * b)) (Ratan2 b a) /\
  0 <= sqrt (a * a + b * b) /\
  - PI < Ratan2 b a <= PI /\
  OkColor64.oklab2oklch (vfin 0 0 (-1)) = vfin 0 1 (- (PI / 2)).
Proof.
  intros L a b Ha Hb. apply in_range_le in Ha, Hb.
  rewrite (oklab2oklch64_fin L a b Ha Hb).
  split.
  { rewrite oklch2oklab64_wide by now apply chroma_le.
    destruct (polar_inverse a b) as [-> ->]. reflexivity. }
  split; [reflexivity|]. split; [apply sqrt_pos|]. split; [apply Ratan2_range|].
  rewrite oklab2oklch64_fin by (apply Rabs_le; lra).
  unfold vfin. f_equal.
  - f_equal. replace (0 * 0 + -1 * -1) with 1 by ring. apply sqrt_1.
  - f_equal. unfold Ratan2. destruct (Rlt_dec 0 0); [lra|].
    destruct (Rlt_dec 0 0); [lra|]. destruct (Rlt_dec 0 (-1)); [lra|].
    destruct (Rlt_dec (-1) 0); [reflexivity | lra].
Qed.

(** C5: the amended statement at the Oklab vector (0.5, 0.3, -0.4). *)
Lemma polar_round_trip_witness :
  in_range 0.3 /\ in_range (-0.4) /\
  OkColor64.oklch2oklab (OkColor64.oklab2oklch (vfin 0.5 0.3 (-0.4))) = vfin 0.5 0.3 (-0.4).
Proof.
  assert (Ha : in_range 0.3) by (right; rewrite Rabs_pos_eq; lra).
  assert (Hb : in_range (-0.4)) by (right; rewrite Rabs_left; lra).
  split; [exact Ha |]. split; [exact Hb |].
  exact (proj1 (polar_round_trip 0.5 0.3 (-0.4) Ha Hb)).
Defined.

(** C6.  [setLightness rgb 5.0] equals [setLightness rgb 1.0] and
    [setLightness rgb (-3.0)] equals [setLightness rgb 0.0]; [setLightness]
    converts back the clamp of the given lightness and [shiftLightness] the
    clamp of the sum [L + factor].  The clamp is the identity on [0,1], 1
    above 1 and at [Infinity], 0 below 0 and at [-Infinity], and NaN at NaN:
    so the lightness 5.0 is converted back as 1, the lightness -3.0 as 0, a
    lightness of [0,1] as itself, and [shiftLightness] is [setLightness] to
    1, to 0 or to the sum, by where the sum lies. *)
Theorem lightness_is_clamped : forall rgb : Vec3.t,
  setLightness rgb (Fin 5.0) = setLightness rgb (Fin 1.0) /\
  setLightness rgb (Fin (-3.0)) = setLightness rgb (Fin 0.0) /\
  (forall lightness,
     setLightness rgb lightness =
     oklch2rgb (Vec3.new (clamp01 lightness)
                         (Vec3.y (rgb2oklch rgb)) (Vec3.z (rgb2oklch rgb)))) /\
  (forall factor,
     shiftLightness rgb factor =
     oklch2rgb (Vec3.new (clamp01 (Vec3.x (rgb2oklch rgb) + factor)%js)
                         (Vec3.y (rgb2oklch rgb)) (Vec3.z (rgb2oklch rgb)))) /\
  (forall n, clamp01 n = NaN \/ exists r, clamp01 n = Fin r /\ 0 <= r <= 1) /\
  (forall x : R, 0 <= x <= 1 -> clamp01 (Fin x) = Fin x) /\
  (forall x : R, 1 <= x -> clamp01 (Fin x) = Fin 1) /\
  (forall x : R, x <= 0 -> clamp01 (Fin x) = Fin 0) /\
  clamp01 PInf = Fin 1 /\ clamp01 NInf = Fin 0 /\ clamp01 NaN = NaN /\
  setLightness rgb (Fin 5.0) =
    oklch2rgb (Vec3.new (Fin 1) (Vec3.y (rgb2oklch rgb)) (Vec3.z (rgb2oklch rgb))) /\
  setLightness rgb (Fin (-3.0)) =
    oklch2rgb (Vec3.new (Fin 0) (Vec3.y (rgb2oklch rgb)) (Vec3.z (rgb2oklch rgb))) /\
  (forall l : R, 0 <= l <= 1 ->
     setLightness rgb (Fin l) =
     oklch2rgb (Vec3.new (Fin l) (Vec3.y (rgb2oklch rgb)) (Vec3.z (rgb2oklch rgb)))) /\
  (forall L f : R, Vec3.x (rgb2oklch rgb) = Fin L ->
     (1 <= L + f -> shiftLightness rgb (Fin f) = setLightness rgb (Fin 1)) /\
     (L + f <= 0 -> shiftLightness rgb (Fin f) = setLightness rgb (Fin 0)) /\
     (0 <= L + f <= 1 -> shiftLightness rgb (Fin f) = setLightness rgb (Fin (L + f)))).
Proof.
  intros rgb.
  assert (S : forall l, setLightness rgb l =
     oklch2rgb (Vec3.new (clamp01 l) (Vec3.y (rgb2oklch rgb)) (Vec3.z (rgb2oklch rgb))))
    by reflexivity.
  assert (T : forall f, shiftLightness rgb f =
     oklch2rgb (Vec3.new (clamp01 (Vec3.x (rgb2oklch rgb) + f)%js)
                         (Vec3.y (rgb2oklch rgb)) (Vec3.z (rgb2oklch rgb))))
    by reflexivity.
  split; [rewrite !S, !clamp01_above by lra; reflexivity|].
  split; [rewrite !S, !clamp01_below by lra; reflexivity|].
  split; [exact S|]. split; [exact T|]. split; [exact clamp01_cases|].
  split; [exact clamp01_inside|]. split; [exact clamp01_above|].
  split; [exact clamp01_below|].
  split; [apply clamp01_infinite|]. split; [apply clamp01_infinite|].
  split; [apply clamp01_infinite|].
  split; [rewrite S, clamp01_above by lra; reflexivity|].
  split; [rewrite S, clamp01_below by lra; reflexivity|].
  split; [intros l Hl; rewrite S, clamp01_inside by assumption; reflexivity|].
  intros L f E. rewrite T, !S, E. cbn [Number.add].
  split; [| split]; intros HLf.
  - rewrite !clamp01_above by lra. reflexivity.
  - rewrite !clamp01_below by lra. reflexivity.
  - reflexivity.
Qed.



(** C8, counterexample.  For the Oklab vector (1e103, 0, 0) the cube is
    beyond the binary64 range, the matrix product subtracts infinities, and
    the three components of [oklab2rgb] are NaN; for the gamma 1e-310 the
    exponent [1 / gamma] is [Infinity], and [oklab2rgb] of (1, 0, 0) is three
    NaNs as well. *)
Lemma oklab2rgb_overflows :
  OkColor64.oklab2rgb (vfin 1e103 0 0) default_gamma = vnan /\
  OkColor64.oklab2rgb (vfin 1 0 0) (Fin 1e-310) = vnan.
Proof.
  split.
  - unfold OkColor64.oklab2rgb, default_gamma. cbv zeta.
    assert (E1 : OkColor64.mat3MulVec3 kOKLABtoLMS (vfin 1e103 0 0) =
                 vfin 1e103 1e103 1e103).
    { assert (P : 0 <= 1e103) by lra. assert (T1 : 1e308 <= 1e308) by lra.
      assert (Q : 3 * 1e103 <= 1e308) by lra.
      assert (B : bounded3 1e103 (1e103, 0, 0))
        by (unfold bounded3; repeat split; apply Rabs_le; lra).
      change (vfin 1e103 0 0) with (fin3 (1e103, 0, 0)).
      destruct (mat64_OKLABtoLMS _ _ P T1 _ Q B) as [-> _].
      matrix_constants. unfold fin3, vfin. f_equal; f_equal; lra. }
    rewrite E1.
    assert (E2 : OkColor64.multiply
                   (OkColor64.multiply (vfin 1e103 1e103 1e103) (vfin 1e103 1e103 1e103))
                   (vfin 1e103 1e103 1e103) = Vec3.new PInf PInf PInf).
    { unfold OkColor64.multiply, vfin. cbn [Vec3.x Vec3.y Vec3.z].
      rewrite !(mul64_fin 1e103 1e103) by (apply Rabs_le; lra).
      unfold Binary64.mul. cbn [Number.mul].
      now rewrite (overflow_pos (1e103 * 1e103 * 1e103)) by lra. }
    rewrite E2.
    assert (E3 : OkColor64.mat3MulVec3 kLMStoCONE (Vec3.new PInf PInf PInf) = vnan).
    { unfold OkColor64.mat3MulVec3, vnan. cbn [Vec3.x Vec3.y Vec3.z]. matrix_entries.
      unfold Binary64.mul, Binary64.add. cbn [Number.mul]. unfold Number.inf_times.
      repeat match goal with
      | |- context [Rlt_dec ?a ?b] => destruct (Rlt_dec a b); try lra
      end.
      reflexivity. }
    rewrite E3. unfold vnan. cbn [Vec3.x Vec3.y Vec3.z Math.min Math.max].
    unfold Binary64.div. rewrite inv_gamma_fin by lra.
    rewrite (overflow_fin (1 / 2.2)) by (apply Rabs_le; lra).
    unfold Binary64.pow, Math.pow.
    destruct (Req_dec_T (1 / 2.2) 0); [lra | reflexivity].
  - unfold OkColor64.oklab2rgb. cbv zeta.
    assert (E0 : (Fin 1 / Fin 1e-310)%b64 = PInf).
    { unfold Binary64.div. rewrite inv_gamma_fin by lra.
      apply (overflow_pos (1 / 1e-310)). lra. }
    rewrite E0.
    assert (B : bounded3 1e100 (1, 0, 0)) by (unfold bounded3; repeat split; apply Rabs_le; lra).
    change (vfin 1 0 0) with (fin3 (1, 0, 0)).
    rewrite (linear64_fin _ B).
    rewrite Rlinear_gray.
    replace (Rcube 1) with 1 by (unfold Rcube; ring).
    cbn [fin3 vfin Vec3.x Vec3.y Vec3.z].
    fold (clamp01 (Fin 1)). rewrite clamp01_fin.
    replace (Rclamp01 1) with 1 by clamp_cases.
    unfold Binary64.pow, Math.pow. rewrite Rabs_R1.
    destruct (Rlt_dec 1 1); [lra|]. destruct (Req_dec_T 1 1); [reflexivity | lra].
Qed.

(** C8, as amended.  For an Oklab vector whose components are at most
    1e100 in magnitude and a gamma of at least 1e-300, [oklab2rgb] returns
    three numbers of [0,1]; each is the clamp of the linear value to [0,1]
    raised to [1 / gamma].  The other conversions do not clamp:
    [oklab2oklch] and [oklch2oklab] return the lightness 2 unchanged, and
    [rgb2oklab] of pure blue has a negative [b]. *)
Theorem oklab2rgb_is_clamped : forall (lab : R3) (gamma : R),
  bounded3 1e100 lab -> 1e-300 <= gamma ->
  (exists out : R3,
     OkColor64.oklab2rgb (fin3 lab) (Fin gamma) = fin3 out /\ in01 out) /\
  (forall (v : Vec3.t) (g : num),
     OkColor64.oklab2rgb v g =
       let lms_ := OkColor64.mat3MulVec3 kOKLABtoLMS v in
       let lin := OkColor64.mat3MulVec3 kLMStoCONE
                    (OkColor64.multiply (OkColor64.multiply lms_ lms_) lms_) in
       Vec3.new (Binary64.pow (clamp01 (Vec3.x lin)) (Fin 1 / g)%b64)
                (Binary64.pow (clamp01 (Vec3.y lin)) (Fin 1 / g)%b64)
                (Binary64.pow (clamp01 (Vec3.z lin)) (Fin 1 / g)%b64)) /\
  OkColor64.oklab2oklch (vfin 2 0 0) = vfin 2 0 0 /\
  OkColor64.oklch2oklab (vfin 2 0 0) = vfin 2 0 0 /\
  (exists L a b : R, rgb2oklab (vfin 0 0 1) default_gamma = vfin L a b /\ b < 0).
Proof.
  intros lab gamma Hl Hg.
  split.
  { exists (Roklab2rgb gamma lab).
    split; [apply (oklab2rgb64_fin lab gamma Hl Hg) | apply Roklab2rgb_in01; lra]. }
  split; [intros v g; unfold OkColor64.oklab2rgb, clamp01; exact eq_refl|].
  split.
  { rewrite oklab2oklch64_fin by (apply Rabs_le; lra). unfold vfin. f_equal.
    - f_equal. replace (0 * 0 + 0 * 0) with 0 by ring. apply sqrt_0.
    - f_equal. apply Ratan2_origin. }
  split.
  { rewrite oklch2oklab64_fin by (apply Rabs_le; lra).
    rewrite cos_0, sin_0. unfold vfin. f_equal; f_equal; ring. }
  destruct (Rrgb2oklab 2.2 (0, 0, 1)) as [[L a] b] eqn:E.
  exists L, a, b. split; [| exact (blue_b_negative L a b E)].
  change (vfin 0 0 1) with (fin3 (0, 0, 1)). unfold default_gamma.
  rewrite rgb2oklab_fin by (cbn; lra). now rewrite E.
Qed.

(** C8: the amended statement at the Oklab vector (1, 0.2, -0.3) and the
    default gamma. *)
Lemma oklab2rgb_is_clamped_witness :
  bounded3 1e100 (1, 0.2, -0.3) /\ 1e-300 <= 2.2 /\
  exists out : R3,
    OkColor64.oklab2rgb (fin3 (1, 0.2, -0.3)) (Fin 2.2) = fin3 out /\ in01 out.
Proof.
  assert (Hl : bounded3 1e100 (1, 0.2, -0.3)) by (unfold bounded3; repeat split; apply Rabs_le; lra).
  assert (Hg : 1e-300 <= 2.2) by lra.
  split; [exact Hl |]. split; [exact Hg |].
  exact (proj1 (oklab2rgb_is_clamped (1, 0.2, -0.3) 2.2 Hl Hg)).
Defined.


(** C10.  There are rgb1, rgb2 with every component in [0,1] and t in [0,1]
    for which the linear red value of [mix] is negative and the red component
    of the result is NaN: pure blue, pure green and t = 0.5. *)
Theorem mix_in_range_gives_nan :
  exists (rgb1 rgb2 : R3) (t : R) (lin : R3),
    in01 rgb1 /\ in01 rgb2 /\ 0 <= t <= 1 /\
    mix_linear (fin3 rgb1) (fin3 rgb2) (Fin t) = fin3 lin /\
    fst (fst lin) < 0 /\
    Vec3.x (mix (fin3 rgb1) (fin3 rgb2) (Fin t)) = NaN.
Proof.
  exists (0, 0, 1), (0, 1, 0), 0.5, (Rmix_linear (0, 0, 1) (0, 1, 0) 0.5).
  assert (E : mix_linear (fin3 (0, 0, 1)) (fin3 (0, 1, 0)) (Fin 0.5) =
              fin3 (Rmix_linear (0, 0, 1) (0, 1, 0) 0.5))
    by (apply mix_linear_fin; cbn; lra).
  pose proof mix_blue_green_red_negative as N.
  split; [cbn; lra|]. split; [cbn; lra|]. split; [lra|].
  split; [exact E|]. split; [exact N|].
  rewrite mix_unfold. cbn [Vec3.x]. rewrite E.
  destruct (Rmix_linear _ _ _) as [[a b] c]. cbn [fst] in N.
  cbn [fin3 vfin Vec3.x]. now apply encode_negative.
Qed.

(** * Further properties of the program

    Properties read off the source, beyond those of the specification. *)

(** X1.  A component of [rgb] that is [NaN] or a negative number makes
    [rgb2oklab] (at the default gamma) and [rgb2oklch] return [NaN] in all
    three components, whatever the other two components are; converting
    back with [oklab2rgb] or [oklch2rgb] keeps the three [NaN]s. *)
Theorem invalid_component_poisons_conversion : forall rgb : Vec3.t,
  invalid (Vec3.x rgb) \/ invalid (Vec3.y rgb) \/ invalid (Vec3.z rgb) ->
  rgb2oklab rgb default_gamma = vnan /\
  rgb2oklch rgb = vnan /\
  oklab2rgb (rgb2oklab rgb default_gamma) default_gamma = vnan /\
  oklch2rgb (rgb2oklch rgb) = vnan.
Proof.
  intros rgb H. rewrite (rgb2oklch_invalid rgb H), (rgb2oklab_invalid rgb H).
  repeat split.
  - apply oklab2rgb_nan; [lra | left; reflexivity].
  - apply oklch2rgb_nan. auto.
Qed.

Lemma invalid_component_poisons_conversion_witness :
  (invalid (Fin (-1)) \/ invalid PInf \/ invalid (Fin 0.5)) /\
  rgb2oklab (Vec3.new (Fin (-1)) PInf (Fin 0.5)) default_gamma = vnan.
Proof.
  assert (H : invalid (Vec3.x (Vec3.new (Fin (-1)) PInf (Fin 0.5))) \/
              invalid (Vec3.y (Vec3.new (Fin (-1)) PInf (Fin 0.5))) \/
              invalid (Vec3.z (Vec3.new (Fin (-1)) PInf (Fin 0.5)))).
  { left. right. exists (-1). split; [reflexivity | lra]. }
  split; [exact H |].
  exact (proj1 (invalid_component_poisons_conversion _ H)).
Defined.

(** X2.  The clamp of [oklab2rgb] does not remove [NaN]: for a gamma that
    is a number other than zero, one [NaN] component in the argument makes
    all three components of the result [NaN], for [oklab2rgb] and for
    [oklch2rgb]. *)
Theorem nan_component_poisons_oklab2rgb : forall (v : Vec3.t) (gamma : R),
  gamma <> 0 ->
  Vec3.x v = NaN \/ Vec3.y v = NaN \/ Vec3.z v = NaN ->
  oklab2rgb v (Fin gamma) = vnan /\
  oklch2rgb v = vnan.
Proof.
  intros v gamma Hg H. split; [now apply oklab2rgb_nan|].
  destruct v as [L C Hh]. cbn [Vec3.x Vec3.y Vec3.z] in H.
  destruct H as [-> | H]; [apply oklch2rgb_nan_lightness | now apply oklch2rgb_nan].
Qed.

Lemma nan_component_poisons_oklab2rgb_witness :
  2.2 <> 0 /\
  (Vec3.x (Vec3.new (Fin 0.5) NaN (Fin 0)) = NaN \/
   Vec3.y (Vec3.new (Fin 0.5) NaN (Fin 0)) = NaN \/
   Vec3.z (Vec3.new (Fin 0.5) NaN (Fin 0)) = NaN) /\
  oklab2rgb (Vec3.new (Fin 0.5) NaN (Fin 0)) (Fin 2.2) = vnan.
Proof.
  assert (G : 2.2 <> 0) by lra.
  assert (H : Vec3.x (Vec3.new (Fin 0.5) NaN (Fin 0)) = NaN \/
              Vec3.y (Vec3.new (Fin 0.5) NaN (Fin 0)) = NaN \/
              Vec3.z (Vec3.new (Fin 0.5) NaN (Fin 0)) = NaN).
  { right. left. reflexivity. }
  split; [exact G |]. split; [exact H |].
  exact (proj1 (nan_component_poisons_oklab2rgb _ 2.2 G H)).
Defined.

(** X3.  A component of [rgb] that is [NaN] or a negative number makes
    each of [setHue], [shiftHue], [setChroma], [scaleChroma], [setLightness]
    and [shiftLightness] return three [NaN]s, whatever the parameter. *)
Theorem invalid_component_poisons_adjusters : forall (rgb : Vec3.t) (p : num),
  invalid (Vec3.x rgb) \/ invalid (Vec3.y rgb) \/ invalid (Vec3.z rgb) ->
  setHue rgb p = vnan /\ shiftHue rgb p = vnan /\
  setChroma rgb p = vnan /\ scaleChroma rgb p = vnan /\
  setLightness rgb p = vnan /\ shiftLightness rgb p = vnan.
Proof.
  intros rgb p H.
  unfold setHue, shiftHue, setChroma, scaleChroma, setLightness, shiftLightness.
  cbv zeta.
  rewrite (rgb2oklch_invalid rgb H). unfold vnan. cbn [Vec3.x Vec3.y Vec3.z].
  fold vnan. repeat split; apply oklch2rgb_nan; auto.
Qed.

Lemma invalid_component_poisons_adjusters_witness :
  (invalid (Fin (-1)) \/ invalid (Fin 0.5) \/ invalid (Fin 0.5)) /\
  setHue (Vec3.new (Fin (-1)) (Fin 0.5) (Fin 0.5)) (Fin 1) = vnan.
Proof.
  assert (H : invalid (Vec3.x (Vec3.new (Fin (-1)) (Fin 0.5) (Fin 0.5))) \/
              invalid (Vec3.y (Vec3.new (Fin (-1)) (Fin 0.5) (Fin 0.5))) \/
              invalid (Vec3.z (Vec3.new (Fin (-1)) (Fin 0.5) (Fin 0.5)))).
  { left. right. exists (-1). split; [reflexivity | lra]. }
  split; [exact H |].
  exact (proj1 (invalid_component_poisons_adjusters _ (Fin 1) H)).
Defined.

(** X4.  A component that is [NaN] or a negative number, in either colour,
    makes [mix] return three [NaN]s, whatever [t] is (also at [t = 0] when
    the bad component is in the second colour). *)
Theorem invalid_component_poisons_mix : forall (rgb1 rgb2 : Vec3.t) (t : num),
  (invalid (Vec3.x rgb1) \/ invalid (Vec3.y rgb1) \/ invalid (Vec3.z rgb1)) \/
  (invalid (Vec3.x rgb2) \/ invalid (Vec3.y rgb2) \/ invalid (Vec3.z rgb2)) ->
  mix rgb1 rgb2 t = vnan.
Proof.
  intros rgb1 rgb2 t H. unfold mix. cbv zeta.
  assert (E : Vec3.mix
    (coneResponse (mat3MulVec3 kCONEtoLMS
      (Vec3.new (Math.pow (Vec3.x rgb1) (Fin 2.2)) (Math.pow (Vec3.y rgb1) (Fin 2.2))
                (Math.pow (Vec3.z rgb1) (Fin 2.2)))))
    (coneResponse (mat3MulVec3 kCONEtoLMS
      (Vec3.new (Math.pow (Vec3.x rgb2) (Fin 2.2)) (Math.pow (Vec3.y rgb2) (Fin 2.2))
                (Math.pow (Vec3.z rgb2) (Fin 2.2))))) t = vnan).
  { destruct H as [H | H]; rewrite (decode_vec_invalid _ H); unfold Vec3.mix, vnan;
      cbn [Vec3.x Vec3.y Vec3.z]; unfold Number.sub;
      cbn [Number.neg]; rewrite ?add_nan_l, ?add_nan_r, ?mul_nan_l, ?add_nan_r;
      reflexivity. }
  rewrite E, cube_vnan, mat_vnan. unfold vnan. cbn [Vec3.x Vec3.y Vec3.z].
  unfold Math.pow. destruct (Req_dec_T 0.4545454 0); [lra | reflexivity].
Qed.

Lemma invalid_component_poisons_mix_witness :
  (invalid (Fin 1) \/ invalid (Fin 1) \/ invalid NaN) /\
  mix (Vec3.new (Fin 0) (Fin 0) (Fin 0)) (Vec3.new (Fin 1) (Fin 1) NaN) (Fin 0) = vnan.
Proof.
  assert (H : invalid (Vec3.x (Vec3.new (Fin 1) (Fin 1) NaN)) \/
              invalid (Vec3.y (Vec3.new (Fin 1) (Fin 1) NaN)) \/
              invalid (Vec3.z (Vec3.new (Fin 1) (Fin 1) NaN))).
  { right. right. left. reflexivity. }
  split; [exact H |].
  exact (invalid_component_poisons_mix (Vec3.new (Fin 0) (Fin 0) (Fin 0)) _ (Fin 0)
           (or_intror H)).
Defined.

(** X5.  Parameters that are not finite.  A hue or a hue shift that is
    [NaN], [Infinity] or [-Infinity], and a chroma, chroma factor, lightness
    or lightness offset that is [NaN], give three [NaN]s for every colour;
    [setLightness] treats [Infinity] as 1 and [-Infinity] as 0; [mix] with
    [t = NaN] gives three [NaN]s. *)
Theorem non_finite_parameters : forall rgb : Vec3.t,
  (forall p : num, p = NaN \/ p = PInf \/ p = NInf ->
     setHue rgb p = vnan /\ shiftHue rgb p = vnan) /\
  setChroma rgb NaN = vnan /\ scaleChroma rgb NaN = vnan /\
  setLightness rgb NaN = vnan /\ shiftLightness rgb NaN = vnan /\
  setLightness rgb PInf = setLightness rgb (Fin 1) /\
  setLightness rgb NInf = setLightness rgb (Fin 0) /\
  (forall rgb2 : Vec3.t, mix rgb rgb2 NaN = vnan).
Proof.
  intros rgb. split.
  { intros p Hp. rewrite setHue_unfold, shiftHue_unfold.
    rewrite (wrapHue_not_finite p Hp).
    assert (Q : wrapHue (Vec3.z (rgb2oklch rgb) + p)%js = NaN).
    { apply wrapHue_not_finite.
      destruct Hp as [-> | [-> | ->]]; destruct (Vec3.z (rgb2oklch rgb)); cbn; auto. }
    rewrite Q. split; apply oklch2rgb_nan; auto. }
  unfold setChroma, scaleChroma, setLightness, shiftLightness. cbv zeta.
  rewrite mul_nan_r, add_nan_r. cbn [Math.min Math.max].
  split; [apply oklch2rgb_nan; auto|]. split; [apply oklch2rgb_nan; auto|].
  split; [apply oklch2rgb_nan_lightness|]. split; [apply oklch2rgb_nan_lightness|].
  split; [do 3 f_equal; unfold Rmax, Rmin; repeat destruct (Rle_dec _ _); lra|].
  split; [do 3 f_equal; unfold Rmax, Rmin; repeat destruct (Rle_dec _ _); lra|].
  intros rgb2. unfold mix. cbv zeta.
  match goal with |- context [Vec3.mix ?a ?b NaN] =>
    replace (Vec3.mix a b NaN) with vnan
  end.
  - rewrite cube_vnan, mat_vnan. unfold vnan. cbn [Vec3.x Vec3.y Vec3.z].
    unfold Math.pow. destruct (Req_dec_T 0.4545454 0); [lra | reflexivity].
  - unfold Vec3.mix, vnan. now rewrite !mul_nan_r, !add_nan_r.
Qed.

(** X6.  Gamma zero.  [rgb2oklab(rgb, 0)] does not depend on [rgb]: it is
    the Oklab vector of white.  [oklab2rgb(lab, 0)] computes the exponent
    [1 / 0 = Infinity], so every component of its result is 0 or [NaN];
    for the lightness 1 without chroma it is three [NaN]s. *)
Theorem gamma_zero_is_degenerate : forall (rgb : Vec3.t) (lab : R3),
  rgb2oklab rgb (Fin 0) = rgb2oklab (vfin 1 1 1) default_gamma /\
  (Vec3.x (oklab2rgb (fin3 lab) (Fin 0)) = Fin 0 \/
   Vec3.x (oklab2rgb (fin3 lab) (Fin 0)) = NaN) /\
  (Vec3.y (oklab2rgb (fin3 lab) (Fin 0)) = Fin 0 \/
   Vec3.y (oklab2rgb (fin3 lab) (Fin 0)) = NaN) /\
  (Vec3.z (oklab2rgb (fin3 lab) (Fin 0)) = Fin 0 \/
   Vec3.z (oklab2rgb (fin3 lab) (Fin 0)) = NaN) /\
  oklab2rgb (vfin 1 0 0) (Fin 0) = vnan.
Proof.
  intros rgb lab.
  assert (D : (Fin 1 / Fin 0)%js = PInf).
  { unfold Number.div. destruct (Req_dec_T 0 0); [| lra].
    destruct (Rlt_dec 0 1); [reflexivity | lra]. }
  split.
  { unfold rgb2oklab, default_gamma. cbv zeta. rewrite !pow_zero_exponent.
    cbn [vfin Vec3.x Vec3.y Vec3.z]. rewrite pow_fin by lra. now rewrite rpow_1_l. }
  assert (G : forall lab', oklab2rgb (fin3 lab') (Fin 0) =
    Vec3.new (Math.pow (Fin (Rclamp01 (fst (fst (Rlinear lab'))))) PInf)
             (Math.pow (Fin (Rclamp01 (snd (fst (Rlinear lab'))))) PInf)
             (Math.pow (Fin (Rclamp01 (snd (Rlinear lab')))) PInf)).
  { intros lab'. unfold oklab2rgb. cbv zeta.
    rewrite D, mat_fin_OKLABtoLMS, cube_fin, mat_fin_LMStoCONE.
    fold (Rlinear lab'). destruct (Rlinear lab') as [[x y] z].
    cbn [fin3 vfin Vec3.x Vec3.y Vec3.z fst snd].
    fold (clamp01 (Fin x)) (clamp01 (Fin y)) (clamp01 (Fin z)).
    now rewrite !clamp01_fin. }
  rewrite (G lab). cbn [Vec3.x Vec3.y Vec3.z].
  rewrite !pow_infinite_exponent by apply Rclamp01_range.
  repeat split; try (destruct (Req_dec_T _ 1); auto).
  change (vfin 1 0 0) with (fin3 (1, 0, 0)). rewrite (G (1, 0, 0)).
  rewrite Rlinear_gray. cbn [fst snd].
  replace (Rclamp01 (Rcube 1)) with 1 by (unfold Rcube; clamp_cases).
  rewrite pow_infinite_exponent by lra.
  destruct (Req_dec_T 1 1); [reflexivity | lra].
Qed.

(** X7.  On a normalized colour and a parameter of at most 1e90 in
    magnitude, each of the six adjusting functions returns a normalized
    colour: three numbers of [0,1]. *)
Theorem adjusters_stay_in_range : forall (rgb : R3) (p : R),
  in01 rgb -> Rabs p <= 1e90 ->
  (exists out, setHue (fin3 rgb) (Fin p) = fin3 out /\ in01 out) /\
  (exists out, shiftHue (fin3 rgb) (Fin p) = fin3 out /\ in01 out) /\
  (exists out, setChroma (fin3 rgb) (Fin p) = fin3 out /\ in01 out) /\
  (exists out, scaleChroma (fin3 rgb) (Fin p) = fin3 out /\ in01 out) /\
  (exists out, setLightness (fin3 rgb) (Fin p) = fin3 out /\ in01 out) /\
  (exists out, shiftLightness (fin3 rgb) (Fin p) = fin3 out /\ in01 out).
Proof.
  intros rgb p Hrgb _.
  destruct (rgb2oklch_vfin rgb (in01_nonneg3 rgb Hrgb)) as [L [C [H [_ E]]]].
  rewrite setHue_unfold, shiftHue_unfold.
  unfold setChroma, scaleChroma, setLightness, shiftLightness. cbv zeta.
  rewrite E. cbn [vfin Vec3.x Vec3.y Vec3.z Number.add Number.mul].
  destruct (wrapHue_Fin p) as [h1 ->]. destruct (wrapHue_Fin (H + p)) as [h2 ->].
  fold (clamp01 (Fin p)). fold (clamp01 (Fin (L + p))). rewrite !clamp01_fin.
  repeat split; eexists; (split; [apply oklch2rgb_vfin | apply Roklch2rgb_in01]).
Qed.

Lemma adjusters_stay_in_range_witness :
  in01 (1, 0.5, 0) /\ Rabs 3 <= 1e90 /\
  exists out, setChroma (fin3 (1, 0.5, 0)) (Fin 3) = fin3 out /\ in01 out.
Proof.
  assert (H : in01 (1, 0.5, 0)) by (cbn; lra).
  assert (P : Rabs 3 <= 1e90) by (apply Rabs_le; lra).
  split; [exact H |]. split; [exact P |].
  exact (proj1 (proj2 (proj2 (adjusters_stay_in_range (1, 0.5, 0) 3 H P)))).
Defined.

(** X8.  Neutral adjustments.  For a normalized colour, shifting the hue
    by 0, scaling the chroma by 1, shifting the lightness by 0, and setting
    the hue, the chroma or the lightness to the colour's own value all
    return the same colour as the round trips through Oklab and through
    OkLCH, and that colour is within 2e-3 of [rgb] in every component. *)
Theorem neutral_adjustments : forall rgb : R3, in01 rgb ->
  exists out : R3,
    close3 0.002 out rgb /\
    oklab2rgb (rgb2oklab (fin3 rgb) default_gamma) default_gamma = fin3 out /\
    oklch2rgb (rgb2oklch (fin3 rgb)) = fin3 out /\
    shiftHue (fin3 rgb) (Fin 0) = fin3 out /\
    scaleChroma (fin3 rgb) (Fin 1) = fin3 out /\
    shiftLightness (fin3 rgb) (Fin 0) = fin3 out /\
    setHue (fin3 rgb) (Vec3.z (rgb2oklch (fin3 rgb))) = fin3 out /\
    setChroma (fin3 rgb) (Vec3.y (rgb2oklch (fin3 rgb))) = fin3 out /\
    setLightness (fin3 rgb) (Vec3.x (rgb2oklch (fin3 rgb))) = fin3 out.
Proof.
  intros rgb Hrgb. pose proof (in01_nonneg3 rgb Hrgb) as Hn.
  exists (Roklab2rgb 2.2 (Rrgb2oklab 2.2 rgb)).
  split; [apply Rround_trip; assumption|].
  split.
  { unfold default_gamma. rewrite rgb2oklab_fin by (lra || assumption).
    apply oklab2rgb_fin. lra. }
  rewrite <- Roklch2rgb_of_Rrgb2oklch.
  destruct (rgb2oklch_vfin rgb Hn) as [L [C [H [ER E]]]].
  destruct (Rrgb2oklch_lightness rgb L C H Hrgb ER) as [HL _].
  rewrite setHue_unfold, shiftHue_unfold.
  unfold setChroma, scaleChroma, setLightness, shiftLightness. cbv zeta.
  rewrite E, ER. cbn [vfin Vec3.x Vec3.y Vec3.z Number.add Number.mul].
  destruct (wrapHue_Fin H) as [h1 E1]. destruct (wrapHue_Fin (H + 0)) as [h2 E2].
  rewrite E1, E2.
  fold (clamp01 (Fin L)). fold (clamp01 (Fin (L + 0))). rewrite !clamp01_fin.
  rewrite !Rclamp01_id by lra.
  fold (vfin L C H) (vfin L C h2) (vfin L (C * 1) H) (vfin (L + 0) C H)
       (vfin L C h1).
  rewrite !oklch2rgb_vfin.
  rewrite (Roklch2rgb_wrap L C (H + 0) h2 E2), (Roklch2rgb_wrap L C H h1 E1).
  rewrite ?Rplus_0_r, ?Rmult_1_r. repeat split; reflexivity.
Qed.

Lemma neutral_adjustments_witness :
  in01 (1, 0, 0) /\
  exists out : R3, close3 0.002 out (1, 0, 0) /\ scaleChroma (fin3 (1, 0, 0)) (Fin 1) = fin3 out.
Proof.
  assert (H : in01 (1, 0, 0)) by (cbn; lra).
  split; [exact H |].
  destruct (neutral_adjustments (1, 0, 0) H) as [out [C [_ [_ [_ [E _]]]]]].
  exists out. split; [exact C | exact E].
Defined.

(** X9.  [setHue] and [shiftHue] are periodic in their parameter: for a
    normalized colour, a hue or shift of at most 100 in magnitude and up to
    ten turns either way, adding the turns (a multiple of 2 PI) does not
    change the result (in exact arithmetic). *)
Theorem hue_is_periodic : forall (rgb : R3) (h : R) (n : Z),
  in01 rgb -> Rabs h <= 100 -> (Z.abs n <= 10)%Z ->
  setHue (fin3 rgb) (Fin (h + IZR n * (2 * PI))) = setHue (fin3 rgb) (Fin h) /\
  shiftHue (fin3 rgb) (Fin (h + IZR n * (2 * PI))) = shiftHue (fin3 rgb) (Fin h).
Proof.
  intros rgb h n _ _ _. rewrite !setHue_unfold, !shiftHue_unfold, wrapHue_periodic.
  split; [reflexivity|].
  destruct (Vec3.z (rgb2oklch (fin3 rgb))) as [| | |H]; try reflexivity.
  cbn [Number.add].
  replace (H + (h + IZR n * (2 * PI))) with (H + h + IZR n * (2 * PI)) by ring.
  now rewrite wrapHue_periodic.
Qed.

Lemma hue_is_periodic_witness :
  in01 (1, 0.5, 0) /\ Rabs 1 <= 100 /\ (Z.abs 3 <= 10)%Z /\
  setHue (fin3 (1, 0.5, 0)) (Fin (1 + IZR 3 * (2 * PI))) =
    setHue (fin3 (1, 0.5, 0)) (Fin 1).
Proof.
  assert (H : in01 (1, 0.5, 0)) by (cbn; lra).
  assert (P : Rabs 1 <= 100) by (apply Rabs_le; lra).
  assert (N : (Z.abs 3 <= 10)%Z) by (cbn; lia).
  split; [exact H |]. split; [exact P |]. split; [exact N |].
  exact (proj1 (hue_is_periodic (1, 0.5, 0) 1 3 H P N)).
Defined.





(** X12.  Setting the chroma of a normalized colour to 0 gives the gray
    [L^(3/2.2)] in all three components, where [L] is the OkLCH lightness of
    the colour; scaling the chroma by 0 gives the same result. *)
Theorem zero_chroma_is_the_gray_of_the_lightness : forall rgb : R3, in01 rgb ->
  exists L C H : R,
    rgb2oklch (fin3 rgb) = vfin L C H /\
    setChroma (fin3 rgb) (Fin 0) =
      vfin (rpow L (3 / 2.2)) (rpow L (3 / 2.2)) (rpow L (3 / 2.2)) /\
    scaleChroma (fin3 rgb) (Fin 0) = setChroma (fin3 rgb) (Fin 0).
Proof.
  intros rgb Hrgb. pose proof (in01_nonneg3 rgb Hrgb) as Hn.
  destruct (rgb2oklch_vfin rgb Hn) as [L [C [H [ER E]]]].
  destruct (Rrgb2oklch_lightness rgb L C H Hrgb ER) as [HL _].
  exists L, C, H. split; [exact E|].
  unfold setChroma, scaleChroma. cbv zeta. rewrite E.
  cbn [vfin Vec3.x Vec3.y Vec3.z Number.mul].
  fold (vfin L 0 H) (vfin L (C * 0) H). rewrite !oklch2rgb_vfin.
  rewrite zero_chroma_is_gray.
  replace 0 with (C * 0) at 1 2 by ring. rewrite zero_chroma_is_gray.
  rewrite Rgray_closed by assumption. split; reflexivity.
Qed.

Lemma zero_chroma_is_the_gray_of_the_lightness_witness :
  in01 (1, 0.5, 0) /\
  exists L C H : R,
    rgb2oklch (fin3 (1, 0.5, 0)) = vfin L C H /\
    setChroma (fin3 (1, 0.5, 0)) (Fin 0) =
      vfin (rpow L (3 / 2.2)) (rpow L (3 / 2.2)) (rpow L (3 / 2.2)) /\
    scaleChroma (fin3 (1, 0.5, 0)) (Fin 0) = setChroma (fin3 (1, 0.5, 0)) (Fin 0).
Proof.
  assert (H : in01 (1, 0.5, 0)) by (cbn; lra).
  split; [exact H |]. exact (zero_chroma_is_the_gray_of_the_lightness (1, 0.5, 0) H).
Defined.

(** X13.  Lowering the lightness does not lead to black: for every
    lightness, also 0 and below, [setLightness] of pure blue returns a
    colour whose blue component is at least 0.3. *)
Theorem setLightness_keeps_blue_visible : forall lightness : R,
  exists r g b : R,
    setLightness (vfin 0 0 1) (Fin lightness) = vfin r g b /\ 0.3 <= b.
Proof.
  intros lightness.
  assert (Hn : nonneg3 (0, 0, 1)) by (cbn; lra).
  destruct (rgb2oklch_vfin (0, 0, 1) Hn) as [L [C [H [ER E]]]].
  unfold Rrgb2oklch in ER.
  destruct (Rrgb2oklab 2.2 (0, 0, 1)) as [[L0 a] b] eqn:El.
  destruct (blue_oklab_bounds _ _ _ El) as (_ & Ha & Hb).
  unfold Roklab2oklch in ER. injection ER as <- <- <-.
  unfold setLightness. cbv zeta. change (vfin 0 0 1) with (fin3 (0, 0, 1)).
  rewrite E. cbn [vfin Vec3.x Vec3.y Vec3.z].
  fold (clamp01 (Fin lightness)). rewrite clamp01_fin.
  pose proof (Rclamp01_range lightness) as Hl. set (l := Rclamp01 lightness) in *.
  fold (vfin l (sqrt (a * a + b * b)) (Ratan2 b a)). rewrite oklch2rgb_vfin.
  unfold Roklch2rgb, Roklch2oklab. destruct (polar_inverse a b) as [-> ->].
  unfold Roklab2rgb. destruct (Rlinear (l, a, b)) as [[x y] z] eqn:Elin.
  pose proof (blue_linear_blue l a b x y z Hl Ha Hb Elin) as Hz.
  unfold map3, fin3. do 3 eexists. split; [reflexivity|].
  apply encode_above_03. pose proof (Rclamp01_range z).
  pose proof (Rclamp01_ge z 0.1 Hz ltac:(lra)). lra.
Qed.

(** X14.  From OkLCH to Oklab and back: for a chroma between 1e-100 and
    1e100 and a hue of (-PI, PI] that is zero or at least 1e-100 in
    magnitude, [oklab2oklch (oklch2oklab lch)] is [lch] (in exact arithmetic
    within the binary64 range). *)
Theorem oklch_round_trip : forall L C H : R,
  1e-100 <= C <= 1e100 -> - PI < H <= PI -> H = 0 \/ 1e-100 <= Rabs H ->
  OkColor64.oklab2oklch (OkColor64.oklch2oklab (vfin L C H)) = vfin L C H.
Proof.
  intros L C H HC HH _.
  assert (B : Rabs C <= 1e100) by (apply Rabs_le; lra).
  destruct (polar_component_le C H B) as [Ba Bb].
  rewrite oklch2oklab64_fin, oklab2oklch64_fin by assumption.
  rewrite chroma_of_polar, Rabs_pos_eq, hue_of_polar by lra. reflexivity.
Qed.

Lemma oklch_round_trip_witness :
  1e-100 <= 0.2 <= 1e100 /\ - PI < PI <= PI /\ (PI = 0 \/ 1e-100 <= Rabs PI) /\
  OkColor64.oklab2oklch (OkColor64.oklch2oklab (vfin 0.5 0.2 PI)) = vfin 0.5 0.2 PI.
Proof.
  pose proof PI_RGT_0 as HPI. pose proof PI2_3_2 as HPI3.
  assert (HC : 1e-100 <= 0.2 <= 1e100) by lra. assert (HH : - PI < PI <= PI) by lra.
  assert (HN : PI = 0 \/ 1e-100 <= Rabs PI) by (right; rewrite Rabs_pos_eq; lra).
  split; [exact HC |]. split; [exact HH |]. split; [exact HN |].
  exact (oklch_round_trip 0.5 0.2 PI HC HH HN).
Defined.

(** X15.  [oklch2oklab] accepts a negative chroma: for a chroma that is
    zero or of a magnitude between 1e-100 and 1000 and a hue of at most 100
    in magnitude, the negative chroma is the same as the positive chroma at
    the opposite hue, and [oklab2oklch] reads the absolute value back as the
    chroma. *)
Theorem chroma_sign_is_lost : forall L C H : R, in_range C -> Rabs H <= 100 ->
  (exists H' : R,
     OkColor64.oklab2oklch (OkColor64.oklch2oklab (vfin L C H)) = vfin L (Rabs C) H') /\
  OkColor64.oklch2oklab (vfin L (- C) H) = OkColor64.oklch2oklab (vfin L C (H + PI)).
Proof.
  intros L C H B _. apply in_range_le in B.
  destruct (polar_component_le C H B) as [Ba Bb].
  rewrite !oklch2oklab64_fin by (rewrite ?Rabs_Ropp; assumption).
  rewrite oklab2oklch64_fin, chroma_of_polar by assumption.
  split; [eexists; reflexivity|]. rewrite neg_cos, neg_sin.
  unfold vfin. f_equal; f_equal; ring.
Qed.

Lemma chroma_sign_is_lost_witness :
  in_range 0.2 /\ Rabs 1 <= 100 /\
  OkColor64.oklch2oklab (vfin 0.5 (- (0.2)) 1) = OkColor64.oklch2oklab (vfin 0.5 0.2 (1 + PI)).
Proof.
  assert (B : in_range 0.2) by (right; rewrite Rabs_pos_eq; lra).
  assert (P : Rabs 1 <= 100) by (apply Rabs_le; lra).
  split; [exact B |]. split; [exact P |].
  exact (proj2 (chroma_sign_is_lost 0.5 0.2 1 B P)).
Defined.



(** X17.  [oklab2rgb] on the gray axis, at the default gamma, for a
    lightness of at most 1e100 in magnitude: the Oklab colour [(L, 0, 0)]
    becomes black for [L <= 0], white for [L >= 1], and the gray
    [L^(3/2.2)] for [L] between 1e-100 and 1. *)
Theorem oklab2rgb_of_gray : forall L : R, Rabs L <= 1e100 ->
  (L <= 0 -> OkColor64.oklab2rgb (vfin L 0 0) default_gamma = vfin 0 0 0) /\
  (1 <= L -> OkColor64.oklab2rgb (vfin L 0 0) default_gamma = vfin 1 1 1) /\
  (1e-100 <= L <= 1 ->
     OkColor64.oklab2rgb (vfin L 0 0) default_gamma =
     vfin (rpow L (3 / 2.2)) (rpow L (3 / 2.2)) (rpow L (3 / 2.2))).
Proof.
  intros L B.
  assert (E : OkColor64.oklab2rgb (vfin L 0 0) default_gamma =
              vfin (Rgray L) (Rgray L) (Rgray L)).
  { change (vfin L 0 0) with (fin3 (L, 0, 0)). unfold default_gamma.
    rewrite oklab2rgb64_fin.
    - unfold Roklab2rgb. rewrite Rlinear_gray. reflexivity.
    - unfold bounded3. repeat split; [exact B | |]; apply Rabs_le; lra.
    - lra. }
  rewrite E. repeat split; intros HL.
  - assert (Q : Rgray L = 0); [| now rewrite Q].
    unfold Rgray. assert (Rcube L <= 0) by (unfold Rcube; nra).
    replace (Rclamp01 (Rcube L)) with 0 by clamp_cases. apply rpow_0.
  - assert (Q : Rgray L = 1); [| now rewrite Q].
    unfold Rgray. assert (1 <= Rcube L) by (unfold Rcube; nra).
    replace (Rclamp01 (Rcube L)) with 1 by clamp_cases. apply rpow_1_l.
  - rewrite Rgray_closed by lra. reflexivity.
Qed.

Lemma oklab2rgb_of_gray_witness :
  Rabs 0.5 <= 1e100 /\
  OkColor64.oklab2rgb (vfin 0.5 0 0) default_gamma =
    vfin (rpow 0.5 (3 / 2.2)) (rpow 0.5 (3 / 2.2)) (rpow 0.5 (3 / 2.2)).
Proof.
  assert (B : Rabs 0.5 <= 1e100) by (apply Rabs_le; lra).
  split; [exact B |].
  exact (proj2 (proj2 (oklab2rgb_of_gray 0.5 B)) ltac:(lra)).
Defined.



(** X19.  The matrix pairs of the two directions are inverse to each other
    only approximately: on a vector of [0,1]^3, applying [kCONEtoLMS] and
    then [kLMStoCONE] changes each component by at most 5e-10, and applying
    [kLMStoOKLAB] and then [kOKLABtoLMS] by at most 7e-8. *)
Theorem matrices_are_nearly_inverse : forall v : R3, in01 v ->
  exists w w' : R3,
    mat3MulVec3 kLMStoCONE (mat3MulVec3 kCONEtoLMS (fin3 v)) = fin3 w /\
    close3 (5 / 10000000000) w v /\
    mat3MulVec3 kOKLABtoLMS (mat3MulVec3 kLMStoOKLAB (fin3 v)) = fin3 w' /\
    close3 (7 / 100000000) w' v.
Proof.
  intros v Hv.
  exists (Rmat kLMStoCONE (Rmat kCONEtoLMS v)), (Rmat kOKLABtoLMS (Rmat kLMStoOKLAB v)).
  rewrite mat_fin_CONEtoLMS, mat_fin_LMStoCONE, mat_fin_LMStoOKLAB, mat_fin_OKLABtoLMS.
  destruct v as [[a b] c]. destruct Hv as (Ha & Hb & Hc).
  split; [reflexivity|]. split; [| split; [reflexivity|]].
  - matrix_constants. unfold close3. repeat split; apply Rabs_le; lra.
  - matrix_constants. unfold close3. repeat split; apply Rabs_le; lra.
Qed.

Lemma matrices_are_nearly_inverse_witness :
  in01 (1, 0.5, 0) /\
  exists w : R3,
    mat3MulVec3 kLMStoCONE (mat3MulVec3 kCONEtoLMS (fin3 (1, 0.5, 0))) = fin3 w /\
    close3 (5 / 10000000000) w (1, 0.5, 0).
Proof.
  assert (H : in01 (1, 0.5, 0)) by (cbn; lra).
  split; [exact H |].
  destruct (matrices_are_nearly_inverse (1, 0.5, 0) H) as [w [_ [E [C _]]]].
  exists w. split; [exact E | exact C].
Defined.

(** X20.  Mixing a colour with itself does not depend on [t]: for every
    colour and every finite [t], [mix(rgb, rgb, t) = mix(rgb, rgb, 0)]. *)
Theorem mix_with_itself_ignores_t : forall (rgb : Vec3.t) (t : R),
  mix rgb rgb (Fin t) = mix rgb rgb (Fin 0).
Proof.
  intros rgb t. unfold mix. cbv zeta.
  match goal with |- context [Vec3.mix ?a ?a (Fin t)] =>
    replace (Vec3.mix a a (Fin t)) with (Vec3.mix a a (Fin 0)); [reflexivity|]
  end.
  unfold Vec3.mix.
  assert (Q : forall v : num, (v + (v - v) * Fin 0 = v + (v - v) * Fin t)%js).
  { intros [| | |a]; try reflexivity. cbn. f_equal. ring. }
  now rewrite !Q.
Qed.

(** X21.  The ends of [mix], for normalized colours: every component of
    [mix(rgb1, rgb2, 0)] is either [NaN] or within 2e-3 of the same component
    of [rgb1], every component of [mix(rgb1, rgb2, 1)] is [NaN] or within
    2e-3 of [rgb2], and the same holds for [mix(rgb1, rgb1, t)] and [rgb1]
    at every finite [t]. *)
Theorem mix_endpoints : forall (rgb1 rgb2 : R3) (t : R), in01 rgb1 -> in01 rgb2 ->
  near_or_nan3 0.002 (mix (fin3 rgb1) (fin3 rgb2) (Fin 0)) rgb1 /\
  near_or_nan3 0.002 (mix (fin3 rgb1) (fin3 rgb2) (Fin 1)) rgb2 /\
  near_or_nan3 0.002 (mix (fin3 rgb1) (fin3 rgb1) (Fin t)) rgb1.
Proof.
  intros rgb1 rgb2 t H1 H2.
  split; [| split]; apply mix_of_one; try assumption;
    destruct (map3 Rcone (Rlms 2.2 rgb1)) as [[a b] c];
    destruct (map3 Rcone (Rlms 2.2 rgb2)) as [[a' b'] c'];
    unfold zip3, Rlerp; f_equal; [f_equal | | f_equal | | f_equal |]; ring.
Qed.

Lemma mix_endpoints_witness :
  in01 (0, 0, 1) /\ in01 (0, 1, 0) /\
  near_or_nan3 0.002 (mix (fin3 (0, 0, 1)) (fin3 (0, 1, 0)) (Fin 0)) (0, 0, 1).
Proof.
  assert (H1 : in01 (0, 0, 1)) by (cbn; lra). assert (H2 : in01 (0, 1, 0)) by (cbn; lra).
  split; [exact H1 |]. split; [exact H2 |].
  exact (proj1 (mix_endpoints (0, 0, 1) (0, 1, 0) 0 H1 H2)).
Defined.


